(** * FileMove: the file-arrival and filing pipeline

    A shallow embedding of the ticket-title parser, the destination
    builder and the mover of [redmine_file_organizer.py], of the
    processed-set check of [DownloadsMonitor], and of the settle probe of
    [src/file_watcher.py], with the properties their specification states;
    and of the code around them: the Zone.Identifier reader, the scan of
    the download folder, and the single-file and batch organizers.

    Python [str] values are sequences of Unicode code points; dictionaries
    with a fixed key set are records; the file system, the clock and the
    callbacks are explicit state. *)

From Stdlib Require Import ZArith NArith List String Ascii Bool Lia Sorted.
From stdpp Require Import base option list gmap.

Import ListNotations.
Open Scope Z_scope.

(* ===================================================================== *)
(** * Python strings *)
(* ===================================================================== *)

(** A [str] is a list of code points. *)
Abbreviation pystr := (list N) (only parsing).

(** An ASCII literal as a [str]. *)
Definition ustr (s : string) : pystr :=
  List.map N_of_ascii (list_ascii_of_string s).

Module Chr.
Definition lbracket : N := 91%N.   (* [ *)
Definition rbracket : N := 93%N.   (* ] *)
Definition newline : N := 10%N.    (* line feed *)
Definition slash : N := 47%N.      (* / *)
Definition dot : N := 46%N.        (* . *)
Definition underscore : N := 95%N. (* _ *)
Definition percent : N := 37%N.    (* % *)
End Chr.

(** [str.isspace] on one code point: the code points CPython lists as
    whitespace. *)
Definition isspace (c : N) : bool :=
  ((9 <=? c) && (c <=? 13) || (28 <=? c) && (c <=? 32) ||
   (c =? 133) || (c =? 160) || (c =? 5760) ||
   (8192 <=? c) && (c <=? 8202) || (c =? 8232) || (c =? 8233) ||
   (c =? 8239) || (c =? 8287) || (c =? 12288))%N.

Fixpoint lstrip (s : pystr) : pystr :=
  match s with
  | c :: s' => if isspace c then lstrip s' else s
  | [] => []
  end.

Definition rstrip (s : pystr) : pystr := rev (lstrip (rev s)).

(** [s.lstrip(chars)] for the characters [f] accepts. *)
Fixpoint drop_while (f : N -> bool) (s : pystr) : pystr :=
  match s with
  | c :: s' => if f c then drop_while f s' else s
  | [] => []
  end.

(** [s.strip()] *)
Definition strip (s : pystr) : pystr := rstrip (lstrip s).

Fixpoint startswith (s prefix : pystr) : bool :=
  match prefix, s with
  | [], _ => true
  | p :: prefix', c :: s' => (c =? p)%N && startswith s' prefix'
  | _ :: _, [] => false
  end.

Definition endswith (s suffix : pystr) : bool :=
  startswith (rev s) (rev suffix).

(** Python truthiness of a [str]. *)
Definition truthy (s : pystr) : bool :=
  match s with [] => false | _ :: _ => true end.

(* ===================================================================== *)
(** * The fragment of [re] the title patterns use *)
(* ===================================================================== *)

Module Re.

(** One-character matchers. *)
Inductive charset : Type :=
| NotChar (c : N)   (* [^c] : any code point but [c], line feeds included *)
| Dot.              (* .    : any code point but a line feed *)

Definition mem (cs : charset) (x : N) : bool :=
  match cs with
  | NotChar c => negb (x =? c)%N
  | Dot => negb (x =? Chr.newline)%N
  end.

Inductive atom : Type :=
| Bol                   (* ^ *)
| Eol                   (* $ *)
| Lit (c : N)           (* an escaped literal such as \[ *)
| Group (cs : charset). (* (cs+) : capturing group around a greedy + *)

Definition regex : Type := list atom.

(** [$] without MULTILINE: at the end, or just before a line feed that is
    the last code point. *)
Definition at_eol (s : pystr) : bool :=
  match s with
  | [] => true
  | [c] => (c =? Chr.newline)%N
  | _ => false
  end.

(** Greedy [cs+] after its first code point: [taken] holds what the
    repetition consumed so far (last first). The longest repetition is
    tried first; when the continuation [k] fails on it, one code point
    is given back. *)
Fixpoint more {A} (cs : charset) (k : pystr -> pystr -> option A)
    (taken : pystr) (s : pystr) : option A :=
  match s with
  | x :: s' =>
      if mem cs x then
        match more cs k (x :: taken) s' with
        | Some r => Some r
        | None => k (rev taken) s
        end
      else k (rev taken) s
  | [] => k (rev taken) s
  end.

(** Backtracking matcher; [bos] says whether the position is the start of
    the string. The result lists the captured groups in order. *)
Fixpoint run (r : regex) (bos : bool) (s : pystr) : option (list pystr) :=
  match r with
  | [] => Some []
  | Bol :: r' => if bos then run r' bos s else None
  | Eol :: r' => if at_eol s then run r' bos s else None
  | Lit c :: r' =>
      match s with
      | x :: s' => if (x =? c)%N then run r' false s' else None
      | [] => None
      end
  | Group cs :: r' =>
      match s with
      | x :: s' =>
          if mem cs x
          then more cs (fun g rest => cons g <$> run r' false rest) [x] s'
          else None
      | [] => None
      end
  end.

(** [re.match(pattern, s)]: anchored at the start of [s]. *)
Definition re_match (r : regex) (s : pystr) : option (list pystr) :=
  run r true s.

End Re.

(* ===================================================================== *)
(** * RedmineFileOrganizer.parse_ticket_title *)
(* ===================================================================== *)

(** The dictionary [parse_ticket_title] returns. *)
Record parsed_title : Type := ParsedTitle {
  folder1 : pystr;
  folder2 : pystr;
  folder3 : option pystr;
  levels : Z
}.

(** r'^\[([^\]]+)\]\[([^\]]+)\](.+)$' *)
Definition pattern3 : Re.regex :=
  [Re.Bol;
   Re.Lit Chr.lbracket; Re.Group (Re.NotChar Chr.rbracket); Re.Lit Chr.rbracket;
   Re.Lit Chr.lbracket; Re.Group (Re.NotChar Chr.rbracket); Re.Lit Chr.rbracket;
   Re.Group Re.Dot; Re.Eol].

(** r'^\[([^\]]+)\](.+)$' *)
Definition pattern2 : Re.regex :=
  [Re.Bol;
   Re.Lit Chr.lbracket; Re.Group (Re.NotChar Chr.rbracket); Re.Lit Chr.rbracket;
   Re.Group Re.Dot; Re.Eol].

Definition parse_ticket_title (title : pystr) : option parsed_title :=
  match Re.re_match pattern3 (strip title) with
  | Some [g1; g2; g3] =>
      Some {| folder1 := g1; folder2 := g2; folder3 := Some (strip g3);
              levels := 3 |}
  | _ =>
      match Re.re_match pattern2 (strip title) with
      | Some [g1; g2] =>
          Some {| folder1 := g1; folder2 := strip g2; folder3 := None;
                  levels := 2 |}
      | _ => None
      end
  end.

(* ===================================================================== *)
(** * posixpath *)
(* ===================================================================== *)

(** The program goes through [os.path]; its POSIX flavour is modelled, the
    one the specification's examples are written in. *)

Module PosixPath.

Definition sep : pystr := [Chr.slash].

(** One round of the loop of [posixpath.join]. *)
Definition join2 (path b : pystr) : pystr :=
  if startswith b sep then b
  else if negb (truthy path) || endswith path sep then path ++ b
  else path ++ sep ++ b.

(** [os.path.join(a, *p)] *)
Definition join (a : pystr) (p : list pystr) : pystr :=
  fold_left join2 p a.

(** [s.rfind(c)] for a one-character [c]: the highest index, or -1. *)
Fixpoint rfind_from (c : N) (s : pystr) (i : Z) (found : Z) : Z :=
  match s with
  | [] => found
  | x :: s' => rfind_from c s' (i + 1) (if (x =? c)%N then i else found)
  end.

Definition rfind (s : pystr) (c : N) : Z := rfind_from c s 0 (-1).

(** Slices [s[i:]], [s[:i]] and [s[i:j]] at indices that are not negative. *)
Definition slice_from (s : pystr) (i : Z) : pystr := drop (Z.to_nat i) s.
Definition slice_to (s : pystr) (i : Z) : pystr := take (Z.to_nat i) s.
Definition slice (s : pystr) (i j : Z) : pystr :=
  slice_to (slice_from s i) (j - i).

(** [os.path.basename(p)] *)
Definition basename (p : pystr) : pystr :=
  let i := rfind p Chr.slash + 1 in
  slice_from p i.

(** [os.path.splitext(p)]: the extension starts at the last dot of the
    last component, unless only dots precede it there. The [while] loop
    of [genericpath._splitext] looks for a code point other than a dot
    between the component's start and that dot. *)
Definition splitext (p : pystr) : pystr * pystr :=
  let sepIndex := rfind p Chr.slash in
  let dotIndex := rfind p Chr.dot in
  if (sepIndex <? dotIndex) &&
     existsb (fun x => negb (x =? Chr.dot)%N) (slice p (sepIndex + 1) dotIndex)
  then (slice_to p dotIndex, slice_from p dotIndex)
  else (p, []).

End PosixPath.

(* ===================================================================== *)
(** * datetime *)
(* ===================================================================== *)

Record datetime : Type := DateTime {
  year : Z; month : Z; day : Z; hour : Z; minute : Z; second : Z
}.

Definition digit (n : Z) : N := (48 + Z.to_N (n mod 10))%N.

(** Zero-padded decimal fields of width 2 and 4. *)
Definition zpad2 (n : Z) : pystr := [digit (n / 10); digit n].
Definition zpad4 (n : Z) : pystr :=
  [digit (n / 1000); digit (n / 100); digit (n / 10); digit n].

(** The directives the program uses: %Y %m %d %H %M %S. *)
Definition directive (dt : datetime) (d : N) : pystr :=
  if (d =? 89)%N then zpad4 (year dt)
  else if (d =? 109)%N then zpad2 (month dt)
  else if (d =? 100)%N then zpad2 (day dt)
  else if (d =? 72)%N then zpad2 (hour dt)
  else if (d =? 77)%N then zpad2 (minute dt)
  else if (d =? 83)%N then zpad2 (second dt)
  else [Chr.percent; d].

(** [dt.strftime(fmt)] *)
Fixpoint strftime (dt : datetime) (fmt : pystr) : pystr :=
  match fmt with
  | [] => []
  | c :: fmt' =>
      if (c =? Chr.percent)%N then
        match fmt' with
        | d :: fmt'' => directive dt d ++ strftime dt fmt''
        | [] => [c]
        end
      else c :: strftime dt fmt'
  end.

(** A concrete [datetime.fromtimestamp] for a host whose local time is UTC
    (proleptic Gregorian calendar, days counted from 1970-01-01). *)
Definition utc_fromtimestamp (ts : Z) : datetime :=
  let days := ts / 86400 in
  let secs := ts mod 86400 in
  let z := days + 719468 in
  let era := z / 146097 in
  let doe := z - era * 146097 in
  let yoe := (doe - doe / 1460 + doe / 36524 - doe / 146096) / 365 in
  let doy := doe - (365 * yoe + yoe / 4 - yoe / 100) in
  let mp := (5 * doy + 2) / 153 in
  let m := if mp <? 10 then mp + 3 else mp - 9 in
  let y := yoe + era * 400 in
  {| year := if m <=? 2 then y + 1 else y;
     month := m;
     day := doy - (153 * mp + 2) / 5 + 1;
     hour := secs / 3600;
     minute := secs mod 3600 / 60;
     second := secs mod 60 |}.

(* ===================================================================== *)
(** * The host: file tree, clock, and what its calls can do *)
(* ===================================================================== *)

(** A raised exception: its class name and [str(e)]. *)
Record exn : Type := Exn { exn_class : string; exn_str : pystr }.

(** A call returns or raises. *)
Inductive outcome (A : Type) : Type :=
| Ret (a : A)
| Raise (e : exn).
Arguments Ret {A} a.
Arguments Raise {A} e.

Inductive node : Type :=
| File (content : list N) (mtime : Z)
| Dir (mtime : Z).

Definition node_mtime (n : node) : Z :=
  match n with File _ t => t | Dir t => t end.

(** [st_size]; a directory reports 0, as on Windows. *)
Definition node_size (n : node) : Z :=
  match n with File c _ => Z.of_nat (length c) | Dir _ => 0 end.

(** The host as the program sees it. Entries are keyed by the path string
    the program spells (no entry is keyed by the empty string); [clock] is
    [time.time()] and [fromtimestamp] the host's conversion to local time.
    [mkdir_fault] and [move_fault], when set, are the
    message with which the host refuses [os.makedirs] and [shutil.move]
    (permissions, a vanished source, another device). [moves] records the
    calls of [shutil.move], latest first. *)
Record world : Type := World {
  fs : gmap pystr node;
  clock : Z;
  fromtimestamp : Z -> datetime;
  mkdir_fault : option pystr;
  move_fault : option pystr;
  moves : list (pystr * pystr)
}.

Definition set_fs (w : world) (m : gmap pystr node) : world :=
  {| fs := m; clock := clock w; fromtimestamp := fromtimestamp w;
     mkdir_fault := mkdir_fault w; move_fault := move_fault w;
     moves := moves w |}.

Definition log_move (w : world) (src dst : pystr) : world :=
  {| fs := fs w; clock := clock w; fromtimestamp := fromtimestamp w;
     mkdir_fault := mkdir_fault w; move_fault := move_fault w;
     moves := (src, dst) :: moves w |}.

(** [datetime.now()] *)
Definition now (w : world) : datetime := fromtimestamp w (clock w).

Module OS.

(** [os.path.exists] *)
Definition path_exists (w : world) (p : pystr) : bool :=
  bool_decide (is_Some (fs w !! p)).

Definition isdir (w : world) (p : pystr) : bool :=
  match fs w !! p with Some (Dir _) => true | _ => false end.

Definition isfile (w : world) (p : pystr) : bool :=
  match fs w !! p with Some (File _ _) => true | _ => false end.

(** [os.path.getmtime] *)
Definition getmtime (w : world) (p : pystr) : outcome Z :=
  match fs w !! p with
  | Some n => Ret (node_mtime n)
  | None => Raise (Exn "FileNotFoundError" p)
  end.

(** [os.path.getsize] *)
Definition getsize (w : world) (p : pystr) : outcome Z :=
  match fs w !! p with
  | Some n => Ret (node_size n)
  | None => Raise (Exn "FileNotFoundError" p)
  end.

(** The directories [os.makedirs(p)] visits, outermost first: every
    prefix of [p] that stops before a separator, then [p] itself. *)
Fixpoint ancestors_from (seen : pystr) (s : pystr) : list pystr :=
  match s with
  | [] => if truthy seen then [rev seen] else []
  | c :: s' =>
      (if (c =? Chr.slash)%N && truthy seen then [rev seen] else [])
      ++ ancestors_from (c :: seen) s'
  end.

Definition ancestors (p : pystr) : list pystr := ancestors_from [] p.

(** Creating the chain: a directory that is there is kept, a missing one
    is created, a regular file in the way stops the call. *)
Fixpoint mkdirs (ps : list pystr) (t : Z) (m : gmap pystr node)
  : gmap pystr node * bool :=
  match ps with
  | [] => (m, true)
  | p :: ps' =>
      match m !! p with
      | None => mkdirs ps' t (<[p := Dir t]> m)
      | Some (Dir _) => mkdirs ps' t m
      | Some (File _ _) => (m, false)
      end
  end.

(** [os.makedirs(p, exist_ok=True)] *)
Definition makedirs (w : world) (p : pystr) : world * outcome unit :=
  match mkdir_fault w with
  | Some msg => (w, Raise (Exn "OSError" msg))
  | None =>
      if negb (truthy p) then (w, Raise (Exn "FileNotFoundError" p))
      else
        match mkdirs (ancestors p) (clock w) (fs w) with
        | (m, true) => (set_fs w m, Ret tt)
        | (m, false) => (set_fs w m, Raise (Exn "FileExistsError" p))
        end
  end.

(** [path.rstrip(sep)] *)
Definition rstrip_sep (p : pystr) : pystr :=
  rev (drop_while (fun c => (c =? Chr.slash)%N) (rev p)).

(** [shutil._basename]: the last component, trailing separators aside. *)
Definition _basename (p : pystr) : pystr :=
  PosixPath.basename (rstrip_sep p).

(** [shutil.move(src, dst)]: into [dst] when it is a directory (refused
    when the name is taken there), onto [dst] otherwise, replacing what
    is there (a rename where the host renames over a file, a copy and a
    delete where it does not). The text of an exception is the host's; a
    move that raises is taken to leave the tree as it was, the source
    above all. The source is taken to be a regular file, which is what
    the program moves: of a directory only its own entry is moved here,
    the entries below it are not followed. *)
Definition shutil_move (w : world) (src dst : pystr) : world * outcome pystr :=
  let w := log_move w src dst in
  match move_fault w with
  | Some msg => (w, Raise (Exn "OSError" msg))
  | None =>
      match fs w !! src with
      | None => (w, Raise (Exn "FileNotFoundError" src))
      | Some n =>
          if bool_decide (src = dst) then (w, Ret dst)
          else if isdir w dst then
            let real_dst := PosixPath.join dst [_basename src] in
            if path_exists w real_dst
            then (w, Raise (Exn "Error" real_dst))
            else (set_fs w (<[real_dst := n]> (delete src (fs w))), Ret real_dst)
          else (set_fs w (<[dst := n]> (delete src (fs w))), Ret dst)
      end
  end.

End OS.

(* ===================================================================== *)
(** * RedmineFileOrganizer: build_target_path and move_file *)
(* ===================================================================== *)

(** The class attribute the two methods read. *)
Record organizer : Type := Organizer {
  BASE_OUTPUT_FOLDER : pystr
}.

Definition fmt_date : pystr := ustr "%Y%m%d".
Definition fmt_stamp : pystr := ustr "%Y%m%d_%H%M%S".

(** [if file_path and os.path.exists(file_path): ... else: ...] *)
Definition date_folder (w : world) (file_path : option pystr) : outcome pystr :=
  match file_path with
  | Some fp =>
      if truthy fp && OS.path_exists w fp then
        match OS.getmtime w fp with
        | Ret mtime => Ret (strftime (fromtimestamp w mtime) fmt_date)
        | Raise e => Raise e
        end
      else Ret (strftime (now w) fmt_date)
  | None => Ret (strftime (now w) fmt_date)
  end.

Definition build_target_path (self : organizer) (w : world)
    (parsed : option parsed_title) (file_path : option pystr)
  : outcome (option pystr) :=
  match parsed with
  | None => Ret None
  | Some pt =>
      match date_folder w file_path with
      | Raise e => Raise e
      | Ret date =>
          if levels pt =? 3 then
            match folder3 pt with
            | Some f3 =>
                Ret (Some (PosixPath.join (BASE_OUTPUT_FOLDER self)
                             [folder1 pt; folder2 pt; f3; date]))
            | None => Raise (Exn "TypeError" [])
            end
          else if levels pt =? 2 then
            Ret (Some (PosixPath.join (BASE_OUTPUT_FOLDER self)
                         [folder1 pt; folder2 pt; date]))
          else Ret None
      end
  end.

(** The message of the first [return False, ...]. *)
Definition msg_source_missing : pystr :=
  [20803; 12501; 12449; 12452; 12523; 12364; 35211; 12388; 12363; 12426;
   12414; 12379; 12435]%N.

(** The name tried when the plain name is taken: [f"{base}_{timestamp}{ext}"]. *)
Definition stamped_name (w : world) (filename : pystr) : pystr :=
  let '(base, ext) := PosixPath.splitext filename in
  let timestamp := strftime (now w) fmt_stamp in
  base ++ [Chr.underscore] ++ timestamp ++ ext.

Definition move_file (w : world) (source_path target_folder : pystr)
  : world * outcome (bool * pystr) :=
  if negb (OS.path_exists w source_path) then
    (w, Ret (false, msg_source_missing))
  else
    match OS.makedirs w target_folder with
    | (w1, Raise e) => (w1, Raise e)
    | (w1, Ret _) =>
        let filename := PosixPath.basename source_path in
        let target_path := PosixPath.join target_folder [filename] in
        let target_path :=
          if OS.path_exists w1 target_path
          then PosixPath.join target_folder [stamped_name w1 filename]
          else target_path in
        match OS.shutil_move w1 source_path target_path with
        | (w2, Ret _) => (w2, Ret (true, target_path))
        | (w2, Raise e) => (w2, Ret (false, exn_str e))
        end
    end.

(* ===================================================================== *)
(** * DownloadsMonitor *)
(* ===================================================================== *)

(** A watchdog event. *)
Record fs_event : Type := FsEvent {
  is_directory : bool;
  src_path : pystr;
  dest_path : pystr
}.

(** [Handler._should_process] *)
Definition _should_process (file_path : pystr) : bool :=
  if negb (truthy file_path) then false
  else
    let filename := PosixPath.basename file_path in
    if startswith filename (ustr ".") then false
    else if existsb (endswith filename)
              [ustr ".tmp"; ustr ".crdownload"; ustr ".partial"; ustr ".download"]
    then false
    else true.

(** The handlers start a [threading.Timer]: the delay in milliseconds and
    the path its thread passes to [_on_file_created]. *)
Definition timer : Type := (Z * pystr)%type.

Definition on_created (event : fs_event) : list timer :=
  if negb (is_directory event) then
    let file_path := src_path event in
    if _should_process file_path then [(2000, file_path)] else []
  else [].

Definition on_moved (event : fs_event) : list timer :=
  if negb (is_directory event) then
    let file_path := dest_path event in
    if _should_process file_path then [(1000, file_path)] else []
  else [].

Definition on_modified (event : fs_event) : list timer :=
  if negb (is_directory event) then
    let file_path := src_path event in
    if _should_process file_path then [(3000, file_path)] else []
  else [].

(** The monitor, the host it runs on, and the calls of its callback so
    far (latest first). The callback may change the host: it is the
    organizer filing the file away. *)
Record monitor : Type := Monitor {
  callback : option (pystr -> world -> world);
  processed_files : gset pystr;
  host : world;
  forwarded : list pystr
}.

Definition claim (m : monitor) (p : pystr) : monitor :=
  {| callback := callback m; processed_files := processed_files m ∪ {[p]};
     host := host m; forwarded := forwarded m |}.

Definition call_back (m : monitor) (p : pystr) : monitor :=
  match callback m with
  | Some cb =>
      {| callback := callback m; processed_files := processed_files m;
         host := cb p (host m); forwarded := p :: forwarded m |}
  | None => m
  end.

(** [DownloadsMonitor._on_file_created] *)
Definition _on_file_created (m : monitor) (file_path : pystr) : monitor :=
  if bool_decide (file_path ∈ processed_files m) then m
  else if negb (OS.path_exists (host m) file_path) then m
  else
    let m := claim m file_path in
    call_back m file_path.

(** ** Timer threads

    Each timer runs [_on_file_created] on a thread of its own, and nothing
    in the class holds a lock: a thread can be suspended between any two
    of the method's four statements. *)
Inductive pc : Type := AtTest | AtExists | AtAdd | AtCall | AtEnd.

(** One statement of [_on_file_created] for the thread at [l]. *)
Definition thread_step (file_path : pystr) (m : monitor) (l : pc) : monitor * pc :=
  match l with
  | AtTest =>
      if bool_decide (file_path ∈ processed_files m) then (m, AtEnd)
      else (m, AtExists)
  | AtExists =>
      if negb (OS.path_exists (host m) file_path) then (m, AtEnd)
      else (m, AtAdd)
  | AtAdd => (claim m file_path, AtCall)
  | AtCall => (call_back m file_path, AtEnd)
  | AtEnd => (m, AtEnd)
  end.

(** Two timer threads for the same path; a schedule names the thread that
    runs next ([true]: the first). *)
Record threads : Type := Threads { shared : monitor; pc1 : pc; pc2 : pc }.

Definition sched_step (file_path : pystr) (c : threads) (first : bool) : threads :=
  if first then
    let '(m, l) := thread_step file_path (shared c) (pc1 c) in
    {| shared := m; pc1 := l; pc2 := pc2 c |}
  else
    let '(m, l) := thread_step file_path (shared c) (pc2 c) in
    {| shared := m; pc1 := pc1 c; pc2 := l |}.

Definition run_schedule (file_path : pystr) (sched : list bool) (c : threads)
  : threads :=
  fold_left (sched_step file_path) sched c.

Definition spawn (m : monitor) : threads :=
  {| shared := m; pc1 := AtTest; pc2 := AtTest |}.

Definition finished (c : threads) : Prop := pc1 c = AtEnd ∧ pc2 c = AtEnd.

(* ===================================================================== *)
(** * file_watcher.FileCreationHandler *)
(* ===================================================================== *)

(** The watched folder changes while the handler sleeps: [timeline t] is
    the host after [t] sleeps. The handler's own trace: the sleeps it took
    (milliseconds, latest first), the probes it made, the callbacks. *)
Record probing : Type := Probing {
  tick : nat;
  sleeps : list Z;
  probes : nat;
  calls : list pystr
}.

(** [time.sleep(0.5)] *)
Definition sleep_half (s : probing) : probing :=
  {| tick := S (tick s); sleeps := 500 :: sleeps s;
     probes := probes s; calls := calls s |}.

Definition count_probe (s : probing) : probing :=
  {| tick := tick s; sleeps := sleeps s;
     probes := S (probes s); calls := calls s |}.

Definition record_call (s : probing) (p : pystr) : probing :=
  {| tick := tick s; sleeps := sleeps s;
     probes := probes s; calls := p :: calls s |}.

(** [except (OSError, FileNotFoundError)] *)
Definition caught (e : exn) : bool :=
  (String.eqb (exn_class e) "OSError" || String.eqb (exn_class e) "FileNotFoundError")%bool.

(** [FileCreationHandler._is_file_ready] *)
Definition _is_file_ready (timeline : nat -> world) (filepath : pystr)
    (s : probing) : outcome bool * probing :=
  let s := count_probe s in
  match OS.getsize (timeline (tick s)) filepath with
  | Raise e => if caught e then (Ret false, s) else (Raise e, s)
  | Ret initial_size =>
      let s := sleep_half s in
      match OS.getsize (timeline (tick s)) filepath with
      | Raise e => if caught e then (Ret false, s) else (Raise e, s)
      | Ret final_size =>
          (Ret ((initial_size =? final_size) && (0 <? final_size)), s)
      end
  end.

Definition max_attempts : nat := 10.

(** The [for _ in range(max_attempts)] loop with [n] rounds left. *)
Fixpoint attempts (timeline : nat -> world) (cb : pystr -> outcome unit)
    (filepath : pystr) (n : nat) (s : probing) : outcome unit * probing :=
  match n with
  | O => (Ret tt, s)
  | S n' =>
      match _is_file_ready timeline filepath s with
      | (Raise e, s1) => (Raise e, s1)
      | (Ret true, s1) => (cb filepath, record_call s1 filepath)
      | (Ret false, s1) => attempts timeline cb filepath n' (sleep_half s1)
      end
  end.

(** [FileCreationHandler._process_file] *)
Definition _process_file (timeline : nat -> world) (cb : pystr -> outcome unit)
    (filepath : pystr) (s : probing) : outcome unit * probing :=
  if negb (OS.isfile (timeline (tick s)) filepath) then (Ret tt, s)
  else attempts timeline cb filepath max_attempts s.

(** The state in which attempt number [i] (from 0) starts when every
    earlier attempt found the file not ready. *)
Fixpoint attempt_start (timeline : nat -> world) (filepath : pystr)
    (i : nat) (s : probing) : probing :=
  match i with
  | O => s
  | S i' =>
      attempt_start timeline filepath i'
        (sleep_half (snd (_is_file_ready timeline filepath s)))
  end.

(* ===================================================================== *)
(** * Sample hosts *)
(* ===================================================================== *)

(** A download whose plain name and stamped name are both taken in the
    target folder. *)
Definition w_stamp_taken : world :=
  {| fs := {[ ustr "/dl/a.txt" := File [1;2;3]%N 1709632800;
              ustr "/out/a.txt" := File [9]%N 5;
              ustr "/out/a_20240305_100000.txt" := File [7]%N 6 ]};
     clock := 1709632800; fromtimestamp := utc_fromtimestamp;
     mkdir_fault := None; move_fault := None; moves := [] |}.

(** A settled download, last modified on 2024-03-05 at 10:00 UTC. *)
Definition w_settled : world :=
  {| fs := {[ ustr "/dl/report.pdf" := File [37; 80; 68; 70]%N 1709632800 ]};
     clock := 1730000000; fromtimestamp := utc_fromtimestamp;
     mkdir_fault := None; move_fault := None; moves := [] |}.

(* ===================================================================== *)
(** * What the title grammar says *)
(* ===================================================================== *)

(** What [[^\]]+] can capture. *)
Definition bracketed (A : pystr) : Prop := A ≠ [] ∧ Chr.rbracket ∉ A.

(** What [.+] can capture. *)
Definition remainder (R : pystr) : Prop := R ≠ [] ∧ Chr.newline ∉ R.

(** "[" seg1 "][" seg2 "]" rest *)
Definition title3 (s A B R : pystr) : Prop :=
  s = [Chr.lbracket] ++ A ++ [Chr.rbracket] ++
      [Chr.lbracket] ++ B ++ [Chr.rbracket] ++ R
  ∧ bracketed A ∧ bracketed B ∧ remainder R.

(** "[" seg1 "]" rest *)
Definition title2 (s A R : pystr) : Prop :=
  s = [Chr.lbracket] ++ A ++ [Chr.rbracket] ++ R
  ∧ bracketed A ∧ remainder R.

(* ===================================================================== *)
(** * What the destination builder is to return *)
(* ===================================================================== *)

(** The date segment: YYYYMMDD. *)
Definition yyyymmdd (dt : datetime) : pystr :=
  zpad4 (year dt) ++ zpad2 (month dt) ++ zpad2 (day dt).

(** The label segments of a parsed title, in order. *)
Definition segments (pt : parsed_title) : list pystr :=
  [folder1 pt; folder2 pt] ++ from_option (λ f3, [f3]) [] (folder3 pt).

(** The file's modification time as the host's local time. *)
Definition local_mtime (w : world) (p : pystr) : option datetime :=
  (λ n, fromtimestamp w (node_mtime n)) <$> fs w !! p.

Definition data_root : organizer := {| BASE_OUTPUT_FOLDER := ustr "/data" |}.

Definition acme_title : pystr := ustr "[Acme][P100]Door sensor broken".

(* ===================================================================== *)
(** * Sample monitors and timelines *)
(* ===================================================================== *)

(** A callback that leaves the host as it is. *)
Definition keep_host (_ : pystr) (w : world) : world := w.

Definition idle_monitor : monitor :=
  {| callback := Some keep_host; processed_files := ∅;
     host := w_settled; forwarded := [] |}.

Definition report : pystr := ustr "/dl/report.pdf".

(** A folder in which the download never gets its first byte. *)
Definition w_empty_file : world :=
  {| fs := {[ ustr "/dl/stub.bin" := File [] 1709632800 ]};
     clock := 1709632800; fromtimestamp := utc_fromtimestamp;
     mkdir_fault := None; move_fault := None; moves := [] |}.

Definition fresh_probe : probing :=
  {| tick := 0; sleeps := []; probes := 0; calls := [] |}.

Definition accept (_ : pystr) : outcome unit := Ret tt.

(* ===================================================================== *)
(** * What holds along every schedule of two timer threads *)
(* ===================================================================== *)

Definition pc_of (first : bool) (c : threads) : pc :=
  if first then pc1 c else pc2 c.

Definition ended (l : pc) : nat :=
  match l with AtEnd => 1%nat | _ => 0%nat end.

(** Before the insert. *)
Definition early (l : pc) : Prop := l = AtTest ∨ l = AtExists ∨ l = AtAdd.

(** Along any schedule: [k] callbacks so far, each by a thread that has
    ended, and one is made or about to be made unless both threads are
    still before the insert on the unchanged host. *)
Definition race_inv (p : pystr) (cb : pystr → world → world) (w : world)
    (fwd : list pystr) (c : threads) : Prop :=
  callback (shared c) = Some cb
  ∧ ∃ k : nat,
      forwarded (shared c) = replicate k p ++ fwd
      ∧ (k ≤ ended (pc1 c) + ended (pc2 c))%nat
      ∧ ((1 ≤ k)%nat ∨ pc1 c = AtCall ∨ pc2 c = AtCall
         ∨ ((p ∉ processed_files (shared c)) ∧ host (shared c) = w
            ∧ early (pc1 c) ∧ early (pc2 c))).

(** Once thread [b] has inserted while the other has not yet tested. *)
Definition serial_inv (p : pystr) (cb : pystr → world → world)
    (fwd : list pystr) (b : bool) (c : threads) : Prop :=
  callback (shared c) = Some cb
  ∧ p ∈ processed_files (shared c)
  ∧ (pc_of (negb b) c = AtTest ∨ pc_of (negb b) c = AtEnd)
  ∧ (pc_of b c = AtCall ∧ forwarded (shared c) = fwd
     ∨ pc_of b c = AtEnd ∧ forwarded (shared c) = p :: fwd).

(** Two modified events for the report, and the schedule that alternates
    between their two timer threads. *)
Definition report_modified : fs_event :=
  {| is_directory := false; src_path := report; dest_path := [] |}.

Definition alternating : list bool :=
  [true; false; true; false; true; false; true; false].

(* ===================================================================== *)
(** * What the mover is to do *)
(* ===================================================================== *)

(** The path under the plain file name, and the one tried when it is taken. *)
Definition plain_target (target_folder source_path : pystr) : pystr :=
  PosixPath.join target_folder [PosixPath.basename source_path].

Definition stamped_target (w : world) (target_folder source_path : pystr) : pystr :=
  PosixPath.join target_folder [stamped_name w (PosixPath.basename source_path)].

(** The path [move_file] hands to [shutil.move] on host [w]. *)
Definition chosen_target (w : world) (target_folder source_path : pystr) : pystr :=
  if OS.path_exists w (plain_target target_folder source_path)
  then stamped_target w target_folder source_path
  else plain_target target_folder source_path.


(** What [posixpath.join] puts before a component that is not absolute. *)
Definition join_prefix (path : pystr) : pystr :=
  if negb (truthy path) || endswith path PosixPath.sep then path
  else path ++ PosixPath.sep.

(** A host that refuses every move. *)
Definition w_locked : world :=
  {| fs := {[ ustr "/dl/a.txt" := File [1;2;3]%N 1709632800 ]};
     clock := 1709632800; fromtimestamp := utc_fromtimestamp;
     mkdir_fault := None; move_fault := Some (ustr "Permission denied");
     moves := [] |}.



(* ===================================================================== *)
(** * file_watcher.FileCreationHandler: the event handlers *)
(* ===================================================================== *)

Module FileCreationHandler.

(** [on_created]: directory events are dropped, the rest goes to
    [_process_file] with the source path. *)
Definition on_created (timeline : nat -> world) (cb : pystr -> outcome unit)
    (event : fs_event) (s : probing) : outcome unit * probing :=
  if is_directory event then (Ret tt, s)
  else _process_file timeline cb (src_path event) s.

(** [on_moved]: the same with the destination path. *)
Definition on_moved (timeline : nat -> world) (cb : pystr -> outcome unit)
    (event : fs_event) (s : probing) : outcome unit * probing :=
  if is_directory event then (Ret tt, s)
  else _process_file timeline cb (dest_path event) s.

End FileCreationHandler.

(* ===================================================================== *)
(** * DownloadsMonitor: start, stop, and a run of timer callbacks *)
(* ===================================================================== *)

(** The suffixes [_should_process] takes for a download in progress. *)
Definition incomplete_markers : list pystr :=
  [ustr ".tmp"; ustr ".crdownload"; ustr ".partial"; ustr ".download"].

(** The name of [k] inside [folder], when [k] lies directly in it. *)
Definition child_of (folder k : pystr) : option pystr :=
  let pre := join_prefix folder in
  if startswith k pre then
    let name := drop (length pre) k in
    if truthy name && negb (existsb (fun c => (c =? Chr.slash)%N) name)
    then Some name
    else None
  else None.

(** [os.listdir(folder)]; the order of the names is the host's. *)
Definition listdir (w : world) (folder : pystr) : outcome (list pystr) :=
  match fs w !! folder with
  | Some (Dir _) => Ret (omap (child_of folder) (fst <$> map_to_list (fs w)))
  | Some (File _ _) => Raise (Exn "NotADirectoryError" folder)
  | None => Raise (Exn "FileNotFoundError" folder)
  end.

Module DownloadsMonitor.

(** The monitor object: the part [_on_file_created] works on ([core]),
    the watched folder, the observer (the folder it is scheduled on) and
    the running flag. *)
Record t : Type := Make {
  folder_path : pystr;
  observer : option pystr;
  running : bool;
  core : monitor
}.

(** [start]. [watchdog_available] is the module flag; [observe] is what
    scheduling and starting a watchdog observer on a folder does on this
    host (it may raise). The files that are in the folder now are put
    into [processed_files] first. *)
Definition start (watchdog_available : bool)
    (observe : world -> pystr -> outcome unit) (m : t) : outcome bool * t :=
  if negb watchdog_available then (Ret false, m)
  else if running m then (Ret true, m)
  else
    let seeded :=
      if OS.path_exists (host (core m)) (folder_path m) then
        match listdir (host (core m)) (folder_path m) with
        | Ret names =>
            Ret (fold_left
                   (fun c f => claim c (PosixPath.join (folder_path m) [f]))
                   names (core m))
        | Raise e => Raise e
        end
      else Ret (core m) in
    match seeded with
    | Raise e => (Raise e, m)
    | Ret c =>
        let m1 := {| folder_path := folder_path m;
                     observer := Some (folder_path m);
                     running := false; core := c |} in
        match observe (host c) (folder_path m) with
        | Raise e => (Raise e, m1)
        | Ret _ =>
            (Ret true, {| folder_path := folder_path m;
                          observer := Some (folder_path m);
                          running := true; core := c |})
        end
    end.

(** [stop] *)
Definition stop (m : t) : t :=
  {| folder_path := folder_path m; observer := None;
     running := false; core := core m |}.

End DownloadsMonitor.

(** The timer callbacks of one run, one after the other. *)
Definition feed (m : monitor) (paths : list pystr) : monitor :=
  fold_left _on_file_created paths m.

(** An observer that always starts. *)
Definition observe_ok (_ : world) (_ : pystr) : outcome unit := Ret tt.

(** A download folder with one old file and one file whose download is
    still running. *)
Definition w_downloads : world :=
  {| fs := {[ ustr "/dl" := Dir 1;
              ustr "/dl/old.pdf" := File [1]%N 2;
              ustr "/dl/new.zip.crdownload" := File [] 3 ]};
     clock := 1709632800; fromtimestamp := utc_fromtimestamp;
     mkdir_fault := None; move_fault := None; moves := [] |}.

Definition downloads_monitor : DownloadsMonitor.t :=
  {| DownloadsMonitor.folder_path := ustr "/dl";
     DownloadsMonitor.observer := None;
     DownloadsMonitor.running := false;
     DownloadsMonitor.core :=
       {| callback := Some keep_host; processed_files := ∅;
          host := w_downloads; forwarded := [] |} |}.

(* ===================================================================== *)
(** * file_watcher.FileWatcher *)
(* ===================================================================== *)

Module FileWatcher.

(** The watcher object. [watch_folder] is the [Path] the constructor or
    [set_watch_folder] made (as its string); [observer] is the folder the
    observer was scheduled on; [handler] says whether a handler object
    has been made. *)
Record t : Type := Make {
  watch_folder : pystr;
  observer : option pystr;
  handler : bool;
  _running : bool
}.

(** [__init__]; [path] is [str(Path(.))]. *)
Definition init (path : pystr -> pystr) (watch_folder : pystr) : t :=
  {| watch_folder := path watch_folder; observer := None;
     handler := false; _running := false |}.

(** [start]; [observe] as for the monitor. *)
Definition start (observe : world -> pystr -> outcome unit)
    (w : world) (x : t) : world * outcome unit * t :=
  if _running x then (w, Ret tt, x)
  else
    let '(w1, made) :=
      if negb (OS.path_exists w (watch_folder x))
      then OS.makedirs w (watch_folder x)
      else (w, Ret tt) in
    match made with
    | Raise e => (w1, Raise e, x)
    | Ret _ =>
        let x1 := {| watch_folder := watch_folder x;
                     observer := Some (watch_folder x);
                     handler := true; _running := false |} in
        match observe w1 (watch_folder x) with
        | Raise e => (w1, Raise e, x1)
        | Ret _ =>
            (w1, Ret tt,
             {| watch_folder := watch_folder x;
                observer := Some (watch_folder x);
                handler := true; _running := true |})
        end
    end.

(** [stop] *)
Definition stop (x : t) : t :=
  if negb (_running x) then x
  else {| watch_folder := watch_folder x; observer := None;
          handler := handler x; _running := false |}.

(** [is_running] *)
Definition is_running (x : t) : bool := _running x.

(** [set_watch_folder] *)
Definition set_watch_folder (path : pystr -> pystr)
    (observe : world -> pystr -> outcome unit)
    (w : world) (x : t) (folder : pystr) : world * outcome unit * t :=
  let was_running := _running x in
  let x := if was_running then stop x else x in
  let x := {| watch_folder := path folder; observer := observer x;
              handler := handler x; _running := _running x |} in
  if was_running then start observe w x else (w, Ret tt, x).

(** While running, the observer watches the current folder. *)
Definition consistent (x : t) : Prop :=
  _running x = true → observer x = Some (watch_folder x).

End FileWatcher.

(** The report while its download has not written a byte yet. *)
Definition w_empty_settling : world :=
  {| fs := {[ ustr "/dl/report.pdf" := File [] 1709632700 ]};
     clock := 1709632700; fromtimestamp := utc_fromtimestamp;
     mkdir_fault := None; move_fault := None; moves := [] |}.

(* ===================================================================== *)
(** * RedmineFileOrganizer: the Zone.Identifier of a download *)
(* ===================================================================== *)

Module Zone.

Definition equals : N := 61%N.  (* = *)
Definition cr : N := 13%N.      (* carriage return *)

(** [s.split(c)] for a one-character separator. *)
Fixpoint split_on (c : N) (s : pystr) : list pystr :=
  match s with
  | [] => [[]]
  | x :: s' =>
      if (x =? c)%N then [] :: split_on c s'
      else
        match split_on c s' with
        | h :: t => (x :: h) :: t
        | [] => [[x]]
        end
  end.

(** [c in s] for a one-character [c]. *)
Definition has_char (c : N) (s : pystr) : bool :=
  existsb (fun x => (x =? c)%N) s.

(** [s.split(c, 1)] for an [s] that holds [c]: what is before the first
    [c] and what is after it. *)
Fixpoint split_once (c : N) (s : pystr) : pystr * pystr :=
  match s with
  | [] => ([], [])
  | x :: s' =>
      if (x =? c)%N then ([], s')
      else let '(a, b) := split_once c s' in (x :: a, b)
  end.

(** The body of the [for] loop of [parse_zone_identifier]. *)
Definition step (info : gmap pystr pystr) (line : pystr) : gmap pystr pystr :=
  if has_char equals line then
    let '(key, value) := split_once equals line in
    <[strip key := strip value]> info
  else info.

(** [RedmineFileOrganizer.parse_zone_identifier] *)
Definition parse_zone_identifier (zone_info : option pystr)
  : option (gmap pystr pystr) :=
  match zone_info with
  | None => None
  | Some z =>
      if negb (truthy z) then None
      else Some (fold_left step (split_on Chr.newline (strip z)) ∅)
  end.

(** [needle in hay] *)
Fixpoint contains (needle hay : pystr) : bool :=
  startswith hay needle
  || match hay with
     | [] => false
     | _ :: hay' => contains needle hay'
     end.

Fixpoint take_while (f : N -> bool) (s : pystr) : pystr :=
  match s with
  | c :: s' => if f c then c :: take_while f s' else []
  | [] => []
  end.

(** The match of [lit(\d+)] at the start of [s]: group 1. [digit] is the
    interpreter's table of decimal digits, which [\d] follows. *)
Definition number_here (digit : N -> bool) (lit s : pystr) : option pystr :=
  if startswith s lit then
    let ds := take_while digit (drop (length lit) s) in
    if truthy ds then Some ds else None
  else None.

(** [re.search(lit + r'(\d+)', s)]: group 1 of the leftmost match. *)
Fixpoint search_number (digit : N -> bool) (lit s : pystr) : option pystr :=
  match number_here digit lit s with
  | Some d => Some d
  | None =>
      match s with
      | [] => None
      | _ :: s' => search_number digit lit s'
      end
  end.

(** The dictionary [is_redmine_file] returns with [True]. *)
Record info : Type := Info {
  referrer : pystr;
  host_url : pystr;
  attachment_id : option pystr;
  issue_number : option pystr;
  zone_id : pystr
}.

(** [d.get(key, '')] *)
Definition get (d : gmap pystr pystr) (key : pystr) : pystr :=
  default [] (d !! key).

(** [RedmineFileOrganizer.is_redmine_file], from what [get_zone_identifier]
    returned for the file; [redmine_host] is the class attribute
    REDMINE_HOST. *)
Definition is_redmine_file (redmine_host : pystr) (digit : N -> bool)
    (zone_info : option pystr) : bool * option info :=
  match zone_info with
  | None => (false, None)
  | Some z =>
      if negb (truthy z) then (false, None)
      else
        match parse_zone_identifier zone_info with
        | None => (false, None)
        | Some parsed =>
            if bool_decide (parsed = ∅) then (false, None)
            else
              let referrer := get parsed (ustr "ReferrerUrl") in
              let host_url := get parsed (ustr "HostUrl") in
              if contains redmine_host referrer || contains redmine_host host_url
              then
                (true,
                 Some {| referrer := referrer;
                         host_url := host_url;
                         attachment_id :=
                           search_number digit (ustr "/attachments/") referrer;
                         issue_number :=
                           search_number digit (ustr "/issues/") referrer;
                         zone_id := get parsed (ustr "ZoneId") |})
              else (false, None)
        end
  end.

(** The text of a Zone.Identifier stream with the given key=value lines,
    as Windows writes it: a header, lines ended by CR LF. *)
Definition zone_text (kvs : list (pystr * pystr)) : pystr :=
  ustr "[ZoneTransfer]"
  ++ concat (map (fun kv => [cr; Chr.newline] ++ fst kv ++ [equals] ++ snd kv) kvs)
  ++ [cr; Chr.newline].

(** What a key or a value of such a line may hold. *)
Definition clean (s : pystr) : Prop :=
  (Chr.newline ∉ s) ∧ strip s = s.

(** The lines [split] finds in the stripped text. *)
Fixpoint lines_after (first : pystr) (kvs : list (pystr * pystr)) : list pystr :=
  match kvs with
  | [] => [first]
  | kv :: rest => (first ++ [cr]) :: lines_after (fst kv ++ [equals] ++ snd kv) rest
  end.

(** The ASCII digits. *)
Definition ascii_digit (c : N) : bool := ((48 <=? c) && (c <=? 57))%N.

End Zone.

(** A key=value line of a Zone.Identifier stream that reads back as
    written: no line feed in it, no whitespace around the key or the
    value, no [=] in the key. *)
Definition zone_entry (kv : pystr * pystr) : Prop :=
  Zone.clean kv.1 ∧ Zone.clean kv.2 ∧ (Zone.equals ∉ kv.1).

(** [RedmineFileOrganizer.REDMINE_HOST] *)
Definition REDMINE_HOST : pystr := ustr "read-sln.cloud.redmine.jp".

(** A sample stream: the zone, the page and the address of a download. *)
Definition sample_zone : list (pystr * pystr) :=
  [ (ustr "ZoneId", ustr "3");
    (ustr "ReferrerUrl", ustr "https://read-sln.cloud.redmine.jp/issues/12?a=b");
    (ustr "HostUrl",
     ustr "https://read-sln.cloud.redmine.jp/attachments/download/77/a.zip") ].


(** What [is_redmine_file] reports for the sample stream. *)
Definition sample_info : Zone.info :=
  {| Zone.referrer := ustr "https://read-sln.cloud.redmine.jp/issues/12?a=b";
     Zone.host_url :=
       ustr "https://read-sln.cloud.redmine.jp/attachments/download/77/a.zip";
     Zone.attachment_id := None;
     Zone.issue_number := Some (ustr "12");
     Zone.zone_id := ustr "3" |}.


(* ===================================================================== *)
(** * RedmineFileOrganizer: scanning the folder and organizing files *)
(* ===================================================================== *)

Module Organizer.

(** An entry of the list [scan_downloads_folder] returns: the dictionary
    with the keys path, filename and info. *)
Record detected : Type := Detected {
  path : pystr;
  filename : pystr;
  info : option Zone.info
}.

(** Truthiness of a value that is a [str] or None. *)
Definition truthy_opt (s : option pystr) : bool :=
  match s with Some s => truthy s | None => false end.

(** [list.sort(key=..., reverse=True)] on entries paired with their keys:
    larger keys first, entries with equal keys in the order they had. *)
Fixpoint insert_desc {A : Type} (x : Z * A) (l : list (Z * A)) : list (Z * A) :=
  match l with
  | [] => [x]
  | y :: l' => if x.1 <? y.1 then y :: insert_desc x l' else x :: l
  end.

Definition sort_desc {A : Type} (l : list (Z * A)) : list (Z * A) :=
  foldr insert_desc [] l.

(** The counters of [do_organize_all]. *)
Record tally : Type := Tally {
  success_count : Z;
  error_count : Z;
  skip_count : Z;
  last_folder : option pystr
}.

Definition count_success (t : tally) (folder : pystr) : tally :=
  {| success_count := success_count t + 1; error_count := error_count t;
     skip_count := skip_count t; last_folder := Some folder |}.

Definition count_error (t : tally) : tally :=
  {| success_count := success_count t; error_count := error_count t + 1;
     skip_count := skip_count t; last_folder := last_folder t |}.

Definition count_skip (t : tally) : tally :=
  {| success_count := success_count t; error_count := error_count t;
     skip_count := skip_count t + 1; last_folder := last_folder t |}.

(** The line [auto_process_file] or its [do_process] writes to the log
    last. *)
Inductive auto_log : Type :=
| FileMissing
| IssueMissing
| TitleMissing (error : option pystr)
| TitleUnreadable (title : pystr)
| PathMissing
| Moved (result target_folder : pystr)
| MoveFailed (result : pystr).

Section App.

(** What the methods read and cannot see into: the class attributes, the
    interpreter's table of decimal digits, the Zone.Identifier stream
    PowerShell prints for a path ([get_zone_identifier]; None when it
    fails), the answer of the server to the n-th [get_issue_title] of a
    run (title and error), the flag [auto_processing] as the n-th round
    of the loop reads it, and what the host does between two rounds. *)
Variable self : organizer.
Variable DOWNLOADS_FOLDER : pystr.
Variable digit : N -> bool.
Variable get_zone_identifier : pystr -> option pystr.
Variable get_issue_title : nat -> option pystr -> option pystr * option pystr.
Variable auto_processing : nat -> bool.
Variable meanwhile : nat -> world -> world.

(** The body of the loop of [scan_downloads_folder]. *)
Definition scan_entry (w : world) (name : pystr) : option detected :=
  let file_path := PosixPath.join DOWNLOADS_FOLDER [name] in
  if negb (OS.isfile w file_path) then None
  else
    let '(is_redmine, i) :=
      Zone.is_redmine_file REDMINE_HOST digit (get_zone_identifier file_path) in
    if is_redmine
    then Some {| path := file_path; filename := name; info := i |}
    else None.

(** The keys of the sort: [os.path.getmtime(x['path'])] for every entry. *)
Fixpoint keyed (w : world) (l : list detected) : outcome (list (Z * detected)) :=
  match l with
  | [] => Ret []
  | d :: l' =>
      match OS.getmtime w (path d) with
      | Raise e => Raise e
      | Ret t =>
          match keyed w l' with
          | Raise e => Raise e
          | Ret r => Ret ((t, d) :: r)
          end
      end
  end.

(** [scan_downloads_folder] *)
Definition scan_downloads_folder (w : world) : outcome (list detected) :=
  if negb (OS.path_exists w DOWNLOADS_FOLDER) then Ret []
  else
    match listdir w DOWNLOADS_FOLDER with
    | Raise e => Raise e
    | Ret names =>
        match keyed w (omap (scan_entry w) names) with
        | Raise e => Raise e
        | Ret kl => Ret (snd <$> sort_desc kl)
        end
    end.

(** [f['info'].get('issue_number')] *)
Definition issue_of (d : detected) : outcome (option pystr) :=
  match info d with
  | Some i => Ret (Zone.issue_number i)
  | None => Raise (Exn "AttributeError" [])
  end.

(** [valid_files] of [auto_organize_all]. *)
Fixpoint valid_files (l : list detected) : outcome (list detected) :=
  match l with
  | [] => Ret []
  | d :: l' =>
      match issue_of d with
      | Raise e => Raise e
      | Ret n =>
          match valid_files l' with
          | Raise e => Raise e
          | Ret r => Ret (if truthy_opt n then d :: r else r)
          end
      end
  end.

(** One round of the loop of [do_organize_all], after the test of the
    flag. *)
Definition organize_one (n : nat) (w : world) (d : detected) (t : tally)
  : world * outcome tally :=
  match issue_of d with
  | Raise e => (w, Raise e)
  | Ret issue_number =>
      let '(title, error) := get_issue_title n issue_number in
      if negb (truthy_opt title) then (w, Ret (count_error t))
      else
        let parsed := parse_ticket_title (default [] title) in
        match parsed with
        | None => (w, Ret (count_skip t))
        | Some _ =>
            match build_target_path self w parsed (Some (path d)) with
            | Raise e => (w, Raise e)
            | Ret target_folder =>
                if negb (truthy_opt target_folder) then (w, Ret (count_error t))
                else
                  match move_file w (path d) (default [] target_folder) with
                  | (w', Raise e) => (w', Raise e)
                  | (w', Ret (true, _)) =>
                      (w', Ret (count_success t (default [] target_folder)))
                  | (w', Ret (false, _)) => (w', Ret (count_error t))
                  end
            end
        end
  end.

(** The loop of [do_organize_all] from round [n] on. *)
Fixpoint organize_from (n : nat) (files : list detected) (w : world) (t : tally)
  : world * outcome tally :=
  match files with
  | [] => (w, Ret t)
  | d :: rest =>
      if negb (auto_processing n) then (w, Ret t)
      else
        match organize_one n w d t with
        | (w', Raise e) => (w', Raise e)
        | (w', Ret t') => organize_from (S n) rest (meanwhile n w') t'
        end
  end.

(** [do_organize_all]: what it hands to [on_auto_organize_all_complete]. *)
Definition do_organize_all (files : list detected) (w : world)
  : world * outcome tally :=
  organize_from 0 files w (Tally 0 0 0 None).

(** [do_process] of [auto_process_file]. *)
Definition do_process (w : world) (file_path : pystr) (issue_number : option pystr)
  : world * outcome auto_log :=
  let '(title, error) := get_issue_title 0 issue_number in
  if negb (truthy_opt title) then (w, Ret (TitleMissing error))
  else
    let parsed := parse_ticket_title (default [] title) in
    match parsed with
    | None => (w, Ret (TitleUnreadable (default [] title)))
    | Some _ =>
        match build_target_path self w parsed (Some file_path) with
        | Raise e => (w, Raise e)
        | Ret target_folder =>
            if negb (truthy_opt target_folder) then (w, Ret PathMissing)
            else
              match move_file w file_path (default [] target_folder) with
              | (w', Raise e) => (w', Raise e)
              | (w', Ret (true, result)) =>
                  (w', Ret (Moved result (default [] target_folder)))
              | (w', Ret (false, result)) => (w', Ret (MoveFailed result))
              end
        end
    end.

(** [auto_process_file]: the two tests, then [do_process] in a thread of
    its own, which finds the host as it is by then. *)
Definition auto_process_file (w : world) (file_path : pystr) (i : Zone.info)
  : world * outcome auto_log :=
  if negb (OS.path_exists w file_path) then (w, Ret FileMissing)
  else
    let issue_number := Zone.issue_number i in
    if negb (truthy_opt issue_number) then (w, Ret IssueMissing)
    else do_process (meanwhile 0 w) file_path issue_number.

End App.

End Organizer.


(** A download folder with two files from the server, a file from
    elsewhere and a folder. *)
Definition w_inbox : world :=
  {| fs := {[ ustr "/dl" := Dir 1;
              ustr "/dl/a.zip" := File [1; 2]%N 5;
              ustr "/dl/b.pdf" := File [3]%N 9;
              ustr "/dl/c.txt" := File [4]%N 7;
              ustr "/dl/sub" := Dir 8 ]};
     clock := 1709632800; fromtimestamp := utc_fromtimestamp;
     mkdir_fault := None; move_fault := None; moves := [] |}.

(** The streams of its files: the two downloads carry the sample stream. *)
Definition inbox_streams (p : pystr) : option pystr :=
  if bool_decide (p = ustr "/dl/a.zip") || bool_decide (p = ustr "/dl/b.pdf")
  then Some (Zone.zone_text sample_zone)
  else None.


(** The files a tally has counted. *)
Definition counted (t : Organizer.tally) : Z :=
  Organizer.success_count t + Organizer.error_count t + Organizer.skip_count t.

(** What holds of the counters all through the loop: none is negative,
    and a folder is remembered exactly when a move has succeeded; the
    folder is never the empty string. *)
Definition tally_ok (t : Organizer.tally) : Prop :=
  0 ≤ Organizer.success_count t ∧ 0 ≤ Organizer.error_count t
  ∧ 0 ≤ Organizer.skip_count t
  ∧ (Organizer.success_count t = 0 ↔ Organizer.last_folder t = None)
  ∧ ∀ f : pystr, Organizer.last_folder t = Some f → f ≠ [].

(** A server that answers every request with the sample title. *)
Definition acme_server (_ : nat) (_ : option pystr) : option pystr * option pystr :=
  (Some acme_title, None).

(** The two downloads of the sample folder as [scan_downloads_folder]
    lists them. *)
Definition inbox_found : list Organizer.detected :=
  [ Organizer.Detected (ustr "/dl/b.pdf") (ustr "b.pdf") (Some sample_info);
    Organizer.Detected (ustr "/dl/a.zip") (ustr "a.zip") (Some sample_info) ].

(** The sample folder on a host that refuses to make directories. *)
Definition w_inbox_readonly : world :=
  {| fs := fs w_inbox; clock := clock w_inbox;
     fromtimestamp := fromtimestamp w_inbox;
     mkdir_fault := Some (ustr "Read-only file system");
     move_fault := None; moves := [] |}.


(* ===================================================================== *)
(** * What "base / label / ... / date" says *)
(* ===================================================================== *)








(* ===================================================================== *)
(** * Strings *)
(* ===================================================================== *)

Lemma lstrip_head c s r : lstrip s = c :: r → isspace c = false.
Proof.
  induction s as [|x s IH]; simpl; [discriminate|].
  destruct (isspace x) eqn:E; [exact IH|].
  intros [= <- _]. exact E.
Qed.

Lemma lstrip_id c s : isspace c = false → lstrip (c :: s) = c :: s.
Proof. intros H. simpl. now rewrite H. Qed.

Lemma strip_last s l c : strip s = l ++ [c] → isspace c = false.
Proof.
  unfold strip, rstrip. intros H.
  apply (f_equal (@rev N)) in H.
  rewrite rev_involutive, rev_app_distr in H. simpl in H.
  eapply lstrip_head, H.
Qed.

Lemma strip_id c l d :
  isspace c = false → isspace d = false → strip (c :: l ++ [d]) = c :: l ++ [d].
Proof.
  intros Hc Hd. unfold strip, rstrip. rewrite (lstrip_id _ _ Hc).
  change (c :: l ++ [d]) with ((c :: l) ++ [d]).
  assert (E : rev ((c :: l) ++ [d]) = d :: rev (c :: l))
    by (rewrite rev_app_distr; reflexivity).
  rewrite E, (lstrip_id _ _ Hd).
  change (rev (d :: rev (c :: l))) with (rev (rev (c :: l)) ++ [d]).
  now rewrite rev_involutive.
Qed.

Lemma split_at_first (c : N) A A' t t' :
  c ∉ A → c ∉ A' → A ++ c :: t = A' ++ c :: t' → A = A' ∧ t = t'.
Proof.
  revert A'. induction A as [|a A IH]; intros [|a' A'] HA HA' E; simpl in E.
  - now inversion E.
  - inversion E; subst. exfalso. apply HA'. left.
  - inversion E; subst. exfalso. apply HA. left.
  - inversion E; subst.
    destruct (IH A') as [-> ->]; auto.
    + intros ?. apply HA. now right.
    + intros ?. apply HA'. now right.
Qed.

(* ===================================================================== *)
(** * The matcher *)
(* ===================================================================== *)

Lemma mem_not c x : Re.mem (Re.NotChar c) x = true ↔ x ≠ c.
Proof.
  simpl. rewrite negb_true_iff, N.eqb_neq. reflexivity.
Qed.

Lemma mem_dot x : Re.mem Re.Dot x = true ↔ x ≠ Chr.newline.
Proof.
  simpl. rewrite negb_true_iff, N.eqb_neq. reflexivity.
Qed.

(** Whatever [more] answers, the continuation answered it on a split of the
    input whose first part the character set accepts. *)
Lemma more_sound {A} cs (k : pystr → pystr → option A) s taken r :
  Re.more cs k taken s = Some r →
  ∃ g t, s = g ++ t ∧ Forall (λ x, Re.mem cs x = true) g
         ∧ k (rev taken ++ g) t = Some r.
Proof.
  revert taken. induction s as [|x s IH]; intros taken H; simpl in H.
  - exists [], []. rewrite !app_nil_r. split; [reflexivity|]. split; [constructor|exact H].
  - destruct (Re.mem cs x) eqn:Hx.
    + destruct (Re.more cs k (x :: taken) s) as [r'|] eqn:Hm.
      * inversion H; subst r'.
        destruct (IH _ Hm) as (g & t & -> & Hg & Hk).
        exists (x :: g), t. split; [reflexivity|]. split; [constructor; auto|].
        simpl in Hk. rewrite <- app_assoc in Hk. exact Hk.
      * exists [], (x :: s). rewrite !app_nil_r.
        split; [reflexivity|]. split; [constructor|exact H].
    + exists [], (x :: s). rewrite !app_nil_r.
      split; [reflexivity|]. split; [constructor|exact H].
Qed.

(** When the continuation refuses every shorter repetition, the greedy
    repetition takes the whole run. *)
Lemma more_greedy {A} cs (k : pystr → pystr → option A) g t taken :
  Forall (λ x, Re.mem cs x = true) g →
  (∀ g1 g2, g = g1 ++ g2 → g2 ≠ [] → k (rev taken ++ g1) (g2 ++ t) = None) →
  (t = [] ∨ ∃ x t', t = x :: t' ∧ Re.mem cs x = false) →
  Re.more cs k taken (g ++ t) = k (rev taken ++ g) t.
Proof.
  intros Hg. revert taken. induction Hg as [|x g Hx Hg IH]; intros taken Hk Ht.
  - rewrite app_nil_r. simpl.
    destruct Ht as [->|(x & t' & -> & Hx)]; simpl; [reflexivity|].
    now rewrite Hx.
  - simpl. rewrite Hx.
    rewrite IH.
    + simpl. rewrite <- app_assoc. simpl.
      destruct (k (rev taken ++ x :: g) t) eqn:E; [reflexivity|].
      specialize (Hk [] (x :: g) eq_refl ltac:(discriminate)).
      rewrite app_nil_r in Hk. exact Hk.
    + intros g1 g2 -> Hg2. simpl. rewrite <- app_assoc. simpl.
      apply (Hk (x :: g1) g2); auto.
    + exact Ht.
Qed.

Lemma run_lit_sound c r bos s gs :
  Re.run (Re.Lit c :: r) bos s = Some gs →
  ∃ t, s = c :: t ∧ Re.run r false t = Some gs.
Proof.
  simpl. destruct s as [|x s]; [discriminate|].
  destruct (N.eqb_spec x c); [|discriminate].
  subst. eauto.
Qed.

Lemma run_group_sound cs r bos s gs :
  Re.run (Re.Group cs :: r) bos s = Some gs →
  ∃ g t gs', g ≠ [] ∧ s = g ++ t ∧ Forall (λ x, Re.mem cs x = true) g
             ∧ Re.run r false t = Some gs' ∧ gs = g :: gs'.
Proof.
  simpl. destruct s as [|x s]; [discriminate|].
  destruct (Re.mem cs x) eqn:Hx; [|discriminate].
  intros H. apply more_sound in H as (g & t & -> & Hg & Hk).
  simpl in Hk.
  destruct (Re.run r false t) as [gs'|] eqn:Hr; [|discriminate].
  inversion Hk; subst.
  exists (x :: g), t, gs'. repeat split; auto; discriminate.
Qed.

Lemma run_eol_sound bos s gs :
  Re.run [Re.Eol] bos s = Some gs → Re.at_eol s = true ∧ gs = [].
Proof.
  simpl. destruct (Re.at_eol s); [|discriminate].
  now intros [= <-].
Qed.

(** A bracketed group followed by its closing bracket. *)
Lemma run_bracketed c g t r bos :
  g ≠ [] → c ∉ g →
  Re.run (Re.Group (Re.NotChar c) :: Re.Lit c :: r) bos (g ++ c :: t)
  = cons g <$> Re.run r false t.
Proof.
  intros Hne Hc. destruct g as [|x g]; [congruence|].
  cbn [Re.run app].
  assert (Hx : Re.mem (Re.NotChar c) x = true).
  { apply mem_not. intros ->. apply Hc. left. }
  rewrite Hx.
  rewrite more_greedy.
  - simpl. now rewrite N.eqb_refl.
  - apply Forall_forall. intros y Hy. apply mem_not. intros ->.
    apply Hc. now right.
  - intros g1 g2 -> Hg2. destruct g2 as [|y g2]; [congruence|].
    simpl. destruct (N.eqb_spec y c) as [->|]; [|reflexivity].
    exfalso. apply Hc. right. apply elem_of_app. right. left.
  - right. exists c, t. split; [reflexivity|]. simpl. now rewrite N.eqb_refl.
Qed.

(** The remainder up to the end of the string. *)
Lemma run_remainder g bos :
  remainder g → Re.run [Re.Group Re.Dot; Re.Eol] bos g = Some [g].
Proof.
  intros [Hne Hnl]. destruct g as [|x g]; [congruence|].
  cbn [Re.run].
  assert (Hx : Re.mem Re.Dot x = true).
  { apply mem_dot. intros ->. apply Hnl. left. }
  rewrite Hx.
  rewrite <- (app_nil_r g) at 1.
  rewrite more_greedy.
  - reflexivity.
  - apply Forall_forall. intros y Hy. apply mem_dot. intros ->.
    apply Hnl. now right.
  - intros g1 g2 -> Hg2. rewrite app_nil_r.
    destruct g2 as [|y [|z g2]]; [congruence| |reflexivity].
    simpl. destruct (N.eqb_spec y Chr.newline) as [->|]; [|reflexivity].
    exfalso. apply Hnl. right. apply elem_of_app. right. left.
  - now left.
Qed.

Lemma run_bol r s : Re.run (Re.Bol :: r) true s = Re.run r true s.
Proof. reflexivity. Qed.

Lemma run_lit c r bos t : Re.run (Re.Lit c :: r) bos (c :: t) = Re.run r false t.
Proof. simpl. now rewrite N.eqb_refl. Qed.

Lemma at_eol_cases e : Re.at_eol e = true → e = [] ∨ e = [Chr.newline].
Proof.
  destruct e as [|c [|d e]]; simpl; intros H; auto; [|discriminate].
  apply N.eqb_eq in H. subst. now right.
Qed.

Lemma Forall_not_elem (c : N) (g : pystr) :
  Forall (λ x, Re.mem (Re.NotChar c) x = true) g → c ∉ g.
Proof.
  intros H Hin. rewrite Forall_forall in H.
  apply H, mem_not in Hin. congruence.
Qed.

Lemma Forall_no_newline (g : pystr) :
  Forall (λ x, Re.mem Re.Dot x = true) g → Chr.newline ∉ g.
Proof.
  intros H Hin. rewrite Forall_forall in H.
  apply H, mem_dot in Hin. congruence.
Qed.

(** ** pattern3 and pattern2 against the grammar *)

Lemma match3_complete s A B R :
  title3 s A B R → Re.re_match pattern3 s = Some [A; B; R].
Proof.
  intros (-> & [HA1 HA2] & [HB1 HB2] & HR).
  unfold Re.re_match, pattern3. cbn [app].
  rewrite run_bol, run_lit, run_bracketed by assumption.
  rewrite run_lit, run_bracketed by assumption.
  now rewrite run_remainder.
Qed.

Lemma match2_complete s A R :
  title2 s A R → Re.re_match pattern2 s = Some [A; R].
Proof.
  intros (-> & [HA1 HA2] & HR).
  unfold Re.re_match, pattern2. cbn [app].
  rewrite run_bol, run_lit, run_bracketed by assumption.
  now rewrite run_remainder.
Qed.

Lemma match3_sound s gs :
  Re.re_match pattern3 s = Some gs →
  ∃ A B R e, gs = [A; B; R] ∧ title3 (take (length s - length e) s) A B R
             ∧ s = take (length s - length e) s ++ e ∧ Re.at_eol e = true.
Proof.
  unfold Re.re_match, pattern3. rewrite run_bol. intros H.
  apply run_lit_sound in H as (s1 & -> & H).
  apply run_group_sound in H as (A & s2 & gs1 & HA & -> & HAall & H & ->).
  apply run_lit_sound in H as (s3 & -> & H).
  apply run_lit_sound in H as (s4 & -> & H).
  apply run_group_sound in H as (B & s5 & gs2 & HB & -> & HBall & H & ->).
  apply run_lit_sound in H as (s6 & -> & H).
  apply run_group_sound in H as (R & e & gs3 & HR & -> & HRall & H & ->).
  apply run_eol_sound in H as [He ->].
  exists A, B, R, e.
  assert (E : Chr.lbracket :: A ++ Chr.rbracket :: Chr.lbracket :: B ++ Chr.rbracket :: R ++ e
              = ([Chr.lbracket] ++ A ++ [Chr.rbracket] ++ [Chr.lbracket] ++ B
                 ++ [Chr.rbracket] ++ R) ++ e).
  { cbn [app]. f_equal. rewrite <- !app_assoc. cbn [app]. do 3 f_equal.
    now rewrite <- !app_assoc. }
  rewrite E. rewrite length_app, Nat.add_sub, take_app_length.
  split; [reflexivity|]. split; [|split; [reflexivity|exact He]].
  split; [reflexivity|].
  repeat split; auto using Forall_not_elem, Forall_no_newline.
Qed.

Lemma match2_sound s gs :
  Re.re_match pattern2 s = Some gs →
  ∃ A R e, gs = [A; R] ∧ title2 (take (length s - length e) s) A R
           ∧ s = take (length s - length e) s ++ e ∧ Re.at_eol e = true.
Proof.
  unfold Re.re_match, pattern2. rewrite run_bol. intros H.
  apply run_lit_sound in H as (s1 & -> & H).
  apply run_group_sound in H as (A & s2 & gs1 & HA & -> & HAall & H & ->).
  apply run_lit_sound in H as (s3 & -> & H).
  apply run_group_sound in H as (R & e & gs3 & HR & -> & HRall & H & ->).
  apply run_eol_sound in H as [He ->].
  exists A, R, e.
  assert (E : Chr.lbracket :: A ++ Chr.rbracket :: R ++ e
              = ([Chr.lbracket] ++ A ++ [Chr.rbracket] ++ R) ++ e).
  { cbn [app]. f_equal. rewrite <- !app_assoc. reflexivity. }
  rewrite E. rewrite length_app, Nat.add_sub, take_app_length.
  split; [reflexivity|]. split; [|split; [reflexivity|exact He]].
  split; [reflexivity|].
  repeat split; auto using Forall_not_elem, Forall_no_newline.
Qed.

(** A stripped title has no line feed left at its end, so [$] can only
    hold at the very end. *)
Lemma stripped_eol t p e :
  strip t = p ++ e → Re.at_eol e = true → e = [].
Proof.
  intros E He. apply at_eol_cases in He as [->| ->]; [reflexivity|].
  apply strip_last in E. discriminate.
Qed.

Lemma match3_stripped t gs :
  Re.re_match pattern3 (strip t) = Some gs →
  ∃ A B R, gs = [A; B; R] ∧ title3 (strip t) A B R.
Proof.
  intros H. apply match3_sound in H as (A & B & R & e & -> & H3 & E & He).
  pose proof (stripped_eol _ _ _ E He) as ->.
  rewrite app_nil_r in E. rewrite <- E in H3. eauto.
Qed.

Lemma match2_stripped t gs :
  Re.re_match pattern2 (strip t) = Some gs →
  ∃ A R, gs = [A; R] ∧ title2 (strip t) A R.
Proof.
  intros H. apply match2_sound in H as (A & R & e & -> & H2 & E & He).
  pose proof (stripped_eol _ _ _ E He) as ->.
  rewrite app_nil_r in E. rewrite <- E in H2. eauto.
Qed.

Lemma match3_none t :
  (∀ A B R, ¬ title3 (strip t) A B R) → Re.re_match pattern3 (strip t) = None.
Proof.
  intros H. destruct (Re.re_match pattern3 (strip t)) as [gs|] eqn:E; [|reflexivity].
  apply match3_stripped in E as (A & B & R & _ & H3). now apply H in H3.
Qed.

Lemma match2_none t :
  (∀ A R, ¬ title2 (strip t) A R) → Re.re_match pattern2 (strip t) = None.
Proof.
  intros H. destruct (Re.re_match pattern2 (strip t)) as [gs|] eqn:E; [|reflexivity].
  apply match2_stripped in E as (A & R & _ & H2). now apply H in H2.
Qed.

(** ** parse_ticket_title, case by case *)

Lemma parse_three t A B R :
  title3 (strip t) A B R →
  parse_ticket_title t = Some (ParsedTitle A B (Some (strip R)) 3).
Proof.
  intros H. unfold parse_ticket_title. now rewrite (match3_complete _ _ _ _ H).
Qed.

Lemma parse_two t A R :
  (∀ A' B' R', ¬ title3 (strip t) A' B' R') →
  title2 (strip t) A R →
  parse_ticket_title t = Some (ParsedTitle A (strip R) None 2).
Proof.
  intros H3 H2. unfold parse_ticket_title.
  now rewrite (match3_none _ H3), (match2_complete _ _ _ H2).
Qed.

Lemma parse_none t :
  (∀ A B R, ¬ title3 (strip t) A B R) →
  (∀ A R, ¬ title2 (strip t) A R) →
  parse_ticket_title t = None.
Proof.
  intros H3 H2. unfold parse_ticket_title.
  now rewrite (match3_none _ H3), (match2_none _ H2).
Qed.

(** What [parse_ticket_title] returns is one of the two shapes. *)
Lemma parse_shape t pt :
  parse_ticket_title t = Some pt →
  (∃ f3, folder3 pt = Some f3 ∧ levels pt = 3) ∨ (folder3 pt = None ∧ levels pt = 2).
Proof.
  unfold parse_ticket_title.
  destruct (Re.re_match pattern3 (strip t)) as [gs|] eqn:E3.
  - apply match3_stripped in E3 as (A & B & R & -> & _).
    intros [= <-]. left. eauto.
  - destruct (Re.re_match pattern2 (strip t)) as [gs|] eqn:E2; [|discriminate].
    apply match2_stripped in E2 as (A & R & -> & _).
    intros [= <-]. now right.
Qed.

(* ===================================================================== *)
(** * Titles *)
(* ===================================================================== *)

(** C2, as the code has it. A title whose stripped text reads
    "[A][B]rest" (the three-level pattern: non-empty bracket contents
    without a closing bracket, a non-empty remainder without a line feed,
    which is what [.+] accepts) is parsed to three levels with segments A, B and the
    stripped rest, whether or not the two-level pattern would match as
    well; a title that only reads "[A]rest" is parsed to two levels with
    segments A and the stripped rest; a title that reads neither way is
    parsed to nothing. *)
Theorem parse_ticket_title_grammar (title : pystr) :
  (∀ A B R, title3 (strip title) A B R →
     parse_ticket_title title = Some (ParsedTitle A B (Some (strip R)) 3))
  ∧ (∀ A R, (∀ A' B' R', ¬ title3 (strip title) A' B' R') →
       title2 (strip title) A R →
       parse_ticket_title title = Some (ParsedTitle A (strip R) None 2))
  ∧ ((∀ A B R, ¬ title3 (strip title) A B R) →
     (∀ A R, ¬ title2 (strip title) A R) →
     parse_ticket_title title = None).
Proof.
  split; [|split].
  - intros A B R. apply parse_three.
  - intros A R. apply parse_two.
  - apply parse_none.
Qed.

Ltac concrete_bracketed :=
  split; [discriminate | apply (bool_decide_unpack _); vm_compute; exact I].

Ltac no_title3 :=
  let H := fresh in
  intros ? ? ? H; apply match3_complete in H; vm_compute in H; discriminate H.

Ltac no_title2 :=
  let H := fresh in
  intros ? ? H; apply match2_complete in H; vm_compute in H; discriminate H.

Lemma parse_ticket_title_grammar_witness :
  parse_ticket_title (ustr "  [Acme][P100] Door sensor broken ")
    = Some (ParsedTitle (ustr "Acme") (ustr "P100")
              (Some (strip (ustr " Door sensor broken"))) 3)
  ∧ parse_ticket_title (ustr "[Acme] Door sensor broken")
    = Some (ParsedTitle (ustr "Acme") (strip (ustr " Door sensor broken")) None 2)
  ∧ parse_ticket_title (ustr "no brackets here") = None.
Proof.
  split; [|split].
  - apply (proj1 (parse_ticket_title_grammar _)).
    split; [vm_compute; reflexivity|].
    split; [concrete_bracketed|]. split; concrete_bracketed.
  - apply (proj1 (proj2 (parse_ticket_title_grammar _))).
    + no_title3.
    + split; [vm_compute; reflexivity|]. split; concrete_bracketed.
  - apply (proj2 (proj2 (parse_ticket_title_grammar _))).
    + no_title3.
    + no_title2.
Defined.

(** C2 as stated fails: a title of the form "[A][B]rest" with non-empty
    bracket contents is not always parsed to three levels. With a line
    feed in the rest neither pattern matches and nothing is parsed; with
    a rest of blanks only the stripped title is "[A][B]" and the result
    has two levels, A and "[B]". *)
Lemma title_form_not_enough :
  parse_ticket_title (ustr "[A][B]x" ++ [Chr.newline] ++ ustr "y") = None
  ∧ parse_ticket_title (ustr "[A][B] ")
    = Some (ParsedTitle (ustr "A") (ustr "[B]") None 2)
  ∧ ¬ (∀ A B R : pystr, bracketed A → bracketed B → R ≠ [] →
         parse_ticket_title
           ([Chr.lbracket] ++ A ++ [Chr.rbracket] ++ [Chr.lbracket] ++ B
            ++ [Chr.rbracket] ++ R)
         = Some (ParsedTitle A B (Some (strip R)) 3)).
Proof.
  split; [vm_compute; reflexivity|]. split; [vm_compute; reflexivity|].
  intros H.
  specialize (H (ustr "A") (ustr "B") [120; 10; 121]%N
                ltac:(concrete_bracketed) ltac:(concrete_bracketed)
                ltac:(discriminate)).
  vm_compute in H. discriminate H.
Qed.

(** ** Titles made of brackets only *)

Lemma strip_bracketed l :
  strip (Chr.lbracket :: l ++ [Chr.rbracket]) = Chr.lbracket :: l ++ [Chr.rbracket].
Proof. apply strip_id; reflexivity. Qed.

Lemma two_brackets_form A B :
  [Chr.lbracket] ++ A ++ [Chr.rbracket] ++ [Chr.lbracket] ++ B ++ [Chr.rbracket]
  = Chr.lbracket :: (A ++ Chr.rbracket :: Chr.lbracket :: B) ++ [Chr.rbracket].
Proof. cbn [app]. now rewrite <- app_assoc. Qed.

Lemma two_brackets_not_three A B A' B' R' :
  Chr.rbracket ∉ A → Chr.rbracket ∉ B →
  ¬ title3 ([Chr.lbracket] ++ A ++ [Chr.rbracket] ++ [Chr.lbracket] ++ B
            ++ [Chr.rbracket]) A' B' R'.
Proof.
  intros HA HB (E & [_ HA'] & [_ HB'] & [HR _]).
  cbn [app] in E. injection E as E.
  apply split_at_first in E as [-> E]; auto.
  injection E as E.
  apply split_at_first in E as [-> E]; auto.
Qed.

Lemma one_bracket_not_three A A' B' R' :
  Chr.rbracket ∉ A →
  ¬ title3 ([Chr.lbracket] ++ A ++ [Chr.rbracket]) A' B' R'.
Proof.
  intros HA (E & [_ HA'] & _).
  cbn [app] in E. injection E as E.
  apply split_at_first in E as [-> E]; auto. discriminate E.
Qed.

Lemma one_bracket_not_two A A' R' :
  Chr.rbracket ∉ A →
  ¬ title2 ([Chr.lbracket] ++ A ++ [Chr.rbracket]) A' R'.
Proof.
  intros HA (E & [_ HA'] & [HR _]).
  cbn [app] in E. injection E as E.
  apply split_at_first in E as [-> E]; auto.
Qed.

(** C10, as the code has it. For bracket contents A and B (not empty, no
    closing bracket) where B holds no line feed, "[A][B]" is parsed to two
    levels with segments A and "[B]", brackets kept; and "[A]" is parsed
    to nothing. *)
Theorem brackets_only_titles (A B : pystr) :
  (bracketed A → bracketed B → Chr.newline ∉ B →
   parse_ticket_title
     ([Chr.lbracket] ++ A ++ [Chr.rbracket] ++ [Chr.lbracket] ++ B ++ [Chr.rbracket])
   = Some (ParsedTitle A ([Chr.lbracket] ++ B ++ [Chr.rbracket]) None 2))
  ∧ (Chr.rbracket ∉ A →
     parse_ticket_title ([Chr.lbracket] ++ A ++ [Chr.rbracket]) = None).
Proof.
  split.
  - intros [HA1 HA2] [HB1 HB2] Hnl.
    rewrite <- (strip_bracketed B) at 2.
    apply parse_two.
    + rewrite two_brackets_form, strip_bracketed, <- two_brackets_form.
      intros A' B' R'. now apply two_brackets_not_three.
    + rewrite two_brackets_form, strip_bracketed, <- two_brackets_form.
      split; [reflexivity|]. split; [now split|].
      split; [discriminate|].
      cbn [app]. rewrite elem_of_cons, elem_of_app, list_elem_of_singleton.
      intros [H|[H|H]]; [discriminate H|contradiction|discriminate H].
  - intros HA. apply parse_none.
    + cbn [app]. rewrite strip_bracketed.
      intros A' B' R'. now apply one_bracket_not_three.
    + cbn [app]. rewrite strip_bracketed.
      intros A' R'. now apply one_bracket_not_two.
Qed.

Lemma brackets_only_titles_witness :
  parse_ticket_title (ustr "[Acme][P100]")
    = Some (ParsedTitle (ustr "Acme") (ustr "[P100]") None 2)
  ∧ parse_ticket_title (ustr "[Acme]") = None.
Proof.
  split.
  - apply (proj1 (brackets_only_titles (ustr "Acme") (ustr "P100")));
      [concrete_bracketed | concrete_bracketed |].
    apply (bool_decide_unpack _). vm_compute. exact I.
  - apply (proj2 (brackets_only_titles (ustr "Acme") (ustr "P100"))).
    apply (bool_decide_unpack _). vm_compute. exact I.
Defined.

(** C10 as stated fails where the second bracket holds a line feed: [.]
    does not match it, so neither pattern matches and nothing is parsed. *)
Lemma brackets_only_line_feed :
  ¬ (∀ A B, bracketed A → bracketed B →
       parse_ticket_title
         ([Chr.lbracket] ++ A ++ [Chr.rbracket] ++ [Chr.lbracket] ++ B
          ++ [Chr.rbracket])
       = Some (ParsedTitle A ([Chr.lbracket] ++ B ++ [Chr.rbracket]) None 2)).
Proof.
  intros H.
  specialize (H (ustr "A") [120; 10; 121]%N
                ltac:(concrete_bracketed) ltac:(concrete_bracketed)).
  vm_compute in H. discriminate H.
Qed.

(* ===================================================================== *)
(** * Destinations *)
(* ===================================================================== *)

Lemma strftime_date dt : strftime dt fmt_date = yyyymmdd dt.
Proof. reflexivity. Qed.

Lemma path_exists_true w p n : fs w !! p = Some n → OS.path_exists w p = true.
Proof. intros H. unfold OS.path_exists. apply bool_decide_eq_true. eauto. Qed.

Lemma path_exists_false w p : fs w !! p = None → OS.path_exists w p = false.
Proof.
  intros H. unfold OS.path_exists. apply bool_decide_eq_false.
  rewrite H. intros [? ?]. discriminate.
Qed.

Lemma path_exists_Some w p : OS.path_exists w p = true → ∃ n, fs w !! p = Some n.
Proof. unfold OS.path_exists. intros H. apply bool_decide_eq_true in H as [n H]. eauto. Qed.

Lemma truthy_true (s : pystr) : s ≠ [] → truthy s = true.
Proof. destruct s; [congruence|reflexivity]. Qed.

(** The date segment comes from the file when there is one, from the clock
    otherwise; reading it never fails. *)
Lemma date_folder_cases w file_path :
  ∃ date, date_folder w file_path = Ret date
    ∧ (∀ p dt, file_path = Some p → p ≠ [] → local_mtime w p = Some dt →
         date = yyyymmdd dt)
    ∧ (file_path = None ∨ file_path = Some [] ∨
       (∃ p, file_path = Some p ∧ fs w !! p = None) → date = yyyymmdd (now w)).
Proof.
  unfold date_folder, local_mtime. destruct file_path as [p|].
  - destruct (truthy p) eqn:Ht.
    + assert (Hp : p ≠ []) by (intros ->; discriminate Ht).
      cbn [andb]. unfold OS.getmtime.
      destruct (fs w !! p) as [n|] eqn:E.
      * rewrite (path_exists_true _ _ _ E).
        exists (yyyymmdd (fromtimestamp w (node_mtime n))).
        split; [reflexivity|]. split.
        -- intros q dt [= <-] _. rewrite E. now intros [= <-].
        -- intros [H|[H|(q & [= <-] & H)]]; congruence.
      * rewrite (path_exists_false _ _ E).
        exists (yyyymmdd (now w)). split; [reflexivity|]. split.
        -- intros q dt [= <-] _. rewrite E. discriminate.
        -- reflexivity.
    + exists (yyyymmdd (now w)). cbn [andb]. split; [reflexivity|].
      split; [|reflexivity].
      intros q dt [= <-] Hq. now rewrite (truthy_true _ Hq) in Ht.
  - exists (yyyymmdd (now w)). split; [reflexivity|].
    split; [discriminate | reflexivity].
Qed.

(** With the file in place, the date segment depends on the host only
    through the file's local modification time. *)
Lemma date_folder_of_mtime w p dt :
  p ≠ [] → local_mtime w p = Some dt →
  date_folder w (Some p) = Ret (yyyymmdd dt).
Proof.
  intros Hp Hm.
  destruct (date_folder_cases w (Some p)) as (date & -> & H & _).
  f_equal. now apply (H p dt).
Qed.

(** C1, as the code has it. For the title "[Acme][P100]Door sensor broken",
    a file whose modification date is 2024-03-05 and the base folder
    "/data", the destination is /data/Acme/P100/Door sensor broken/20240305:
    the remainder of the title is the third folder level. *)
Theorem acme_destination (w : world) (p : pystr) (dt : datetime) :
  p ≠ [] → local_mtime w p = Some dt →
  year dt = 2024 → month dt = 3 → day dt = 5 →
  build_target_path data_root w (parse_ticket_title acme_title) (Some p)
  = Ret (Some (ustr "/data/Acme/P100/Door sensor broken/20240305")).
Proof.
  intros Hp Hm Hy Hmo Hd.
  replace (parse_ticket_title acme_title)
    with (Some (ParsedTitle (ustr "Acme") (ustr "P100")
                  (Some (ustr "Door sensor broken")) 3))
    by (vm_compute; reflexivity).
  unfold build_target_path.
  rewrite (date_folder_of_mtime _ _ _ Hp Hm).
  unfold yyyymmdd. rewrite Hy, Hmo, Hd. vm_compute. reflexivity.
Qed.

Lemma acme_destination_witness :
  build_target_path data_root w_settled (parse_ticket_title acme_title)
    (Some (ustr "/dl/report.pdf"))
  = Ret (Some (ustr "/data/Acme/P100/Door sensor broken/20240305")).
Proof.
  apply (acme_destination w_settled (ustr "/dl/report.pdf")
           (DateTime 2024 3 5 10 0 0)).
  - discriminate.
  - vm_compute. reflexivity.
  - reflexivity.
  - reflexivity.
  - reflexivity.
Defined.

(** C1 as stated fails: on a host where the file was last modified on
    2024-03-05 at 10:00, the destination is not /data/Acme/P100/20240305. *)
Lemma acme_destination_not_two_levels :
  local_mtime w_settled (ustr "/dl/report.pdf") = Some (DateTime 2024 3 5 10 0 0)
  ∧ build_target_path data_root w_settled (parse_ticket_title acme_title)
      (Some (ustr "/dl/report.pdf"))
    ≠ Ret (Some (ustr "/data/Acme/P100/20240305")).
Proof.
  split; [vm_compute; reflexivity|].
  vm_compute. discriminate.
Qed.

(* ===================================================================== *)
(** * The processed set *)
(* ===================================================================== *)

Lemma on_file_created_claimed m p :
  p ∈ processed_files m → _on_file_created m p = m.
Proof.
  intros H. unfold _on_file_created. now rewrite bool_decide_eq_true_2.
Qed.

Lemma on_file_created_fresh m p :
  p ∉ processed_files m → OS.path_exists (host m) p = true →
  _on_file_created m p = call_back (claim m p) p.
Proof.
  intros H E. unfold _on_file_created.
  rewrite bool_decide_eq_false_2 by assumption. now rewrite E.
Qed.

Lemma call_back_processed m p :
  processed_files (call_back m p) = processed_files m.
Proof. unfold call_back. now destruct (callback m). Qed.

(** C5. For a path that is in place and not yet in the processed set,
    two calls of _on_file_created in a row behave as (true, false): the
    first records the path and hands it to the callback, the second
    changes nothing. *)
Theorem claim_twice (m : monitor) (p : pystr) (cb : pystr → world → world) :
  callback m = Some cb →
  p ∉ processed_files m →
  OS.path_exists (host m) p = true →
  let m1 := _on_file_created m p in
  let m2 := _on_file_created m1 p in
  forwarded m1 = p :: forwarded m
  ∧ host m1 = cb p (host m)
  ∧ p ∈ processed_files m1
  ∧ m2 = m1.
Proof.
  intros Hcb Hfresh Hex m1 m2.
  assert (E1 : m1 = call_back (claim m p) p)
    by now apply on_file_created_fresh.
  assert (Hin : p ∈ processed_files m1).
  { rewrite E1, call_back_processed. simpl. set_solver. }
  split; [|split; [|split]].
  - rewrite E1. unfold call_back. simpl. now rewrite Hcb.
  - rewrite E1. unfold call_back. simpl. now rewrite Hcb.
  - exact Hin.
  - now apply on_file_created_claimed.
Qed.

Lemma claim_twice_witness :
  forwarded (_on_file_created idle_monitor report) = [report]
  ∧ _on_file_created (_on_file_created idle_monitor report) report
    = _on_file_created idle_monitor report.
Proof.
  destruct (claim_twice idle_monitor report keep_host eq_refl
              ltac:(apply not_elem_of_empty)
              ltac:(vm_compute; reflexivity))
    as (H1 & _ & _ & H2).
  split; [exact H1 | exact H2].
Defined.

(* ===================================================================== *)
(** * The settle probe *)
(* ===================================================================== *)

Lemma getsize_raise_caught w p e : OS.getsize w p = Raise e → caught e = true.
Proof.
  unfold OS.getsize. destruct (fs w !! p); [discriminate|].
  now intros [= <-].
Qed.

Lemma is_file_ready_tick timeline p s :
  OS.getsize (timeline (tick (count_probe s))) p = OS.getsize (timeline (tick s)) p.
Proof. reflexivity. Qed.

(** C6. The probe answers true exactly when both size reads succeed, give
    the same size, and that size is positive; it always answers (a failed
    read is caught), a file of zero bytes is never ready, and a read that
    fails because the file went away gives false. *)
Theorem is_file_ready_iff (timeline : nat → world) (p : pystr) (s : probing) :
  (fst (_is_file_ready timeline p s) = Ret true ↔
     ∃ z, OS.getsize (timeline (tick s)) p = Ret z
          ∧ OS.getsize (timeline (S (tick s))) p = Ret z
          ∧ 0 < z)
  ∧ (∃ b, fst (_is_file_ready timeline p s) = Ret b)
  ∧ (OS.getsize (timeline (S (tick s))) p = Ret 0 →
     fst (_is_file_ready timeline p s) = Ret false)
  ∧ (∀ e, OS.getsize (timeline (tick s)) p = Raise e
          ∨ OS.getsize (timeline (S (tick s))) p = Raise e →
     fst (_is_file_ready timeline p s) = Ret false).
Proof.
  unfold _is_file_ready. rewrite is_file_ready_tick.
  change (tick (sleep_half (count_probe s))) with (S (tick s)).
  destruct (OS.getsize (timeline (tick s)) p) as [z0|e0] eqn:E0.
  - destruct (OS.getsize (timeline (S (tick s))) p) as [z1|e1] eqn:E1.
    + cbn [fst]. split; [|split; [eauto|split]].
      * split.
        -- intros [= H]. apply andb_true_iff in H as [H1 H2].
           apply Z.eqb_eq in H1. apply Z.ltb_lt in H2. subst.
           exists z1. auto.
        -- intros (z & [= ->] & [= ->] & Hz). f_equal.
           apply andb_true_iff. split; [apply Z.eqb_refl | now apply Z.ltb_lt].
      * intros [= ->]. f_equal. apply andb_false_r.
      * intros e [H|H]; discriminate H.
    + rewrite (getsize_raise_caught _ _ _ E1). cbn [fst].
      split; [|split; [eauto|split]].
      * split; [discriminate|]. intros (z & _ & H & _). discriminate H.
      * discriminate.
      * reflexivity.
  - rewrite (getsize_raise_caught _ _ _ E0). cbn [fst].
    split; [|split; [eauto|split]].
    + split; [discriminate|]. intros (z & H & _). discriminate H.
    + reflexivity.
    + reflexivity.
Qed.

Lemma is_file_ready_iff_witness :
  fst (_is_file_ready (λ _, w_settled) report fresh_probe) = Ret true
  ∧ fst (_is_file_ready (λ _, w_empty_file) (ustr "/dl/stub.bin") fresh_probe)
    = Ret false
  ∧ fst (_is_file_ready (λ t, if t is O then w_settled else w_empty_file)
           report fresh_probe) = Ret false.
Proof.
  split; [|split].
  - apply (proj1 (is_file_ready_iff (λ _, w_settled) report fresh_probe)).
    exists 4. repeat split; vm_compute; reflexivity.
  - apply (proj1 (proj2 (proj2 (is_file_ready_iff (λ _, w_empty_file)
                                  (ustr "/dl/stub.bin") fresh_probe)))).
    vm_compute. reflexivity.
  - apply (proj2 (proj2 (proj2 (is_file_ready_iff
             (λ t, if t is O then w_settled else w_empty_file)
             report fresh_probe)))
             (Exn "FileNotFoundError" report)).
    right. vm_compute. reflexivity.
Defined.

(** ** The retry loop *)

Lemma is_file_ready_trace timeline p s :
  let s1 := snd (_is_file_ready timeline p s) in
  probes s1 = S (probes s) ∧ calls s1 = calls s
  ∧ (sleeps s1 = sleeps s ∨ sleeps s1 = 500 :: sleeps s).
Proof.
  unfold _is_file_ready.
  destruct (OS.getsize (timeline (tick (count_probe s))) p) as [z0|e0].
  - destruct (OS.getsize _ p) as [z1|e1]; [|destruct (caught e1)];
      cbn; auto.
  - destruct (caught e0); cbn; auto.
Qed.





(* ===================================================================== *)
(** * Two timer threads on one path *)
(* ===================================================================== *)

(** A thread that runs alone executes the method. *)
Lemma thread_alone m p :
  let c := run_schedule p [true; true; true; true] (spawn m) in
  shared c = _on_file_created m p ∧ pc1 c = AtEnd.
Proof.
  unfold run_schedule, spawn, _on_file_created. cbn [fold_left].
  unfold sched_step. cbn [shared pc1 pc2 thread_step].
  destruct (bool_decide (p ∈ processed_files m)); [cbn; auto|].
  cbn [shared pc1 pc2 thread_step].
  destruct (OS.path_exists (host m) p); cbn; auto.
Qed.

Lemma call_back_callback m p : callback (call_back m p) = callback m.
Proof. unfold call_back. now destruct (callback m) eqn:E. Qed.

Lemma call_back_forwarded m p cb :
  callback m = Some cb → forwarded (call_back m p) = p :: forwarded m.
Proof. intros H. unfold call_back. now rewrite H. Qed.

(** One statement of either thread keeps [race_inv]. *)
Lemma race_inv_step p cb w fwd c b :
  OS.path_exists w p = true →
  race_inv p cb w fwd c → race_inv p cb w fwd (sched_step p c b).
Proof.
  intros Hex (Hcb & k & Hfwd & Hk & Hcase).
  destruct c as [m l1 l2]. cbn [shared pc1 pc2] in *.
  destruct b; unfold sched_step; cbn [shared pc1 pc2].
  - (* the first thread moves *)
    destruct l1; cbn [thread_step].
    + destruct (bool_decide (p ∈ processed_files m)) eqn:E;
        (split; [exact Hcb|]); exists k; cbn [shared pc1 pc2 ended] in *;
        (split; [exact Hfwd|]); (split; [lia|]).
      * apply bool_decide_eq_true in E.
        destruct Hcase as [H|[H|[H|(H & _)]]]; auto; [discriminate|contradiction].
      * destruct Hcase as [H|[H|[H|(H1 & H2 & H3 & H4)]]]; auto; [discriminate|].
        do 3 right. unfold early. auto 6.
    + destruct (OS.path_exists (host m) p) eqn:E; cbn [negb];
        (split; [exact Hcb|]); exists k; cbn [shared pc1 pc2 ended] in *;
        (split; [exact Hfwd|]); (split; [lia|]).
      * destruct Hcase as [H|[H|[H|(H1 & H2 & H3 & H4)]]]; auto; [discriminate|].
        do 3 right. unfold early. auto 6.
      * destruct Hcase as [H|[H|[H|(H1 & H2 & H3 & H4)]]]; auto; [discriminate|].
        subst w. congruence.
    + split; [exact Hcb|]. exists k. cbn [shared pc1 pc2 ended] in *.
      split; [exact Hfwd|]. split; [lia|]. auto.
    + unfold race_inv. cbn [shared pc1 pc2].
      split; [now rewrite call_back_callback|].
      exists (S k). cbn [shared pc1 pc2 ended] in *.
      split; [rewrite (call_back_forwarded _ _ _ Hcb), Hfwd; reflexivity|].
      split; [lia|]. left. lia.
    + split; [exact Hcb|]. exists k. cbn [shared pc1 pc2 ended] in *.
      split; [exact Hfwd|]. split; [lia|].
      destruct Hcase as [H|[H|[H|(_ & _ & [H|[H|H]] & _)]]]; auto; discriminate.
  - (* the second thread moves *)
    destruct l2; cbn [thread_step].
    + destruct (bool_decide (p ∈ processed_files m)) eqn:E;
        (split; [exact Hcb|]); exists k; cbn [shared pc1 pc2 ended] in *;
        (split; [exact Hfwd|]); (split; [lia|]).
      * apply bool_decide_eq_true in E.
        destruct Hcase as [H|[H|[H|(H & _)]]]; auto; [discriminate|contradiction].
      * destruct Hcase as [H|[H|[H|(H1 & H2 & H3 & H4)]]]; auto; [discriminate|].
        do 3 right. unfold early. auto 6.
    + destruct (OS.path_exists (host m) p) eqn:E; cbn [negb];
        (split; [exact Hcb|]); exists k; cbn [shared pc1 pc2 ended] in *;
        (split; [exact Hfwd|]); (split; [lia|]).
      * destruct Hcase as [H|[H|[H|(H1 & H2 & H3 & H4)]]]; auto; [discriminate|].
        do 3 right. unfold early. auto 6.
      * destruct Hcase as [H|[H|[H|(H1 & H2 & H3 & H4)]]]; auto; [discriminate|].
        subst w. congruence.
    + split; [exact Hcb|]. exists k. cbn [shared pc1 pc2 ended] in *.
      split; [exact Hfwd|]. split; [lia|]. auto.
    + unfold race_inv. cbn [shared pc1 pc2].
      split; [now rewrite call_back_callback|].
      exists (S k). cbn [shared pc1 pc2 ended] in *.
      split; [rewrite (call_back_forwarded _ _ _ Hcb), Hfwd; reflexivity|].
      split; [lia|]. left. lia.
    + split; [exact Hcb|]. exists k. cbn [shared pc1 pc2 ended] in *.
      split; [exact Hfwd|]. split; [lia|].
      destruct Hcase as [H|[H|[H|(_ & _ & _ & [H|[H|H]])]]]; auto; discriminate.
Qed.

Lemma race_inv_run p cb w fwd sched c :
  OS.path_exists w p = true →
  race_inv p cb w fwd c → race_inv p cb w fwd (run_schedule p sched c).
Proof.
  intros Hex. revert c. unfold run_schedule.
  induction sched as [|b sched IH]; intros c H; [exact H|].
  cbn [fold_left]. apply IH. now apply race_inv_step.
Qed.

Lemma race_inv_spawn m p cb :
  callback m = Some cb → p ∉ processed_files m →
  race_inv p cb (host m) (forwarded m) (spawn m).
Proof.
  intros Hcb Hp. split; [exact Hcb|]. exists O. cbn.
  split; [reflexivity|]. split; [lia|].
  do 3 right. unfold early. auto.
Qed.

Lemma serial_inv_step p cb fwd b c b' :
  serial_inv p cb fwd b c → serial_inv p cb fwd b (sched_step p c b').
Proof.
  intros (Hcb & Hin & Hother & Hself).
  destruct c as [m l1 l2]. unfold serial_inv, sched_step.
  destruct b, b'; cbn [pc_of negb shared pc1 pc2] in *.
  - destruct Hself as [[-> Hf]|[-> Hf]]; cbn [thread_step shared pc1 pc2].
    + rewrite call_back_callback, call_back_processed,
        (call_back_forwarded _ _ _ Hcb), Hf. auto 10.
    + auto 10.
  - destruct Hother as [-> | ->]; cbn [thread_step].
    + rewrite bool_decide_eq_true_2 by assumption. cbn [shared pc1 pc2]. auto 10.
    + cbn [shared pc1 pc2]. auto 10.
  - destruct Hother as [-> | ->]; cbn [thread_step].
    + rewrite bool_decide_eq_true_2 by assumption. cbn [shared pc1 pc2]. auto 10.
    + cbn [shared pc1 pc2]. auto 10.
  - destruct Hself as [[-> Hf]|[-> Hf]]; cbn [thread_step shared pc1 pc2].
    + rewrite call_back_callback, call_back_processed,
        (call_back_forwarded _ _ _ Hcb), Hf. auto 10.
    + auto 10.
Qed.

Lemma serial_inv_run p cb fwd b sched c :
  serial_inv p cb fwd b c → serial_inv p cb fwd b (run_schedule p sched c).
Proof.
  revert c. unfold run_schedule.
  induction sched as [|b' sched IH]; intros c H; [exact H|].
  cbn [fold_left]. apply IH. now apply serial_inv_step.
Qed.

(** After the test, the check and the insert of one thread. *)
Lemma serial_inv_after_insert m p cb b :
  callback m = Some cb → p ∉ processed_files m →
  OS.path_exists (host m) p = true →
  serial_inv p cb (forwarded m) b (run_schedule p [b; b; b] (spawn m)).
Proof.
  intros Hcb Hp Hex. unfold run_schedule, spawn. cbn [fold_left].
  destruct b; unfold sched_step; cbn [shared pc1 pc2 thread_step];
    rewrite (bool_decide_eq_false_2 _ Hp); cbn [shared pc1 pc2 thread_step];
    rewrite Hex; cbn [negb shared pc1 pc2 thread_step];
    (split; [exact Hcb|]); (split; [cbn; set_solver|]);
    (split; [left; reflexivity|]); left; split; reflexivity.
Qed.

(** C9, as the code has it. The membership test and the insert are two
    statements with no lock around them. Two timer threads for one path
    that is in place and not yet processed call the callback once or
    twice, whatever the schedule; exactly once when one thread has done
    its insert before the other starts. *)
Theorem two_triggers (m : monitor) (p : pystr) (cb : pystr → world → world)
    (sched : list bool) :
  callback m = Some cb →
  p ∉ processed_files m →
  OS.path_exists (host m) p = true →
  finished (run_schedule p sched (spawn m)) →
  (forwarded (shared (run_schedule p sched (spawn m))) = [p] ++ forwarded m
   ∨ forwarded (shared (run_schedule p sched (spawn m))) = [p; p] ++ forwarded m)
  ∧ (∀ b rest, sched = [b; b; b] ++ rest →
       forwarded (shared (run_schedule p sched (spawn m))) = [p] ++ forwarded m).
Proof.
  intros Hcb Hp Hex [Hf1 Hf2]. split.
  - pose proof (race_inv_run p cb (host m) (forwarded m) sched (spawn m) Hex
                  (race_inv_spawn m p cb Hcb Hp)) as (_ & k & Hfwd & Hk & Hcase).
    rewrite Hf1, Hf2 in Hk, Hcase. cbn [ended] in Hk.
    destruct Hcase as [H|[H|[H|(_ & _ & [H|[H|H]] & _)]]]; try discriminate H.
    destruct k as [|[|[|k]]]; [lia| | |lia]; rewrite Hfwd; auto.
  - intros b rest ->.
    unfold run_schedule in *. rewrite fold_left_app in *.
    pose proof (serial_inv_run p cb (forwarded m) b rest _
                  (serial_inv_after_insert m p cb b Hcb Hp Hex))
      as (_ & _ & _ & Hself).
    unfold run_schedule in Hself.
    destruct Hself as [[H _]|[_ H]]; [|exact H].
    destruct b; cbn [pc_of] in H; congruence.
Qed.

Lemma two_triggers_witness :
  forwarded (shared (run_schedule report
                       [true; true; true; false; true; false]
                       (spawn idle_monitor))) = [report].
Proof.
  apply (proj2 (two_triggers idle_monitor report keep_host
                  [true; true; true; false; true; false]
                  eq_refl ltac:(apply not_elem_of_empty)
                  ltac:(vm_compute; reflexivity)
                  ltac:(split; vm_compute; reflexivity))
           true [false; true; false] eq_refl).
Defined.

(** C9 as stated fails: two modified events for the same path start two
    timers, and when their threads alternate both pass the membership
    test before either inserts, so the callback runs twice. *)
Lemma two_modified_events_both_forwarded :
  on_modified report_modified ++ on_modified report_modified
    = [(3000, report); (3000, report)]
  ∧ finished (run_schedule report alternating (spawn idle_monitor))
  ∧ forwarded (shared (run_schedule report alternating (spawn idle_monitor)))
    = [report; report].
Proof.
  split; [vm_compute; reflexivity|]. split.
  - split; vm_compute; reflexivity.
  - vm_compute. reflexivity.
Qed.

(* ===================================================================== *)
(** * Paths *)
(* ===================================================================== *)

Lemma rfind_from_spec c s i found :
  ((c ∉ s) ∧ PosixPath.rfind_from c s i found = found)
  ∨ (∃ j : nat, PosixPath.rfind_from c s i found = i + Z.of_nat j
                ∧ c ∉ drop (S j) s).
Proof.
  revert i found. induction s as [|x s IH]; intros i found; cbn [PosixPath.rfind_from].
  - left. split; [apply not_elem_of_nil | reflexivity].
  - destruct (IH (i + 1) (if (x =? c)%N then i else found)) as [[Hs E]|(j & E & Hj)].
    + destruct (N.eqb_spec x c) as [->|Hx].
      * right. exists O. rewrite E. split; [lia | exact Hs].
      * left. split; [|exact E].
        apply not_elem_of_cons. split; [congruence | exact Hs].
    + right. exists (S j). rewrite E. split; [lia | exact Hj].
Qed.

Lemma basename_no_slash p : Chr.slash ∉ PosixPath.basename p.
Proof.
  unfold PosixPath.basename, PosixPath.slice_from, PosixPath.rfind.
  destruct (rfind_from_spec Chr.slash p 0 (-1)) as [[Hp ->]|(j & -> & Hj)].
  - exact Hp.
  - replace (Z.to_nat (0 + Z.of_nat j + 1)) with (S j) by lia. exact Hj.
Qed.



Lemma startswith_sep s :
  startswith s PosixPath.sep = true → ∃ t, s = Chr.slash :: t.
Proof.
  destruct s as [|c s]; cbn [startswith PosixPath.sep]; [discriminate|].
  destruct (N.eqb_spec c Chr.slash) as [->|]; [eauto|discriminate].
Qed.

Lemma not_absolute s : (∀ t, s ≠ Chr.slash :: t) → startswith s PosixPath.sep = false.
Proof.
  intros H. destruct (startswith s PosixPath.sep) eqn:E; [|reflexivity].
  apply startswith_sep in E as [t ->]. now destruct (H t).
Qed.

Lemma join_plain path b :
  startswith b PosixPath.sep = false →
  PosixPath.join path [b] = join_prefix path ++ b.
Proof.
  intros H. unfold PosixPath.join, PosixPath.join2, join_prefix. cbn [fold_left].
  rewrite H.
  destruct (negb (truthy path) || endswith path PosixPath.sep); [reflexivity|].
  now rewrite <- app_assoc.
Qed.

Lemma join_prefix_length path : (length path ≤ length (join_prefix path))%nat.
Proof.
  unfold join_prefix.
  destruct (negb (truthy path) || endswith path PosixPath.sep); [lia|].
  rewrite length_app. lia.
Qed.

Lemma basename_not_absolute p :
  startswith (PosixPath.basename p) PosixPath.sep = false.
Proof.
  apply not_absolute. intros t E. apply (basename_no_slash p).
  rewrite E. left.
Qed.






(* ===================================================================== *)
(** * The host's calls *)
(* ===================================================================== *)

Lemma ancestors_from_length seen s a :
  a ∈ OS.ancestors_from seen s → (length a ≤ length seen + length s)%nat.
Proof.
  revert seen. induction s as [|c s IH]; intros seen; cbn [OS.ancestors_from].
  - destruct (truthy seen); [|intros H; now apply elem_of_nil in H].
    intros H. apply list_elem_of_singleton in H. subst.
    rewrite length_rev. simpl. lia.
  - rewrite elem_of_app. intros [H|H].
    + destruct (_ && _); [|now apply elem_of_nil in H].
      apply list_elem_of_singleton in H. subst. rewrite length_rev. simpl. lia.
    + apply IH in H. simpl in *. lia.
Qed.

Lemma ancestors_length p a : a ∈ OS.ancestors p → (length a ≤ length p)%nat.
Proof. intros H. apply ancestors_from_length in H. simpl in H. lia. Qed.

Lemma mkdirs_keeps (ps : list pystr) (t : Z) (m m' : gmap pystr node)
    (ok : bool) (k : pystr) (n : node) :
  OS.mkdirs ps t m = (m', ok) → m !! k = Some n → m' !! k = Some n.
Proof.
  revert m. induction ps as [|p ps IH]; intros m; cbn [OS.mkdirs].
  - now intros [= <- _].
  - destruct (m !! p) as [[c t'|t']|] eqn:E.
    + now intros [= <- _].
    + apply IH.
    + intros H Hk. apply (IH _ H).
      rewrite lookup_insert_ne; [exact Hk|]. congruence.
Qed.

Lemma mkdirs_elsewhere (ps : list pystr) (t : Z) (m m' : gmap pystr node)
    (ok : bool) (k : pystr) :
  OS.mkdirs ps t m = (m', ok) → k ∉ ps → m' !! k = m !! k.
Proof.
  revert m. induction ps as [|p ps IH]; intros m; cbn [OS.mkdirs].
  - now intros [= <- _].
  - intros H Hk. apply not_elem_of_cons in Hk as [Hkp Hk].
    destruct (m !! p) as [[c t'|t']|] eqn:E.
    + now injection H as <- _.
    + now apply IH.
    + rewrite (IH _ H Hk). now apply lookup_insert_ne.
Qed.

(** What [os.makedirs] leaves alone. *)
Lemma makedirs_frame w p w1 r :
  OS.makedirs w p = (w1, r) →
  clock w1 = clock w ∧ fromtimestamp w1 = fromtimestamp w
  ∧ move_fault w1 = move_fault w ∧ moves w1 = moves w
  ∧ (∀ k n, fs w !! k = Some n → fs w1 !! k = Some n)
  ∧ (∀ k, (length p < length k)%nat → fs w1 !! k = fs w !! k).
Proof.
  unfold OS.makedirs. destruct (mkdir_fault w).
  - intros [= <- _]. repeat split; auto.
  - destruct (negb (truthy p)); [intros [= <- _]; repeat split; auto|].
    destruct (OS.mkdirs (OS.ancestors p) (clock w) (fs w)) as [m ok] eqn:E.
    assert (Hkeep : ∀ k n, fs w !! k = Some n → m !! k = Some n)
      by (intros k n; eapply mkdirs_keeps, E).
    assert (Hlong : ∀ k, (length p < length k)%nat → m !! k = fs w !! k).
    { intros k Hk. eapply mkdirs_elsewhere; [exact E|].
      intros Hin. apply ancestors_length in Hin. lia. }
    destruct ok; intros [= <- _]; cbn; repeat split; auto.
Qed.


Lemma shutil_move_logged w src dst w2 r :
  OS.shutil_move w src dst = (w2, r) → moves w2 = (src, dst) :: moves w.
Proof.
  unfold OS.shutil_move. cbn [move_fault fs log_move].
  destruct (move_fault w); [now intros [= <- _]|].
  destruct (fs w !! src); [|now intros [= <- _]].
  destruct (bool_decide (src = dst)); [now intros [= <- _]|].
  destruct (OS.isdir _ dst); [destruct (OS.path_exists _ _)|];
    now intros [= <- _].
Qed.

(** A move that raises has changed nothing in the tree. *)
Lemma shutil_move_raise w src dst w2 e :
  OS.shutil_move w src dst = (w2, Raise e) → fs w2 = fs w.
Proof.
  unfold OS.shutil_move. cbn [move_fault fs log_move].
  destruct (move_fault w); [now intros [= <- _]|].
  destruct (fs w !! src); [|now intros [= <- _]].
  destruct (bool_decide (src = dst)); [discriminate|].
  destruct (OS.isdir _ dst); [destruct (OS.path_exists _ _)|];
    try discriminate; now intros [= <- _].
Qed.

(** A move onto a free path. *)
Lemma shutil_move_onto_free w src dst n :
  move_fault w = None → fs w !! src = Some n → fs w !! dst = None →
  OS.shutil_move w src dst
  = (set_fs (log_move w src dst) (<[dst := n]> (delete src (fs w))), Ret dst).
Proof.
  intros Hf Hs Hd. unfold OS.shutil_move. cbn [move_fault fs log_move].
  rewrite Hf, Hs.
  rewrite bool_decide_eq_false_2 by congruence.
  unfold OS.isdir. cbn [fs log_move]. now rewrite Hd.
Qed.

Lemma move_file_unfold w src tf :
  move_file w src tf =
  if negb (OS.path_exists w src) then (w, Ret (false, msg_source_missing))
  else
    match OS.makedirs w tf with
    | (w1, Raise e) => (w1, Raise e)
    | (w1, Ret _) =>
        match OS.shutil_move w1 src (chosen_target w1 tf src) with
        | (w2, Ret _) => (w2, Ret (true, chosen_target w1 tf src))
        | (w2, Raise e) => (w2, Ret (false, exn_str e))
        end
    end.
Proof. reflexivity. Qed.

(* ===================================================================== *)
(** * Moving *)
(* ===================================================================== *)

Lemma pair_with_snd {A B : Type} (x : A * B) (b : B) :
  snd x = b → x = (fst x, b).
Proof. intros <-. now destruct x. Qed.





(** The failures move_file reports as results: when the source is not
    there, the fixed message, with nothing touched or tried; when the
    folder was made and shutil.move raises, the text of what it raised.
    In every failure result the source entry is as it was, and
    shutil.move was called at most once. *)
Lemma move_file_failure (w : world) (src tf : pystr) :
  (OS.path_exists w src = false →
   move_file w src tf = (w, Ret (false, msg_source_missing)))
  ∧ (∀ w1 w2 e,
       OS.path_exists w src = true →
       OS.makedirs w tf = (w1, Ret tt) →
       OS.shutil_move w1 src (chosen_target w1 tf src) = (w2, Raise e) →
       move_file w src tf = (w2, Ret (false, exn_str e)))
  ∧ (∀ w' msg,
       move_file w src tf = (w', Ret (false, msg)) →
       fs w' !! src = fs w !! src
       ∧ (length (moves w') ≤ S (length (moves w)))%nat).
Proof.
  split; [|split].
  - intros H. rewrite move_file_unfold, H. reflexivity.
  - intros w1 w2 e H Hmk Hmv. now rewrite move_file_unfold, H, Hmk, Hmv.
  - intros w' msg. rewrite move_file_unfold.
    destruct (OS.path_exists w src) eqn:Hex; cbn [negb].
    + apply path_exists_Some in Hex as [n Hn].
      destruct (OS.makedirs w tf) as [w1 [[]|e]] eqn:Em; [|discriminate].
      destruct (makedirs_frame _ _ _ _ Em) as (_ & _ & _ & Hmoves & Hkeep & _).
      destruct (OS.shutil_move w1 src _) as [w2 [d|e]] eqn:Es; [discriminate|].
      intros [= <- _].
      rewrite (shutil_move_raise _ _ _ _ _ Es), (shutil_move_logged _ _ _ _ _ Es).
      rewrite (Hkeep _ _ Hn), Hn, Hmoves. split; [reflexivity|simpl; lia].
    + intros [= <- _]. split; [reflexivity|lia].
Qed.

Lemma move_file_failure_witness :
  move_file w_settled (ustr "/dl/gone.pdf") (ustr "/out")
    = (w_settled, Ret (false, msg_source_missing))
  ∧ snd (move_file w_locked (ustr "/dl/a.txt") (ustr "/out"))
    = Ret (false, ustr "Permission denied")
  ∧ fs (fst (move_file w_locked (ustr "/dl/a.txt") (ustr "/out")))
      !! ustr "/dl/a.txt" = fs w_locked !! ustr "/dl/a.txt".
Proof.
  split; [|split].
  - apply (proj1 (move_file_failure w_settled (ustr "/dl/gone.pdf") (ustr "/out"))).
    vm_compute. reflexivity.
  - rewrite (proj1 (proj2 (move_file_failure w_locked (ustr "/dl/a.txt") (ustr "/out")))
               (fst (OS.makedirs w_locked (ustr "/out")))
               (fst (OS.shutil_move (fst (OS.makedirs w_locked (ustr "/out")))
                       (ustr "/dl/a.txt")
                       (chosen_target (fst (OS.makedirs w_locked (ustr "/out")))
                          (ustr "/out") (ustr "/dl/a.txt"))))
               (Exn "OSError" (ustr "Permission denied"))).
    + reflexivity.
    + vm_compute. reflexivity.
    + apply pair_with_snd. vm_compute. reflexivity.
    + apply pair_with_snd. vm_compute. reflexivity.
  - apply (proj2 (proj2 (move_file_failure w_locked (ustr "/dl/a.txt") (ustr "/out")))
             (fst (move_file w_locked (ustr "/dl/a.txt") (ustr "/out")))
             (ustr "Permission denied")).
    apply pair_with_snd. vm_compute. reflexivity.
Defined.

(* ===================================================================== *)
(** * More on titles *)
(* ===================================================================== *)

Lemma lstrip_spaces ws s :
  Forall (λ c, isspace c = true) ws → lstrip (ws ++ s) = lstrip s.
Proof.
  induction 1 as [|c ws Hc _ IH]; [reflexivity|]. simpl. now rewrite Hc.
Qed.

Lemma lstrip_nil s : lstrip s = [] → Forall (λ c, isspace c = true) s.
Proof.
  induction s as [|c s IH]; simpl; [constructor|].
  destruct (isspace c) eqn:E; [|discriminate]. intros H. constructor; auto.
Qed.

Lemma lstrip_all_space s : Forall (λ c, isspace c = true) s → lstrip s = [].
Proof. intros H. rewrite <- (app_nil_r s). now rewrite lstrip_spaces. Qed.

Lemma lstrip_app s u : lstrip s ≠ [] → lstrip (s ++ u) = lstrip s ++ u.
Proof.
  induction s as [|c s IH]; simpl; [congruence|].
  destruct (isspace c); [exact IH | reflexivity].
Qed.

Lemma lstrip_keeps x s : x ∈ s → isspace x = false → x ∈ lstrip s.
Proof.
  intros Hin Hx. induction s as [|c s IH]; [exact Hin|].
  simpl. destruct (isspace c) eqn:E; [|exact Hin].
  apply elem_of_cons in Hin as [->|Hin]; [congruence | auto].
Qed.

Lemma rstrip_spaces s ws :
  Forall (λ c, isspace c = true) ws → rstrip (s ++ ws) = rstrip s.
Proof.
  intros H. unfold rstrip. rewrite rev_app_distr, lstrip_spaces; [reflexivity|].
  apply Forall_forall. intros x Hx. rewrite Forall_forall in H.
  apply H. apply list_elem_of_In. apply list_elem_of_In in Hx.
  now apply in_rev.
Qed.

(** Whitespace around a string does not change what [strip] returns. *)
Lemma strip_padding ws1 t ws2 :
  Forall (λ c, isspace c = true) ws1 → Forall (λ c, isspace c = true) ws2 →
  strip (ws1 ++ t ++ ws2) = strip t.
Proof.
  intros H1 H2. unfold strip. rewrite (lstrip_spaces _ _ H1).
  destruct (lstrip t) as [|c u] eqn:E.
  - rewrite lstrip_all_space; [reflexivity|].
    apply Forall_app. split; [now apply lstrip_nil | exact H2].
  - rewrite lstrip_app by congruence. rewrite E. now apply rstrip_spaces.
Qed.

Lemma strip_keeps x s : x ∈ s → isspace x = false → strip s ≠ [].
Proof.
  intros Hin Hx. unfold strip, rstrip.
  pose proof (lstrip_keeps x s Hin Hx) as H1.
  assert (H2 : x ∈ rev (lstrip s)).
  { apply list_elem_of_In. apply -> in_rev. now apply list_elem_of_In. }
  pose proof (lstrip_keeps x _ H2 Hx) as H3.
  intros E. apply (f_equal (@rev N)) in E. rewrite rev_involutive in E.
  rewrite E in H3. now apply elem_of_nil in H3.
Qed.

(** A remainder of a stripped title keeps a code point when stripped. *)
Lemma strip_remainder t P R :
  strip t = P ++ R → R ≠ [] → strip R ≠ [].
Proof.
  intros E HR.
  destruct (exists_last HR) as (R0 & c & ->).
  rewrite app_assoc in E. apply strip_last in E.
  apply (strip_keeps c); [|exact E].
  apply elem_of_app. right. left.
Qed.

(** X1. Whatever parse_ticket_title returns is read off the stripped title:
    a three-level result splits it as "[" folder1 "][" folder2 "]" rest
    with folder3 the stripped rest; a two-level result splits it as
    "[" folder1 "]" rest with folder2 the stripped rest, and then the
    three-level reading is impossible. No returned segment is empty. *)
Theorem parse_ticket_title_sound (t : pystr) (pt : parsed_title) :
  parse_ticket_title t = Some pt →
  folder1 pt ≠ []
  ∧ folder2 pt ≠ []
  ∧ ((∃ R, title3 (strip t) (folder1 pt) (folder2 pt) R
           ∧ folder3 pt = Some (strip R) ∧ strip R ≠ [] ∧ levels pt = 3)
     ∨ (∃ R, title2 (strip t) (folder1 pt) R
             ∧ (∀ A B R', ¬ title3 (strip t) A B R')
             ∧ folder2 pt = strip R ∧ folder3 pt = None ∧ levels pt = 2)).
Proof.
  unfold parse_ticket_title.
  destruct (Re.re_match pattern3 (strip t)) as [gs|] eqn:E3.
  - apply match3_stripped in E3 as (A & B & R & -> & H3).
    intros [= <-]. cbn [folder1 folder2 folder3 levels].
    pose proof H3 as (E & [HA _] & [HB _] & [HR _]).
    split; [exact HA|]. split; [exact HB|]. left. exists R.
    split; [exact H3|]. split; [reflexivity|]. split; [|reflexivity].
    rewrite !app_assoc in E. now apply (strip_remainder _ _ _ E).
  - assert (H3 : ∀ A B R', ¬ title3 (strip t) A B R').
    { intros A B R' H. apply match3_complete in H. congruence. }
    destruct (Re.re_match pattern2 (strip t)) as [gs|] eqn:E2; [|discriminate].
    apply match2_stripped in E2 as (A & R & -> & H2).
    intros [= <-]. cbn [folder1 folder2 folder3 levels].
    pose proof H2 as (E & [HA _] & [HR _]).
    split; [exact HA|]. split.
    + rewrite !app_assoc in E. now apply (strip_remainder _ _ _ E).
    + right. exists R. auto.
Qed.

Lemma parse_ticket_title_sound_witness :
  ∃ R, title3 (strip acme_title) (ustr "Acme") (ustr "P100") R
       ∧ strip R = ustr "Door sensor broken".
Proof.
  destruct (parse_ticket_title_sound acme_title
              (ParsedTitle (ustr "Acme") (ustr "P100")
                 (Some (ustr "Door sensor broken")) 3)
              ltac:(vm_compute; reflexivity))
    as (_ & _ & [(R & H3 & Hf & _)|(R & _ & _ & _ & Hf & _)]).
  - exists R. split; [exact H3|]. cbn [folder3] in Hf. congruence.
  - discriminate Hf.
Defined.

(** X2. Whitespace before and after a title does not matter: padding a
    title with any whitespace characters on either side gives the same
    parse result. *)
Theorem parse_ticket_title_padding (ws1 t ws2 : pystr) :
  Forall (λ c, isspace c = true) ws1 →
  Forall (λ c, isspace c = true) ws2 →
  parse_ticket_title (ws1 ++ t ++ ws2) = parse_ticket_title t.
Proof.
  intros H1 H2. unfold parse_ticket_title.
  now rewrite (strip_padding _ _ _ H1 H2).
Qed.

Lemma parse_ticket_title_padding_witness :
  parse_ticket_title ([9; 32]%N ++ acme_title ++ [13; 10; 12288]%N)
  = parse_ticket_title acme_title.
Proof.
  apply parse_ticket_title_padding; repeat constructor.
Defined.

(* ===================================================================== *)
(** * More on destinations *)
(* ===================================================================== *)

Lemma join_cons a b ps :
  PosixPath.join a (b :: ps) = PosixPath.join (PosixPath.join2 a b) ps.
Proof. reflexivity. Qed.



Lemma join_forgets a a' ps :
  Exists (λ b, startswith b PosixPath.sep = true) ps →
  PosixPath.join a ps = PosixPath.join a' ps.
Proof.
  intros H. revert a a'. induction H as [b ps Hb|b ps _ IH]; intros a a'.
  - rewrite !join_cons. unfold PosixPath.join2. now rewrite Hb.
  - rewrite !join_cons. apply IH.
Qed.



Lemma date_folder_is_date w fp : ∃ dt, date_folder w fp = Ret (yyyymmdd dt).
Proof.
  unfold date_folder. destruct fp as [p|]; [|eauto].
  destruct (truthy p); cbn [andb]; [|eauto].
  unfold OS.getmtime. destruct (fs w !! p) as [n|] eqn:E.
  - rewrite (path_exists_true _ _ _ E). eauto.
  - rewrite (path_exists_false _ _ E). eauto.
Qed.





(* ===================================================================== *)
(** * More on moving *)
(* ===================================================================== *)

Lemma ancestors_from_self seen s :
  truthy (rev seen ++ s) = true → rev seen ++ s ∈ OS.ancestors_from seen s.
Proof.
  revert seen. induction s as [|c s IH]; intros seen H; cbn [OS.ancestors_from].
  - rewrite app_nil_r in *.
    destruct seen as [|x seen]; [discriminate H|]. cbn [truthy]. left.
  - apply elem_of_app. right.
    specialize (IH (c :: seen)). cbn [rev] in IH. rewrite <- app_assoc in IH.
    apply IH. now destruct (rev seen).
Qed.

Lemma ancestors_self p : truthy p = true → p ∈ OS.ancestors p.
Proof. intros H. now apply (ancestors_from_self [] p). Qed.

Lemma mkdirs_all_dirs (ps : list pystr) (t : Z) (m m' : gmap pystr node) (p : pystr) :
  OS.mkdirs ps t m = (m', true) → p ∈ ps → ∃ t', m' !! p = Some (Dir t').
Proof.
  revert m. induction ps as [|q ps IH]; intros m H Hin.
  - now apply elem_of_nil in Hin.
  - cbn [OS.mkdirs] in H.
    apply elem_of_cons in Hin as [->|Hin].
    + destruct (m !! q) as [[c t'|t']|] eqn:E; [discriminate| |].
      * exists t'. eapply mkdirs_keeps; eauto.
      * exists t. eapply mkdirs_keeps; [exact H|]. apply lookup_insert_eq.
    + destruct (m !! q) as [[c t'|t']|] eqn:E; [discriminate| |]; eauto.
Qed.

Lemma mkdirs_blocked (ps : list pystr) (t : Z) (m : gmap pystr node)
    (a : pystr) (c : list N) (t0 : Z) :
  a ∈ ps → m !! a = Some (File c t0) → snd (OS.mkdirs ps t m) = false.
Proof.
  revert m. induction ps as [|q ps IH]; intros m Hin Ha.
  - now apply elem_of_nil in Hin.
  - cbn [OS.mkdirs].
    destruct (m !! q) as [[c' t'|t']|] eqn:E; [reflexivity| |].
    + apply elem_of_cons in Hin as [->|Hin]; [congruence|]. now apply IH.
    + apply elem_of_cons in Hin as [->|Hin]; [congruence|].
      apply IH; [exact Hin|]. rewrite lookup_insert_ne; [exact Ha|congruence].
Qed.

Lemma makedirs_made w p w1 :
  OS.makedirs w p = (w1, Ret tt) → ∃ t, fs w1 !! p = Some (Dir t).
Proof.
  unfold OS.makedirs. destruct (mkdir_fault w); [discriminate|].
  destruct (truthy p) eqn:Hp; cbn [negb]; [|discriminate].
  destruct (OS.mkdirs (OS.ancestors p) (clock w) (fs w)) as [m ok] eqn:E.
  destruct ok; [|discriminate]. intros [= <-]. cbn [fs set_fs].
  eapply mkdirs_all_dirs; [exact E|]. now apply ancestors_self.
Qed.

Lemma shutil_move_frame w src dst w2 r k n :
  OS.shutil_move w src dst = (w2, r) →
  fs w !! k = Some n → k ≠ src → k ≠ dst → fs w2 !! k = Some n.
Proof.
  unfold OS.shutil_move. cbn [move_fault fs log_move].
  destruct (move_fault w); [now intros [= <- _]|].
  destruct (fs w !! src); [|now intros [= <- _]].
  destruct (bool_decide (src = dst)); [now intros [= <- _]|].
  destruct (OS.isdir _ dst).
  - destruct (OS.path_exists _ _) eqn:E; [now intros [= <- _]|].
    intros [= <- _] Hk Hs Hd. cbn [fs set_fs].
    assert (Hr : PosixPath.join dst [OS._basename src] ≠ k).
    { intros <-. unfold OS.path_exists in E. cbn [fs log_move] in E.
      apply bool_decide_eq_false in E. apply E. eauto. }
    rewrite lookup_insert_ne by exact Hr.
    now rewrite lookup_delete_ne by congruence.
  - intros [= <- _] Hk Hs Hd. cbn [fs set_fs].
    now rewrite lookup_insert_ne, lookup_delete_ne by congruence.
Qed.

Lemma plain_target_length tf src :
  PosixPath.basename src ≠ [] → (length tf < length (plain_target tf src))%nat.
Proof.
  intros H. unfold plain_target.
  rewrite (join_plain _ _ (basename_not_absolute src)), length_app.
  pose proof (join_prefix_length tf).
  destruct (PosixPath.basename src); [congruence|]. simpl. lia.
Qed.

Lemma move_file_lands (w : world) (src tf : pystr) (c : list N) (t : Z) :
  fs w !! src = Some (File c t) →
  PosixPath.basename src ≠ [] →
  fs w !! plain_target tf src = None →
  move_fault w = None →
  snd (OS.makedirs w tf) = Ret tt →
  ∃ w',
    move_file w src tf = (w', Ret (true, plain_target tf src))
    ∧ fs w' !! plain_target tf src = Some (File c t)
    ∧ fs w' !! src = None
    ∧ (∃ t', fs w' !! tf = Some (Dir t'))
    ∧ (∀ k n, k ≠ src → fs w !! k = Some n → fs w' !! k = Some n)
    ∧ moves w' = [(src, plain_target tf src)] ++ moves w.
Proof.
  intros Hsrc Hname Hfree Hfault Hmk.
  rewrite move_file_unfold, (path_exists_true _ _ _ Hsrc). cbn [negb].
  destruct (OS.makedirs w tf) as [w1 r] eqn:Em. cbn [snd] in Hmk. subst r.
  destruct (makedirs_frame _ _ _ _ Em) as (_ & _ & Hmf & Hmv & Hkeep & Hlong).
  destruct (makedirs_made _ _ _ Em) as [t' Hdir].
  set (tp := plain_target tf src) in *.
  assert (Hfree1 : fs w1 !! tp = None).
  { rewrite Hlong; [exact Hfree | now apply plain_target_length]. }
  unfold chosen_target. fold tp. rewrite (path_exists_false _ _ Hfree1).
  rewrite (shutil_move_onto_free w1 src tp (File c t));
    [|congruence|now apply Hkeep|exact Hfree1].
  pose proof (Hkeep _ _ Hsrc) as Hsrc1.
  eexists. split; [reflexivity|]. cbn [fs set_fs moves log_move].
  split; [apply lookup_insert_eq|].
  split; [rewrite lookup_insert_ne by congruence; apply lookup_delete_eq|].
  split.
  { exists t'. rewrite lookup_insert_ne, lookup_delete_ne by congruence.
    exact Hdir. }
  split; [|now rewrite Hmv].
  intros k n Hk Hkn.
  rewrite lookup_insert_ne, lookup_delete_ne by congruence.
  now apply Hkeep.
Qed.

(** X5. When the name is free in the target folder, move_file makes the
    folder (a directory afterwards), moves the regular file to
    folder/name with its content and time stamp, leaves every other entry
    as it was, and has called shutil.move exactly once. *)
Theorem move_file_plain (w : world) (src tf : pystr) (c : list N) (t : Z) :
  fs w !! src = Some (File c t) →
  PosixPath.basename src ≠ [] →
  fs w !! plain_target tf src = None →
  move_fault w = None →
  snd (OS.makedirs w tf) = Ret tt →
  ∃ w',
    move_file w src tf = (w', Ret (true, plain_target tf src))
    ∧ fs w' !! plain_target tf src = Some (File c t)
    ∧ fs w' !! src = None
    ∧ (∃ t', fs w' !! tf = Some (Dir t'))
    ∧ (∀ k n, k ≠ src → fs w !! k = Some n → fs w' !! k = Some n)
    ∧ moves w' = [(src, plain_target tf src)] ++ moves w.
Proof.
  exact (move_file_lands w src tf c t).
Qed.

Lemma move_file_plain_witness :
  snd (move_file w_settled report (ustr "/data/Acme/20240305"))
  = Ret (true, ustr "/data/Acme/20240305/report.pdf").
Proof.
  destruct (move_file_plain w_settled report (ustr "/data/Acme/20240305")
              [37; 80; 68; 70]%N 1709632800) as (w' & E & _).
  - vm_compute. reflexivity.
  - vm_compute. discriminate.
  - vm_compute. reflexivity.
  - reflexivity.
  - vm_compute. reflexivity.
  - rewrite E. cbn [snd]. f_equal; f_equal; vm_compute; reflexivity.
Defined.

(** X6. os.makedirs runs outside the try block: when the host refuses it,
    when the target folder is the empty string, or when the target folder
    or one of its parents is a regular file, move_file raises instead of
    returning a failure result; the source stays and shutil.move is not
    called. *)
Theorem move_file_mkdir_raises (w : world) (src tf : pystr) :
  OS.path_exists w src = true →
  (is_Some (mkdir_fault w) ∨ tf = []
   ∨ ∃ a c t, a ∈ OS.ancestors tf ∧ fs w !! a = Some (File c t)) →
  ∃ w1 e, move_file w src tf = (w1, Raise e)
          ∧ fs w1 !! src = fs w !! src
          ∧ moves w1 = moves w.
Proof.
  intros Hex Hwhy. rewrite move_file_unfold, Hex. cbn [negb].
  apply path_exists_Some in Hex as [n Hn].
  destruct (OS.makedirs w tf) as [w1 r] eqn:Em.
  destruct (makedirs_frame _ _ _ _ Em) as (_ & _ & _ & Hmv & Hkeep & _).
  assert (Hr : ∃ e, r = Raise e).
  { unfold OS.makedirs in Em.
    destruct Hwhy as [[msg Hf]|[->|(a & c & t & Ha & Hfile)]].
    - rewrite Hf in Em. injection Em as _ <-. eauto.
    - destruct (mkdir_fault w); [injection Em as _ <-; eauto|].
      cbn in Em. injection Em as _ <-. eauto.
    - destruct (mkdir_fault w); [injection Em as _ <-; eauto|].
      destruct (negb (truthy tf)); [injection Em as _ <-; eauto|].
      pose proof (mkdirs_blocked _ (clock w) _ _ _ _ Ha Hfile) as Hb.
      destruct (OS.mkdirs _ _ _) as [m ok]. cbn [snd] in Hb. subst ok.
      injection Em as _ <-. eauto. }
  destruct Hr as [e ->]. exists w1, e.
  split; [reflexivity|]. split; [|exact Hmv].
  now rewrite (Hkeep _ _ Hn).
Qed.

Lemma move_file_mkdir_raises_witness :
  ∃ w1 e, move_file w_settled report report = (w1, Raise e)
          ∧ fs w1 !! report = fs w_settled !! report.
Proof.
  destruct (move_file_mkdir_raises w_settled report report) as (w1 & e & E & H & _).
  - vm_compute. reflexivity.
  - right. right. exists report, [37; 80; 68; 70]%N, 1709632800.
    split; [|vm_compute; reflexivity].
    apply (bool_decide_unpack _). vm_compute. exact I.
  - eauto.
Defined.

(** X7. Whatever move_file does with a source that is no folder, it
    calls shutil.move at most once, and every entry of the tree other
    than the source and the one path it hands to shutil.move is still
    there afterwards, unchanged. *)
Theorem move_file_frame (w w' : world) (src tf : pystr)
    (r : outcome (bool * pystr)) :
  OS.isdir w src = false →
  move_file w src tf = (w', r) →
  (length (moves w') ≤ S (length (moves w)))%nat
  ∧ ∀ k n, fs w !! k = Some n → k ≠ src →
           k ≠ chosen_target (fst (OS.makedirs w tf)) tf src →
           fs w' !! k = Some n.
Proof.
  intros _. rewrite move_file_unfold.
  destruct (OS.path_exists w src); cbn [negb];
    [|intros [= <- _]; split; [lia|auto]].
  destruct (OS.makedirs w tf) as [w1 [[]|e]] eqn:Em; cbn [fst];
    destruct (makedirs_frame _ _ _ _ Em) as (_ & _ & _ & Hmv & Hkeep & _).
  - destruct (OS.shutil_move w1 src _) as [w2 r2] eqn:Es.
    assert (Hlen : (length (moves w2) ≤ S (length (moves w)))%nat).
    { rewrite (shutil_move_logged _ _ _ _ _ Es), Hmv. simpl. lia. }
    assert (Hfr : ∀ k n, fs w !! k = Some n → k ≠ src →
                   k ≠ chosen_target w1 tf src → fs w2 !! k = Some n).
    { intros k n Hk Hs Hd. eapply shutil_move_frame; eauto. }
    destruct r2; intros [= <- _]; split; auto.
  - intros [= <- _]. split; [rewrite Hmv; lia|]. intros k n Hk _ _. auto.
Qed.

Lemma move_file_frame_witness :
  fs (fst (move_file w_stamp_taken (ustr "/dl/a.txt") (ustr "/out")))
    !! ustr "/out/a.txt" = Some (File [9]%N 5).
Proof.
  apply (proj2 (move_file_frame w_stamp_taken _ (ustr "/dl/a.txt") (ustr "/out") _
                  ltac:(vm_compute; reflexivity) (surjective_pairing _))).
  - vm_compute. reflexivity.
  - vm_compute. discriminate.
  - vm_compute. discriminate.
Defined.

(* ===================================================================== *)
(** * More on the settle probe and its retry loop *)
(* ===================================================================== *)

Lemma attempts_calls timeline cb p n s :
  calls (snd (attempts timeline cb p n s)) = calls s
  ∨ calls (snd (attempts timeline cb p n s)) = p :: calls s.
Proof.
  revert s. induction n as [|n IH]; intros s; cbn [attempts]; [now left|].
  pose proof (is_file_ready_trace timeline p s) as (_ & Hc & _).
  destruct (_is_file_ready timeline p s) as [[[|]|e] s1]; cbn [snd] in *.
  - right. simpl. now rewrite Hc.
  - destruct (IH (sleep_half s1)) as [H|H]; rewrite H; simpl; rewrite Hc; auto.
  - now left.
Qed.

Lemma process_file_calls timeline cb p s :
  calls (snd (_process_file timeline cb p s)) = calls s
  ∨ calls (snd (_process_file timeline cb p s)) = p :: calls s.
Proof.
  unfold _process_file. destruct (negb _); [now left | apply attempts_calls].
Qed.

(** X8. Handling one event calls the callback at most once, and only
    with the event's own path: the source path for a created event, the
    destination path for a moved event. A directory event changes
    nothing. *)
Theorem handler_calls_at_most_once (timeline : nat → world)
    (cb : pystr → outcome unit) (event : fs_event) (s : probing) :
  (calls (snd (FileCreationHandler.on_created timeline cb event s)) = calls s
   ∨ calls (snd (FileCreationHandler.on_created timeline cb event s))
     = src_path event :: calls s)
  ∧ (calls (snd (FileCreationHandler.on_moved timeline cb event s)) = calls s
     ∨ calls (snd (FileCreationHandler.on_moved timeline cb event s))
       = dest_path event :: calls s)
  ∧ (is_directory event = true →
     FileCreationHandler.on_created timeline cb event s = (Ret tt, s)
     ∧ FileCreationHandler.on_moved timeline cb event s = (Ret tt, s)).
Proof.
  unfold FileCreationHandler.on_created, FileCreationHandler.on_moved.
  destruct (is_directory event).
  - split; [now left|]. split; [now left|]. auto.
  - split; [apply process_file_calls|]. split; [apply process_file_calls|].
    discriminate.
Qed.

Lemma handler_calls_at_most_once_witness :
  FileCreationHandler.on_created (λ _, w_settled) accept
    {| is_directory := true; src_path := report; dest_path := [] |} fresh_probe
  = (Ret tt, fresh_probe).
Proof.
  apply (proj2 (proj2 (handler_calls_at_most_once (λ _, w_settled) accept
                         {| is_directory := true; src_path := report;
                            dest_path := [] |} fresh_probe))).
  reflexivity.
Defined.

Lemma attempts_first_ready timeline cb p i : ∀ n s,
  (i < n)%nat →
  (∀ j, (j < i)%nat →
     fst (_is_file_ready timeline p (attempt_start timeline p j s)) = Ret false) →
  fst (_is_file_ready timeline p (attempt_start timeline p i s)) = Ret true →
  let r := attempts timeline cb p n s in
  fst r = cb p ∧ calls (snd r) = p :: calls s
  ∧ probes (snd r) = (probes s + S i)%nat.
Proof.
  induction i as [|i IH]; intros n s Hn Hfail Hready;
    (destruct n as [|n]; [lia|]); cbn [attempts].
  - cbn [attempt_start] in Hready.
    pose proof (is_file_ready_trace timeline p s) as (Hp & Hc & _).
    destruct (_is_file_ready timeline p s) as [r s1]; cbn [fst snd] in *.
    subst r. cbn. rewrite Hc, Hp. split; [reflexivity|]. split; [reflexivity|lia].
  - pose proof (Hfail O ltac:(lia)) as H0. cbn [attempt_start] in H0, Hready.
    pose proof (is_file_ready_trace timeline p s) as (Hp & Hc & _).
    assert (Hrest : ∀ j, (j < i)%nat →
              fst (_is_file_ready timeline p
                     (attempt_start timeline p j
                        (sleep_half (snd (_is_file_ready timeline p s))))) = Ret false).
    { intros j Hj. apply (Hfail (S j)). lia. }
    destruct (_is_file_ready timeline p s) as [r s1]; cbn [fst snd] in *.
    subst r.
    destruct (IH n (sleep_half s1) ltac:(lia) Hrest Hready) as (Hr & Hcalls & Hprobes).
    split; [exact Hr|]. split.
    + rewrite Hcalls. simpl. now rewrite Hc.
    + rewrite Hprobes. simpl. lia.
Qed.

(** X9. When the earlier probes find the file not ready and probe number
    i (counted from 0, below 10) finds it ready, _process_file stops
    there: it has probed i+1 times, calls the callback once with the path,
    and ends as the callback ends (an exception of the callback is not
    caught). *)
Theorem process_file_first_ready (timeline : nat → world)
    (cb : pystr → outcome unit) (p : pystr) (s : probing) (i : nat) :
  OS.isfile (timeline (tick s)) p = true →
  (i < 10)%nat →
  (∀ j, (j < i)%nat →
     fst (_is_file_ready timeline p (attempt_start timeline p j s)) = Ret false) →
  fst (_is_file_ready timeline p (attempt_start timeline p i s)) = Ret true →
  fst (_process_file timeline cb p s) = cb p
  ∧ calls (snd (_process_file timeline cb p s)) = p :: calls s
  ∧ probes (snd (_process_file timeline cb p s)) = (probes s + S i)%nat.
Proof.
  intros Hfile Hi Hfail Hready. unfold _process_file. rewrite Hfile. cbn [negb].
  now apply attempts_first_ready.
Qed.

Lemma process_file_first_ready_witness :
  fst (_process_file (λ t, if (t <? 2)%nat then w_empty_settling else w_settled)
         accept report fresh_probe) = Ret tt
  ∧ probes (snd (_process_file
                   (λ t, if (t <? 2)%nat then w_empty_settling else w_settled)
                   accept report fresh_probe)) = 2%nat.
Proof.
  destruct (process_file_first_ready
              (λ t, if (t <? 2)%nat then w_empty_settling else w_settled)
              accept report fresh_probe 1) as (H1 & _ & H3).
  - vm_compute. reflexivity.
  - lia.
  - intros j Hj. destruct j as [|j]; [vm_compute; reflexivity | lia].
  - vm_compute. reflexivity.
  - split; [exact H1 | exact H3].
Defined.

Ltac close_sleeps :=
  cbn; rewrite <- ?app_assoc, ?length_app; cbn;
  repeat split; try reflexivity; try lia;
  try (apply Forall_app; split); try assumption; repeat constructor.

(** A probe sleeps once, or not at all when its first read fails. *)
Lemma is_file_ready_sleeps timeline p s :
  ∃ new, sleeps (snd (_is_file_ready timeline p s)) = new ++ sleeps s
         ∧ (length new ≤ 1)%nat ∧ Forall (eq 500) new
         ∧ tick (snd (_is_file_ready timeline p s)) = (tick s + length new)%nat.
Proof.
  unfold _is_file_ready.
  destruct (OS.getsize (timeline (tick (count_probe s))) p) as [z0|e0].
  - exists [500]. destruct (OS.getsize _ p) as [z1|e1]; [|destruct (caught e1)];
      close_sleeps.
  - exists []. destruct (caught e0); close_sleeps.
Qed.

Lemma attempts_sleeps timeline cb p n : ∀ s, ∃ new,
  sleeps (snd (attempts timeline cb p n s)) = new ++ sleeps s
  ∧ (length new ≤ 2 * n)%nat ∧ Forall (eq 500) new
  ∧ tick (snd (attempts timeline cb p n s)) = (tick s + length new)%nat.
Proof.
  induction n as [|n IH]; intros s; cbn [attempts].
  - exists []. close_sleeps.
  - destruct (is_file_ready_sleeps timeline p s) as (new0 & Hs & Hl & Hall & Ht).
    destruct (_is_file_ready timeline p s) as [[[|]|e] s1]; cbn [snd] in *.
    + exists new0. cbn. repeat split; auto; lia.
    + destruct (IH (sleep_half s1)) as (new & Hn & Hl' & Hall' & Ht').
      exists (new ++ 500 :: new0). rewrite Hn, Ht'. cbn. rewrite Hs, Ht.
      rewrite <- app_assoc, length_app. cbn.
      repeat split; try lia.
      apply Forall_app. split; [exact Hall' | now constructor].
    + exists new0. repeat split; auto; lia.
Qed.

(** X10. A single probe sleeps at most once, for half a second, and
    _process_file sleeps at most twenty times, half a second each: it
    holds the thread that delivers the event for at most ten seconds
    before the callback runs or the file is given up. *)
Theorem process_file_sleep_bound (timeline : nat → world)
    (cb : pystr → outcome unit) (p : pystr) (s : probing) :
  (∃ new, sleeps (snd (_is_file_ready timeline p s)) = new ++ sleeps s
          ∧ (length new ≤ 1)%nat
          ∧ Forall (eq 500) new
          ∧ tick (snd (_is_file_ready timeline p s)) = (tick s + length new)%nat)
  ∧ (∃ new, sleeps (snd (_process_file timeline cb p s)) = new ++ sleeps s
            ∧ (length new ≤ 20)%nat
            ∧ Forall (eq 500) new
            ∧ tick (snd (_process_file timeline cb p s)) = (tick s + length new)%nat).
Proof.
  split; [apply is_file_ready_sleeps|].
  unfold _process_file. destruct (negb _).
  - exists []. close_sleeps.
  - destruct (attempts_sleeps timeline cb p max_attempts s) as (new & H1 & H2 & H3 & H4).
    exists new. unfold max_attempts in H2. repeat split; auto; lia.
Qed.

(* ===================================================================== *)
(** * More on the monitor: which events start a timer *)
(* ===================================================================== *)

Lemma rfind_from_none c n i found :
  c ∉ n → PosixPath.rfind_from c n i found = found.
Proof.
  revert i found. induction n as [|x n IH]; intros i found H; [reflexivity|].
  apply not_elem_of_cons in H as [Hx Hn]. cbn [PosixPath.rfind_from].
  rewrite IH by assumption.
  destruct (N.eqb_spec x c); [congruence | reflexivity].
Qed.

Lemma rfind_from_last c d n i found :
  c ∉ n →
  PosixPath.rfind_from c (d ++ c :: n) i found = i + Z.of_nat (length d).
Proof.
  intros Hn. revert i found. induction d as [|x d IH]; intros i found.
  - cbn [app PosixPath.rfind_from length]. rewrite N.eqb_refl.
    rewrite rfind_from_none by assumption. lia.
  - cbn [app PosixPath.rfind_from]. rewrite IH. simpl length. lia.
Qed.

(** The last component of folder/name is the name. *)
Lemma basename_join d n :
  Chr.slash ∉ n → PosixPath.basename (d ++ Chr.slash :: n) = n.
Proof.
  intros Hn. unfold PosixPath.basename, PosixPath.rfind, PosixPath.slice_from.
  rewrite rfind_from_last by assumption.
  replace (Z.to_nat (0 + Z.of_nat (length d) + 1)) with (length (d ++ [Chr.slash]))
    by (rewrite length_app; simpl; lia).
  change (d ++ Chr.slash :: n) with (d ++ [Chr.slash] ++ n).
  rewrite app_assoc. apply drop_app_length.
Qed.

Lemma startswith_app a b : startswith (a ++ b) a = true.
Proof.
  induction a as [|x a IH]; [now destruct b|].
  simpl. now rewrite N.eqb_refl.
Qed.

Lemma should_process_name d n :
  Chr.slash ∉ n →
  _should_process (d ++ Chr.slash :: n)
  = negb (startswith n (ustr "."))
    && negb (existsb (endswith n) incomplete_markers).
Proof.
  intros Hn. unfold _should_process.
  rewrite truthy_true by now destruct d. cbn [negb].
  rewrite (basename_join d n Hn).
  destruct (startswith n (ustr ".")); [reflexivity|].
  fold incomplete_markers.
  now destruct (existsb (endswith n) incomplete_markers).
Qed.

(** X11. A file whose name starts with a dot or ends in one of the
    incomplete-download suffixes (.tmp, .crdownload, .partial, .download)
    never starts a timer, whichever event names it: created and modified
    events by their source path, moved events by their destination. *)
Theorem incomplete_downloads_ignored (d n : pystr) (event : fs_event) :
  Chr.slash ∉ n →
  startswith n (ustr ".") = true
  ∨ Exists (λ suf, endswith n suf = true) incomplete_markers →
  _should_process (d ++ Chr.slash :: n) = false
  ∧ (src_path event = d ++ Chr.slash :: n →
     on_created event = [] ∧ on_modified event = [])
  ∧ (dest_path event = d ++ Chr.slash :: n → on_moved event = []).
Proof.
  intros Hn Hbad.
  assert (H : _should_process (d ++ Chr.slash :: n) = false).
  { rewrite (should_process_name d n Hn).
    destruct Hbad as [->|Hex]; [reflexivity|].
    apply andb_false_iff. right. apply negb_false_iff.
    apply existsb_exists. apply Exists_exists in Hex as (suf & Hin & Hsuf).
    exists suf. split; [now apply list_elem_of_In | exact Hsuf]. }
  split; [exact H|]. unfold on_created, on_modified, on_moved.
  split; intros ->; rewrite H; now destruct (is_directory event).
Qed.

Lemma incomplete_downloads_ignored_witness :
  on_created {| is_directory := false;
                src_path := ustr "/dl/setup.zip.crdownload";
                dest_path := [] |} = [].
Proof.
  apply (proj1 (proj2 (incomplete_downloads_ignored (ustr "/dl")
                         (ustr "setup.zip.crdownload")
                         {| is_directory := false;
                            src_path := ustr "/dl/setup.zip.crdownload";
                            dest_path := [] |}
                         ltac:(apply (bool_decide_unpack _); vm_compute; exact I)
                         ltac:(right; right; left; reflexivity)))).
  reflexivity.
Defined.

(** X12. For any other file name, a file event starts exactly one timer
    for the event's path: after 2 s for a created event, 3 s for a
    modified event (both by source path) and 1 s for a moved event (by
    destination path, whatever the source name was). *)
Theorem completed_download_scheduled (d n : pystr) (event : fs_event) :
  Chr.slash ∉ n →
  startswith n (ustr ".") = false →
  Forall (λ suf, endswith n suf = false) incomplete_markers →
  is_directory event = false →
  (src_path event = d ++ Chr.slash :: n →
   on_created event = [(2000, d ++ Chr.slash :: n)]
   ∧ on_modified event = [(3000, d ++ Chr.slash :: n)])
  ∧ (dest_path event = d ++ Chr.slash :: n →
     on_moved event = [(1000, d ++ Chr.slash :: n)]).
Proof.
  intros Hn Hdot Hsuf Hfile.
  assert (H : _should_process (d ++ Chr.slash :: n) = true).
  { rewrite (should_process_name d n Hn), Hdot. cbn [negb andb].
    apply negb_true_iff.
    destruct (existsb (endswith n) incomplete_markers) eqn:E; [|reflexivity].
    apply existsb_exists in E as (suf & Hin & Hs).
    rewrite Forall_forall in Hsuf.
    apply list_elem_of_In, Hsuf in Hin. congruence. }
  unfold on_created, on_modified, on_moved. rewrite Hfile. cbn [negb].
  split; intros ->; now rewrite H.
Qed.

Lemma completed_download_scheduled_witness :
  on_moved {| is_directory := false;
              src_path := ustr "/dl/setup.zip.crdownload";
              dest_path := ustr "/dl/setup.zip" |}
  = [(1000, ustr "/dl/setup.zip")].
Proof.
  apply (proj2 (completed_download_scheduled (ustr "/dl") (ustr "setup.zip")
                  {| is_directory := false;
                     src_path := ustr "/dl/setup.zip.crdownload";
                     dest_path := ustr "/dl/setup.zip" |}
                  ltac:(apply (bool_decide_unpack _); vm_compute; exact I)
                  eq_refl ltac:(repeat constructor) eq_refl)).
  reflexivity.
Defined.

(* ===================================================================== *)
(** * More on the monitor: the processed set over a run *)
(* ===================================================================== *)

Lemma seed_fields (g : pystr → pystr) (names : list pystr) (c : monitor) :
  let c' := fold_left (λ c f, claim c (g f)) names c in
  callback c' = callback c ∧ host c' = host c ∧ forwarded c' = forwarded c
  ∧ processed_files c ⊆ processed_files c'
  ∧ ∀ f, f ∈ names → g f ∈ processed_files c'.
Proof.
  revert c. induction names as [|f names IH]; intros c; cbn [fold_left].
  - repeat split; auto. intros f H. now apply elem_of_nil in H.
  - destruct (IH (claim c (g f))) as (H1 & H2 & H3 & H4 & H5).
    cbn [claim callback host forwarded processed_files] in *.
    split; [exact H1|]. split; [exact H2|]. split; [exact H3|]. split.
    + intros x Hx. apply H4, elem_of_union. now left.
    + intros f' Hin. apply elem_of_cons in Hin as [->|Hin]; [|auto].
      apply H4, elem_of_union. right. now apply elem_of_singleton.
Qed.

Lemma child_of_join folder name :
  name ≠ [] → Chr.slash ∉ name →
  child_of folder (PosixPath.join folder [name]) = Some name.
Proof.
  intros Hne Hs.
  assert (Hrel : startswith name PosixPath.sep = false).
  { apply not_absolute. intros t ->. apply Hs. left. }
  rewrite (join_plain _ _ Hrel). unfold child_of.
  rewrite startswith_app, drop_app_length, (truthy_true _ Hne). cbn [andb].
  destruct (existsb _ name) eqn:E; [|reflexivity].
  apply existsb_exists in E as (x & Hin & Hx).
  apply N.eqb_eq in Hx. subst. now apply list_elem_of_In in Hin.
Qed.

Lemma listdir_lists w folder name n t :
  fs w !! folder = Some (Dir t) →
  name ≠ [] → Chr.slash ∉ name →
  fs w !! PosixPath.join folder [name] = Some n →
  ∃ names, listdir w folder = Ret names ∧ name ∈ names.
Proof.
  intros Hdir Hne Hs Hn. unfold listdir. rewrite Hdir.
  eexists. split; [reflexivity|].
  apply list_elem_of_omap. exists (PosixPath.join folder [name]).
  split; [|now apply child_of_join].
  apply list_elem_of_fmap. exists (PosixPath.join folder [name], n).
  split; [reflexivity|]. now apply elem_of_map_to_list.
Qed.

(** X13. start puts every entry that lies directly in the watched folder
    at that moment into processed_files without calling the callback, so
    a later timer for such a path does nothing: files that were already
    there are never handed on. On a monitor that is running, or without
    watchdog, start changes nothing. *)
Theorem start_ignores_present (observe : world → pystr → outcome unit)
    (m : DownloadsMonitor.t) (name : pystr) :
  (DownloadsMonitor.running m = false →
   OS.isdir (host (DownloadsMonitor.core m)) (DownloadsMonitor.folder_path m) = true →
   name ≠ [] → Chr.slash ∉ name →
   is_Some (fs (host (DownloadsMonitor.core m))
              !! PosixPath.join (DownloadsMonitor.folder_path m) [name]) →
   let c' := DownloadsMonitor.core (snd (DownloadsMonitor.start true observe m)) in
   PosixPath.join (DownloadsMonitor.folder_path m) [name] ∈ processed_files c'
   ∧ forwarded c' = forwarded (DownloadsMonitor.core m)
   ∧ _on_file_created c' (PosixPath.join (DownloadsMonitor.folder_path m) [name]) = c')
  ∧ (DownloadsMonitor.running m = true →
     DownloadsMonitor.start true observe m = (Ret true, m))
  ∧ DownloadsMonitor.start false observe m = (Ret false, m).
Proof.
  split; [|split; [intros H; unfold DownloadsMonitor.start; now rewrite H
                  | reflexivity]].
  intros Hrun Hdir Hne Hs [n Hn]. cbv zeta.
  unfold OS.isdir in Hdir.
  destruct (fs (host (DownloadsMonitor.core m)) !! DownloadsMonitor.folder_path m)
    as [[c t|t]|] eqn:Ef; try discriminate.
  destruct (listdir_lists _ _ _ _ _ Ef Hne Hs Hn) as (names & Hl & Hin).
  unfold DownloadsMonitor.start. rewrite Hrun. cbn [negb].
  rewrite (path_exists_true _ _ _ Ef), Hl.
  destruct (seed_fields (λ f, PosixPath.join (DownloadsMonitor.folder_path m) [f])
              names (DownloadsMonitor.core m)) as (_ & _ & Hfw & _ & Hall).
  set (c := fold_left _ names (DownloadsMonitor.core m)) in *.
  assert (Hc : PosixPath.join (DownloadsMonitor.folder_path m) [name]
               ∈ processed_files c) by now apply Hall.
  destruct (observe (host c) (DownloadsMonitor.folder_path m));
    cbn [snd DownloadsMonitor.core];
    (split; [exact Hc|]); (split; [exact Hfw|]);
    now apply on_file_created_claimed.
Qed.

Lemma start_ignores_present_witness :
  _on_file_created
    (DownloadsMonitor.core
       (snd (DownloadsMonitor.start true observe_ok downloads_monitor)))
    (ustr "/dl/old.pdf")
  = DownloadsMonitor.core
      (snd (DownloadsMonitor.start true observe_ok downloads_monitor)).
Proof.
  apply (proj1 (start_ignores_present observe_ok downloads_monitor
                  (ustr "old.pdf"))).
  - reflexivity.
  - vm_compute. reflexivity.
  - discriminate.
  - apply (bool_decide_unpack _). vm_compute. exact I.
  - exists (File [1]%N 2). vm_compute. reflexivity.
Defined.

Lemma on_file_created_step m p :
  callback (_on_file_created m p) = callback m
  ∧ processed_files m ⊆ processed_files (_on_file_created m p)
  ∧ (forwarded (_on_file_created m p) = forwarded m
     ∨ forwarded (_on_file_created m p) = p :: forwarded m
       ∧ (p ∉ processed_files m)
       ∧ p ∈ processed_files (_on_file_created m p)).
Proof.
  unfold _on_file_created.
  destruct (bool_decide (p ∈ processed_files m)) eqn:E; [auto|].
  apply bool_decide_eq_false in E.
  destruct (OS.path_exists (host m) p); cbn [negb]; [|auto].
  rewrite call_back_callback, call_back_processed. cbn [claim callback processed_files].
  split; [reflexivity|].
  split; [intros x Hx; apply elem_of_union; now left|].
  unfold call_back. cbn [claim callback].
  destruct (callback m); cbn [forwarded claim]; [|now left].
  right. split; [reflexivity|]. split; [exact E|].
  apply elem_of_union. right. now apply elem_of_singleton.
Qed.

(** X14. Over any sequence of timer callbacks run one after the other,
    no path is handed to the callback twice and none that was already in
    processed_files is handed on at all; processed_files only grows, and
    every path handed on is in it. *)
Theorem feed_never_repeats (m : monitor) (paths : list pystr) :
  NoDup (forwarded m) →
  (∀ p, p ∈ forwarded m → p ∈ processed_files m) →
  NoDup (forwarded (feed m paths))
  ∧ (∀ p, p ∈ forwarded (feed m paths) → p ∈ processed_files (feed m paths))
  ∧ processed_files m ⊆ processed_files (feed m paths)
  ∧ ∃ new, forwarded (feed m paths) = new ++ forwarded m
           ∧ ∀ p, p ∈ new → p ∈ paths ∧ p ∉ processed_files m.
Proof.
  revert m. induction paths as [|q paths IH]; intros m Hnd Hsub.
  - cbn. repeat split; auto. exists []. split; [reflexivity|].
    intros p H. now apply elem_of_nil in H.
  - change (feed m (q :: paths)) with (feed (_on_file_created m q) paths).
    destruct (on_file_created_step m q) as (_ & Hmono & Hfw).
    set (m1 := _on_file_created m q) in *.
    assert (Hnd1 : NoDup (forwarded m1)).
    { destruct Hfw as [->|(-> & Hq & _)]; [exact Hnd|].
      constructor; [|exact Hnd]. intros Hin. apply Hq, Hsub, Hin. }
    assert (Hsub1 : ∀ p, p ∈ forwarded m1 → p ∈ processed_files m1).
    { intros p Hp. destruct Hfw as [E|(E & _ & Hq)]; rewrite E in Hp.
      - apply Hmono, Hsub, Hp.
      - apply elem_of_cons in Hp as [->|Hp]; [exact Hq|]. apply Hmono, Hsub, Hp. }
    destruct (IH m1 Hnd1 Hsub1) as (H1 & H2 & H3 & new & Hnew & Hfresh).
    split; [exact H1|]. split; [exact H2|].
    split; [intros x Hx; apply H3, Hmono, Hx|].
    destruct Hfw as [E|(E & Hq & _)]; rewrite E in Hnew.
    + exists new. split; [exact Hnew|].
      intros p Hp. destruct (Hfresh p Hp) as [Hin Hnot].
      split; [now right | intros Hm; apply Hnot, Hmono, Hm].
    + exists (new ++ [q]). rewrite <- app_assoc. split; [exact Hnew|].
      intros p Hp. apply elem_of_app in Hp as [Hp|Hp].
      * destruct (Hfresh p Hp) as [Hin Hnot].
        split; [now right | intros Hm; apply Hnot, Hmono, Hm].
      * apply list_elem_of_singleton in Hp. subst. split; [left | exact Hq].
Qed.

Lemma feed_never_repeats_witness :
  NoDup (forwarded (feed idle_monitor [report; report; ustr "/dl/x"; report])).
Proof.
  apply (feed_never_repeats idle_monitor [report; report; ustr "/dl/x"; report]).
  - constructor.
  - intros p H. now apply elem_of_nil in H.
Defined.

(* ===================================================================== *)
(** * The folder watcher *)
(* ===================================================================== *)

Lemma watcher_start_cases observe w x :
  FileWatcher._running x = false →
  let '(w', r, x') := FileWatcher.start observe w x in
  FileWatcher.watch_folder x' = FileWatcher.watch_folder x
  ∧ (r = Ret tt →
     FileWatcher._running x' = true
     ∧ FileWatcher.observer x' = Some (FileWatcher.watch_folder x)
     ∧ OS.path_exists w' (FileWatcher.watch_folder x) = true
     ∧ (OS.path_exists w (FileWatcher.watch_folder x) = true → w' = w))
  ∧ (∀ e, r = Raise e → FileWatcher._running x' = false).
Proof.
  intros Hrun. unfold FileWatcher.start. rewrite Hrun.
  destruct (OS.path_exists w (FileWatcher.watch_folder x)) eqn:Hex; cbn [negb].
  - destruct (observe w (FileWatcher.watch_folder x)) as [[]|e];
      cbn [FileWatcher.watch_folder FileWatcher._running FileWatcher.observer].
    + split; [reflexivity|]. split; [auto|]. discriminate.
    + split; [reflexivity|]. split; [discriminate|]. auto.
  - destruct (OS.makedirs w (FileWatcher.watch_folder x)) as [w1 [[]|e]] eqn:Em.
    + destruct (makedirs_made _ _ _ Em) as [t Hdir].
      destruct (observe w1 (FileWatcher.watch_folder x)) as [[]|e];
        cbn [FileWatcher.watch_folder FileWatcher._running FileWatcher.observer].
      * split; [reflexivity|]. split; [|discriminate]. intros _.
        split; [reflexivity|]. split; [reflexivity|].
        split; [eapply path_exists_true, Hdir | discriminate].
      * split; [reflexivity|]. split; [discriminate|]. auto.
    + split; [reflexivity|]. split; [discriminate|]. auto.
Qed.

(** X15. While a FileWatcher is running, its observer is scheduled on the
    current watch folder: start, stop and set_watch_folder all keep this,
    whether they return or raise. *)
Theorem watcher_consistent (path : pystr → pystr)
    (observe : world → pystr → outcome unit) (w : world)
    (x : FileWatcher.t) (folder : pystr) :
  FileWatcher.consistent (FileWatcher.init path folder)
  ∧ (FileWatcher.consistent x →
     FileWatcher.consistent (snd (FileWatcher.start observe w x))
     ∧ FileWatcher.consistent (FileWatcher.stop x)
     ∧ FileWatcher.consistent
         (snd (FileWatcher.set_watch_folder path observe w x folder))).
Proof.
  assert (Hstart : ∀ y, FileWatcher._running y = false →
            FileWatcher.consistent (snd (FileWatcher.start observe w y))).
  { intros y Hy. pose proof (watcher_start_cases observe w y Hy) as H.
    destruct (FileWatcher.start observe w y) as [[w' r] y'].
    destruct H as (Hf & Hok & Hraise). cbn [snd]. intros Hrun.
    destruct r as [[]|e].
    - destruct (Hok eq_refl) as (_ & Ho & _). now rewrite Ho, Hf.
    - rewrite (Hraise e eq_refl) in Hrun. discriminate. }
  split; [intros H; discriminate H|].
  intros Hx. split; [|split].
  - destruct (FileWatcher._running x) eqn:Hrun; [|now apply Hstart].
    unfold FileWatcher.start. now rewrite Hrun.
  - unfold FileWatcher.stop. destruct (FileWatcher._running x) eqn:Hrun;
      cbn [negb]; [intros H; discriminate H | exact Hx].
  - unfold FileWatcher.set_watch_folder, FileWatcher.stop.
    destruct (FileWatcher._running x) eqn:Hrun; cbn [negb].
    + now apply Hstart.
    + cbn [snd]. intros H. cbn in H. congruence.
Qed.

Lemma watcher_consistent_witness :
  FileWatcher.consistent
    (snd (FileWatcher.set_watch_folder (λ p, p) observe_ok w_settled
            (snd (FileWatcher.start observe_ok w_settled
                    (FileWatcher.init (λ p, p) (ustr "/dl"))))
            (ustr "/inbox"))).
Proof.
  pose proof (watcher_consistent (λ p, p) observe_ok w_settled
                (FileWatcher.init (λ p, p) (ustr "/dl")) (ustr "/dl"))
    as [Hinit Hops].
  destruct (Hops Hinit) as (Hstarted & _ & _).
  exact (proj2 (proj2 (proj2 (watcher_consistent (λ p, p) observe_ok w_settled
                                _ (ustr "/inbox")) Hstarted))).
Defined.

(** X16. start on a watcher that is not running: when it returns, the
    watcher runs, the observer watches the watch folder, and the folder
    exists (made with its parents when it was missing; the tree is left
    as it was when it was there). When it raises, the watcher is left not
    running. *)
Theorem watcher_start (observe : world → pystr → outcome unit) (w : world)
    (x : FileWatcher.t) :
  FileWatcher._running x = false →
  (fst (FileWatcher.start observe w x)).2 = Ret tt →
  FileWatcher.is_running (snd (FileWatcher.start observe w x)) = true
  ∧ FileWatcher.observer (snd (FileWatcher.start observe w x))
    = Some (FileWatcher.watch_folder x)
  ∧ OS.path_exists (fst (FileWatcher.start observe w x)).1
      (FileWatcher.watch_folder x) = true
  ∧ (OS.path_exists w (FileWatcher.watch_folder x) = true →
     (fst (FileWatcher.start observe w x)).1 = w).
Proof.
  intros Hrun Hret. pose proof (watcher_start_cases observe w x Hrun) as H.
  destruct (FileWatcher.start observe w x) as [[w' r] x'].
  cbn [fst snd] in *. destruct H as (_ & Hok & _). subst r.
  destruct (Hok eq_refl) as (H1 & H2 & H3 & H4). auto.
Qed.

Lemma watcher_start_witness :
  OS.path_exists
    (fst (FileWatcher.start observe_ok w_settled
            (FileWatcher.init (λ p, p) (ustr "/inbox/today")))).1
    (ustr "/inbox/today") = true.
Proof.
  apply (watcher_start observe_ok w_settled
           (FileWatcher.init (λ p, p) (ustr "/inbox/today"))).
  - reflexivity.
  - vm_compute. reflexivity.
Defined.

(** X17. set_watch_folder on a stopped watcher only records the new
    folder: nothing is created and nothing is watched. On a running
    watcher it restarts on the new folder: when it returns, the watcher
    runs again and the observer watches the new folder, not the old
    one. *)
Theorem watcher_set_watch_folder (path : pystr → pystr)
    (observe : world → pystr → outcome unit) (w : world)
    (x : FileWatcher.t) (folder : pystr) :
  (FileWatcher._running x = false →
   FileWatcher.set_watch_folder path observe w x folder
   = (w, Ret tt,
      {| FileWatcher.watch_folder := path folder;
         FileWatcher.observer := FileWatcher.observer x;
         FileWatcher.handler := FileWatcher.handler x;
         FileWatcher._running := false |}))
  ∧ (FileWatcher._running x = true →
     (fst (FileWatcher.set_watch_folder path observe w x folder)).2 = Ret tt →
     FileWatcher.is_running
       (snd (FileWatcher.set_watch_folder path observe w x folder)) = true
     ∧ FileWatcher.watch_folder
         (snd (FileWatcher.set_watch_folder path observe w x folder)) = path folder
     ∧ FileWatcher.observer
         (snd (FileWatcher.set_watch_folder path observe w x folder))
       = Some (path folder)).
Proof.
  unfold FileWatcher.set_watch_folder, FileWatcher.stop. split; intros Hrun.
  - rewrite Hrun. cbn [FileWatcher._running]. now rewrite Hrun.
  - rewrite Hrun. cbn [negb FileWatcher.watch_folder FileWatcher.observer
                         FileWatcher.handler FileWatcher._running].
    set (y := FileWatcher.Make (path folder) None (FileWatcher.handler x) false).
    pose proof (watcher_start_cases observe w y eq_refl) as H.
    destruct (FileWatcher.start observe w y) as [[w' r] y'].
    cbn [fst snd]. destruct H as (Hf & Hok & _). intros ->.
    destruct (Hok eq_refl) as (H1 & H2 & _). auto.
Qed.

Lemma watcher_set_watch_folder_witness :
  FileWatcher.observer
    (snd (FileWatcher.set_watch_folder (λ p, p) observe_ok w_settled
            (snd (FileWatcher.start observe_ok w_settled
                    (FileWatcher.init (λ p, p) (ustr "/dl"))))
            (ustr "/inbox")))
  = Some (ustr "/inbox").
Proof.
  apply (proj2 (watcher_set_watch_folder (λ p, p) observe_ok w_settled
                  (snd (FileWatcher.start observe_ok w_settled
                          (FileWatcher.init (λ p, p) (ustr "/dl"))))
                  (ustr "/inbox"))).
  - vm_compute. reflexivity.
  - vm_compute. reflexivity.
Defined.

(* ===================================================================== *)
(** * Zone.Identifier streams *)
(* ===================================================================== *)

Lemma split_on_none (c : N) (a : pystr) :
  c ∉ a → Zone.split_on c a = [a].
Proof.
  induction a as [|x a IH]; [reflexivity|].
  intros H. apply not_elem_of_cons in H as [Hx Ha].
  simpl. destruct (N.eqb_spec x c) as [->|_]; [congruence|].
  now rewrite IH.
Qed.

Lemma split_on_app (c : N) (a r : pystr) :
  c ∉ a → Zone.split_on c (a ++ c :: r) = a :: Zone.split_on c r.
Proof.
  induction a as [|x a IH]; intros H.
  - simpl. now rewrite N.eqb_refl.
  - apply not_elem_of_cons in H as [Hx Ha].
    simpl. destruct (N.eqb_spec x c) as [->|_]; [congruence|].
    now rewrite IH.
Qed.

Lemma split_once_app (c : N) (k v : pystr) :
  c ∉ k → Zone.split_once c (k ++ c :: v) = (k, v).
Proof.
  induction k as [|x k IH]; intros H.
  - simpl. now rewrite N.eqb_refl.
  - apply not_elem_of_cons in H as [Hx Hk].
    simpl. destruct (N.eqb_spec x c) as [->|_]; [congruence|].
    now rewrite IH.
Qed.

Lemma has_char_elem (c : N) (s : pystr) :
  Zone.has_char c s = true ↔ c ∈ s.
Proof.
  unfold Zone.has_char. induction s as [|x s IH]; simpl.
  - split; [discriminate | intros H; now apply elem_of_nil in H].
  - rewrite elem_of_cons, orb_true_iff, IH.
    destruct (N.eqb_spec x c) as [->|Hne]; split; auto.
    + intros [[=]|H]; auto.
    + intros [->|H]; [congruence | auto].
Qed.

Lemma has_char_not (c : N) (s : pystr) :
  c ∉ s → Zone.has_char c s = false.
Proof.
  intros H. destruct (Zone.has_char c s) eqn:E; [|reflexivity].
  now apply has_char_elem in E.
Qed.

(** A line without [=] leaves the dictionary as it is. *)
Lemma step_plain (info : gmap pystr pystr) (line : pystr) :
  Zone.equals ∉ line → Zone.step info line = info.
Proof. intros H. unfold Zone.step. now rewrite has_char_not. Qed.

(** A line key=value, with whitespace after the value, sets the key. *)
Lemma step_pair (info : gmap pystr pystr) (k v pad : pystr) :
  Zone.equals ∉ k → strip k = k → strip v = v →
  Forall (λ c, isspace c = true) pad →
  Zone.step info (k ++ [Zone.equals] ++ v ++ pad) = <[k := v]> info.
Proof.
  intros Hk Sk Sv Hpad. unfold Zone.step.
  assert (Hin : Zone.equals ∈ k ++ [Zone.equals] ++ v ++ pad).
  { apply elem_of_app. right. apply elem_of_cons. now left. }
  apply has_char_elem in Hin. rewrite Hin.
  change (k ++ [Zone.equals] ++ v ++ pad) with (k ++ Zone.equals :: (v ++ pad)).
  rewrite split_once_app by assumption.
  cbv iota beta. rewrite Sk.
  pose proof (strip_padding [] v pad (Forall_nil_2 _) Hpad) as E.
  simpl app in E. rewrite E. now rewrite Sv.
Qed.

Lemma fold_insert_list_to_map (kvs : list (pystr * pystr)) (m : gmap pystr pystr) :
  fold_left (λ m kv, <[kv.1 := kv.2]> m) kvs m = list_to_map (rev kvs) ∪ m.
Proof.
  revert m. induction kvs as [|[k v] kvs IH]; intros m.
  - simpl. now rewrite (left_id ∅ (∪)).
  - simpl. rewrite IH, list_to_map_app. simpl.
    rewrite <- (assoc_L (∪)). f_equal.
    rewrite insert_empty. now rewrite <- insert_union_singleton_l.
Qed.

Lemma zone_line_no_newline (kv : pystr * pystr) :
  zone_entry kv → Chr.newline ∉ kv.1 ++ [Zone.equals] ++ kv.2.
Proof.
  intros [[Hk _] [[Hv _] _]] H.
  apply elem_of_app in H as [H|H]; [auto|].
  apply elem_of_cons in H as [H|H]; [discriminate | auto].
Qed.

(** The lines [split] finds in header and entries. *)
Lemma split_lines (first : pystr) (kvs : list (pystr * pystr)) :
  Chr.newline ∉ first → Forall zone_entry kvs →
  Zone.split_on Chr.newline
    (first ++ concat (map (λ kv, [Zone.cr; Chr.newline] ++ kv.1 ++ [Zone.equals] ++ kv.2) kvs))
  = Zone.lines_after first kvs.
Proof.
  intros Hf Hk. revert first Hf.
  induction Hk as [|kv kvs Hkv _ IH]; intros first Hf.
  - simpl. rewrite app_nil_r. now apply split_on_none.
  - assert (E : ∀ X : pystr, first ++ Zone.cr :: Chr.newline :: X
                             = (first ++ [Zone.cr]) ++ Chr.newline :: X)
      by (intros X; now rewrite <- app_assoc).
    simpl. rewrite E.
    rewrite split_on_app.
    + f_equal. apply IH. now apply zone_line_no_newline.
    + intros H. apply elem_of_app in H as [H|H]; [auto|].
      apply list_elem_of_singleton in H. discriminate.
Qed.

Lemma fold_lines (kvs : list (pystr * pystr)) (k0 v0 : pystr) (m : gmap pystr pystr) :
  zone_entry (k0, v0) → Forall zone_entry kvs →
  fold_left Zone.step (Zone.lines_after (k0 ++ [Zone.equals] ++ v0) kvs) m
  = fold_left (λ m kv, <[kv.1 := kv.2]> m) kvs (<[k0 := v0]> m).
Proof.
  intros H0 Hk. revert k0 v0 m H0.
  induction Hk as [|[k v] kvs Hkv _ IH]; intros k0 v0 m [[_ Sk] [[_ Sv] He]];
    simpl in Sk, Sv, He.
  - simpl. f_equal.
    pose proof (step_pair m k0 v0 [] He Sk Sv (Forall_nil_2 _)) as E.
    now rewrite app_nil_r in E.
  - change (fold_left Zone.step (Zone.lines_after (k ++ [Zone.equals] ++ v) kvs)
              (Zone.step m ((k0 ++ [Zone.equals] ++ v0) ++ [Zone.cr]))
            = fold_left (λ m kv, <[kv.1 := kv.2]> m) kvs (<[k := v]> (<[k0 := v0]> m))).
    rewrite IH by exact Hkv. do 2 f_equal.
    pose proof (step_pair m k0 v0 [Zone.cr] He Sk Sv) as E.
    rewrite <- E.
    + f_equal. now rewrite <- !app_assoc.
    + now repeat constructor.
Qed.

Lemma fold_header (kvs : list (pystr * pystr)) (m : gmap pystr pystr) :
  Forall zone_entry kvs →
  fold_left Zone.step (Zone.lines_after (ustr "[ZoneTransfer]") kvs) m
  = fold_left (λ m kv, <[kv.1 := kv.2]> m) kvs m.
Proof.
  intros Hk. destruct Hk as [|[k v] kvs Hkv Hk].
  - simpl. apply step_plain. apply (bool_decide_unpack _). vm_compute. exact I.
  - change (fold_left Zone.step (Zone.lines_after (k ++ [Zone.equals] ++ v) kvs)
              (Zone.step m (ustr "[ZoneTransfer]" ++ [Zone.cr]))
            = fold_left (λ m kv, <[kv.1 := kv.2]> m) kvs (<[k := v]> m)).
    rewrite step_plain.
    + now apply (fold_lines kvs k v m).
    + apply (bool_decide_unpack _). vm_compute. exact I.
Qed.

Lemma ends_nonspace (h C k v : pystr) :
  strip v = v →
  ∃ (l : pystr) (d : N),
    (Chr.lbracket :: h) ++ C ++ [Zone.cr; Chr.newline] ++ k ++ [Zone.equals] ++ v
    = Chr.lbracket :: l ++ [d] ∧ isspace d = false.
Proof.
  intros Sv. destruct v as [|c v' _] using rev_ind.
  - exists (h ++ C ++ [Zone.cr; Chr.newline] ++ k), Zone.equals.
    split; [|reflexivity].
    repeat (progress (simpl; rewrite <- ?app_assoc)). reflexivity.
  - exists (h ++ C ++ [Zone.cr; Chr.newline] ++ k ++ [Zone.equals] ++ v'), c.
    split; [|eapply strip_last, Sv].
    repeat (progress (simpl; rewrite <- ?app_assoc)). reflexivity.
Qed.

(** Header and entries end in a code point that is no whitespace. *)
Lemma zone_body_ends (kvs : list (pystr * pystr)) :
  Forall zone_entry kvs →
  ∃ (l : pystr) (d : N),
    ustr "[ZoneTransfer]"
    ++ concat (map (λ kv, [Zone.cr; Chr.newline] ++ kv.1 ++ [Zone.equals] ++ kv.2) kvs)
    = Chr.lbracket :: l ++ [d] ∧ isspace d = false.
Proof.
  intros Hk.
  assert (Eh : ustr "[ZoneTransfer]" = Chr.lbracket :: ustr "ZoneTransfer]")
    by (vm_compute; reflexivity).
  rewrite Eh. clear Eh.
  destruct kvs as [|kv0 kvs0 _] using rev_ind.
  - exists (ustr "ZoneTransfer"), Chr.rbracket. split; reflexivity.
  - apply Forall_app in Hk as [_ Hk].
    apply Forall_cons in Hk as [[_ [[_ Sv] _]] _].
    rewrite map_app, concat_app.
    generalize (ustr "ZoneTransfer]"). intros h.
    change (concat (map (λ kv, [Zone.cr; Chr.newline] ++ kv.1 ++ [Zone.equals] ++ kv.2) [kv0]))
      with (([Zone.cr; Chr.newline] ++ kv0.1 ++ [Zone.equals] ++ kv0.2) ++ []).
    rewrite app_nil_r. now apply ends_nonspace.
Qed.

Lemma strip_zone_text (kvs : list (pystr * pystr)) :
  Forall zone_entry kvs →
  strip (Zone.zone_text kvs)
  = ustr "[ZoneTransfer]"
    ++ concat (map (λ kv, [Zone.cr; Chr.newline] ++ kv.1 ++ [Zone.equals] ++ kv.2) kvs).
Proof.
  intros Hk. unfold Zone.zone_text.
  destruct (zone_body_ends kvs Hk) as (l & d & E & Hd).
  rewrite app_assoc, E.
  assert (Hpad : Forall (λ c, isspace c = true) [Zone.cr; Chr.newline])
    by now repeat constructor.
  pose proof (strip_padding [] (Chr.lbracket :: l ++ [d]) _ (Forall_nil_2 _) Hpad) as P.
  simpl app in P. simpl app. rewrite P.
  now apply strip_id.
Qed.

Lemma parse_zone_text (kvs : list (pystr * pystr)) :
  Forall zone_entry kvs →
  Zone.parse_zone_identifier (Some (Zone.zone_text kvs))
  = Some (list_to_map (rev kvs)).
Proof.
  intros Hk. unfold Zone.parse_zone_identifier.
  assert (T : truthy (Zone.zone_text kvs) = true) by reflexivity.
  rewrite T. simpl negb. cbv iota. f_equal.
  rewrite strip_zone_text by assumption.
  rewrite split_lines; [|apply (bool_decide_unpack _); vm_compute; exact I|assumption].
  rewrite fold_header by assumption.
  rewrite fold_insert_list_to_map. apply (right_id_L ∅ (∪)).
Qed.

(** X18. [parse_zone_identifier] reads a Zone.Identifier stream back:
    on the text made of the header line and key=value lines, each ended
    by CR LF, it returns the dictionary of exactly these lines. The
    header, which holds no [=], leaves no entry; a value may hold [=];
    of two lines with one key the later one stays. *)
Theorem parse_zone_identifier_round_trip (kvs : list (pystr * pystr)) :
  Forall zone_entry kvs →
  Zone.parse_zone_identifier (Some (Zone.zone_text kvs))
  = Some (list_to_map (rev kvs)).
Proof.
  exact (parse_zone_text kvs).
Qed.

Ltac zone_entries :=
  repeat (apply Forall_cons_2 || apply Forall_nil_2);
  unfold zone_entry, Zone.clean; repeat split;
  try (apply (bool_decide_unpack _); vm_compute; exact I);
  try (vm_compute; reflexivity).

Lemma parse_zone_identifier_round_trip_witness :
  Forall zone_entry sample_zone
  ∧ Zone.parse_zone_identifier (Some (Zone.zone_text sample_zone))
    = Some (list_to_map (rev sample_zone)).
Proof.
  split.
  - zone_entries.
  - apply (parse_zone_identifier_round_trip sample_zone). zone_entries.
Defined.

(** What [split_once] returns for a string that holds the separator. *)
Lemma split_once_spec (c : N) (s a b : pystr) :
  Zone.has_char c s = true → Zone.split_once c s = (a, b) →
  s = a ++ c :: b ∧ c ∉ a.
Proof.
  revert a b. induction s as [|x s IH]; intros a b; [discriminate|].
  unfold Zone.has_char. simpl.
  destruct (N.eqb_spec x c) as [->|Hne].
  - intros _ [= <- <-]. split; [reflexivity | apply not_elem_of_nil].
  - simpl. intros Hc. destruct (Zone.split_once c s) as [a' b'] eqn:E.
    intros [= <- <-]. destruct (IH a' b' Hc eq_refl) as [-> Ha].
    split; [reflexivity|]. apply not_elem_of_cons. split; [congruence | exact Ha].
Qed.

(** Every entry of the dictionary after the loop was there before it or
    comes from a line key=value. *)
Lemma fold_step_sound (lines : list pystr) (m : gmap pystr pystr) (k v : pystr) :
  fold_left Zone.step lines m !! k = Some v →
  m !! k = Some v
  ∨ ∃ (line a b : pystr),
      line ∈ lines ∧ line = a ++ Zone.equals :: b ∧ (Zone.equals ∉ a)
      ∧ k = strip a ∧ v = strip b.
Proof.
  revert m. induction lines as [|line lines IH]; intros m; simpl.
  - now left.
  - intros H. apply IH in H as [H|(l & a & b & Hl & R)].
    + unfold Zone.step in H.
      destruct (Zone.has_char Zone.equals line) eqn:Hc; [|now left].
      destruct (Zone.split_once Zone.equals line) as [a b] eqn:E.
      destruct (split_once_spec _ _ _ _ Hc E) as [-> Ha].
      destruct (decide (strip a = k)) as [<-|Hne].
      * rewrite lookup_insert_eq in H. injection H as <-.
        right. exists (a ++ Zone.equals :: b), a, b.
        repeat split; auto. apply elem_of_cons. now left.
      * rewrite lookup_insert_ne in H by exact Hne. now left.
    + right. exists l, a, b. split; [|exact R]. apply elem_of_cons. now right.
Qed.

(** X19. [parse_zone_identifier] invents nothing: it returns None exactly
    for a missing or empty text, and every entry key: value of the
    dictionary it returns comes from a line a=b of the stripped text,
    with no [=] in a, key the stripped a and value the stripped b. *)
Theorem parse_zone_identifier_sound (z : pystr) :
  Zone.parse_zone_identifier None = None
  ∧ (Zone.parse_zone_identifier (Some z) = None ↔ z = [])
  ∧ ∀ (parsed : gmap pystr pystr) (k v : pystr),
      Zone.parse_zone_identifier (Some z) = Some parsed →
      parsed !! k = Some v →
      ∃ (line a b : pystr),
        line ∈ Zone.split_on Chr.newline (strip z)
        ∧ line = a ++ Zone.equals :: b ∧ (Zone.equals ∉ a)
        ∧ k = strip a ∧ v = strip b.
Proof.
  split; [reflexivity|]. split.
  - unfold Zone.parse_zone_identifier. destruct z; simpl; split; congruence.
  - intros parsed k v. unfold Zone.parse_zone_identifier.
    destruct (negb (truthy z)); [discriminate|]. intros [= <-] H.
    apply fold_step_sound in H as [H|H]; [|exact H].
    now rewrite lookup_empty in H.
Qed.

Lemma parse_zone_identifier_sound_witness :
  Zone.parse_zone_identifier (Some (ustr "a = 1")) = Some {[ ustr "a" := ustr "1" ]}
  ∧ ({[ ustr "a" := ustr "1" ]} : gmap pystr pystr) !! ustr "a" = Some (ustr "1")
  ∧ ∃ (line a b : pystr),
      line ∈ Zone.split_on Chr.newline (strip (ustr "a = 1"))
      ∧ line = a ++ Zone.equals :: b ∧ (Zone.equals ∉ a)
      ∧ ustr "a" = strip a ∧ ustr "1" = strip b.
Proof.
  assert (P : Zone.parse_zone_identifier (Some (ustr "a = 1"))
              = Some {[ ustr "a" := ustr "1" ]}) by (vm_compute; reflexivity).
  assert (L : ({[ ustr "a" := ustr "1" ]} : gmap pystr pystr) !! ustr "a"
              = Some (ustr "1")) by (vm_compute; reflexivity).
  split; [exact P|]. split; [exact L|].
  exact (proj2 (proj2 (parse_zone_identifier_sound (ustr "a = 1")))
           _ (ustr "a") (ustr "1") P L).
Defined.

Lemma startswith_prefix (p s : pystr) :
  startswith s p = true → s = p ++ drop (length p) s.
Proof.
  revert s. induction p as [|x p IH]; intros s; [reflexivity|].
  destruct s as [|c s]; [discriminate|]. simpl.
  destruct (N.eqb_spec c x) as [->|_]; [|discriminate].
  simpl. intros H. f_equal. now apply IH.
Qed.

Lemma contains_unfold (needle hay : pystr) :
  Zone.contains needle hay
  = startswith hay needle
    || match hay with [] => false | _ :: hay' => Zone.contains needle hay' end.
Proof. now destruct hay. Qed.

(** [needle in hay] holds exactly when [hay] holds [needle]. *)
Lemma contains_occurs (needle hay : pystr) :
  Zone.contains needle hay = true ↔ ∃ pre post : pystr, hay = pre ++ needle ++ post.
Proof.
  split.
  - induction hay as [|x hay IH]; rewrite contains_unfold.
    + rewrite orb_false_r. intros H. exists [], (drop (length needle) []).
      now apply startswith_prefix.
    + intros H. apply orb_true_iff in H as [H|H].
      * exists [], (drop (length needle) (x :: hay)). now apply startswith_prefix.
      * destruct (IH H) as (pre & post & ->). now exists (x :: pre), post.
  - intros (pre & post & ->). induction pre as [|x pre IH].
    + rewrite contains_unfold. simpl app. now rewrite startswith_app.
    + change (Zone.contains needle ((x :: pre) ++ needle ++ post))
        with (startswith (x :: pre ++ needle ++ post) needle
              || Zone.contains needle (pre ++ needle ++ post)).
      rewrite IH. apply orb_true_r.
Qed.

Lemma contains_empty (needle : pystr) :
  needle ≠ [] → Zone.contains needle [] = false.
Proof. now destruct needle. Qed.

Lemma take_while_spec (f : N → bool) (s : pystr) :
  Forall (λ c, f c = true) (Zone.take_while f s)
  ∧ ∃ r : pystr, s = Zone.take_while f s ++ r ∧ ∀ c r', r = c :: r' → f c = false.
Proof.
  induction s as [|x s [IH1 (r & IH2 & IH3)]]; simpl.
  - split; [constructor|]. exists []. split; [reflexivity | discriminate].
  - destruct (f x) eqn:E.
    + split; [now constructor|]. exists r. split; [simpl; f_equal; exact IH2 | exact IH3].
    + split; [constructor|]. exists (x :: s). split; [reflexivity|].
      now intros c r' [= <- _].
Qed.

(** A number found right after the literal. *)
Lemma number_here_sound (digit : N → bool) (lit s d : pystr) :
  Zone.number_here digit lit s = Some d →
  d ≠ [] ∧ Forall (λ c, digit c = true) d
  ∧ ∃ post : pystr, s = lit ++ d ++ post ∧ ∀ c r, post = c :: r → digit c = false.
Proof.
  unfold Zone.number_here. destruct (startswith s lit) eqn:E; [|discriminate].
  apply startswith_prefix in E.
  destruct (take_while_spec digit (drop (length lit) s)) as [F (r & E2 & Hr)].
  destruct (Zone.take_while digit (drop (length lit) s)) as [|c ds] eqn:T;
    [discriminate|].
  simpl truthy. cbv iota. intros [= <-]. split; [discriminate|]. split; [exact F|].
  exists r. split; [|exact Hr]. now rewrite <- E2.
Qed.

(** What [re.search] finds for a literal followed by digits: digits that
    stand in the text right after the literal, all of them. *)
Lemma search_number_sound (digit : N → bool) (lit s d : pystr) :
  Zone.search_number digit lit s = Some d →
  d ≠ [] ∧ Forall (λ c, digit c = true) d
  ∧ ∃ pre post : pystr,
      s = pre ++ lit ++ d ++ post ∧ ∀ c r, post = c :: r → digit c = false.
Proof.
  induction s as [|x s IH]; simpl.
  - destruct (Zone.number_here digit lit []) as [d'|] eqn:E; [|discriminate].
    intros [= ->]. destruct (number_here_sound _ _ _ _ E) as (H1 & H2 & post & H3 & H4).
    split; [exact H1|]. split; [exact H2|]. now exists [], post.
  - destruct (Zone.number_here digit lit (x :: s)) as [d'|] eqn:E.
    + intros [= ->]. destruct (number_here_sound _ _ _ _ E) as (H1 & H2 & post & H3 & H4).
      split; [exact H1|]. split; [exact H2|]. now exists [], post.
    + intros H. destruct (IH H) as (H1 & H2 & pre & post & -> & H4).
      split; [exact H1|]. split; [exact H2|]. now exists (x :: pre), post.
Qed.

(** Without the literal in the text there is no match. *)
Lemma search_number_none (digit : N → bool) (lit s : pystr) :
  Zone.contains lit s = false → Zone.search_number digit lit s = None.
Proof.
  induction s as [|x s IH]; rewrite contains_unfold; intros H;
    apply orb_false_iff in H as [H1 H2]; simpl; unfold Zone.number_here;
    rewrite H1; auto.
Qed.

(** X20. What [is_redmine_file] answers is read off the parsed stream.
    The answer is False with no dictionary, or True with one. With True,
    REDMINE_HOST stands in ReferrerUrl or in HostUrl; referrer, host_url
    and zone_id are the parsed ReferrerUrl, HostUrl and ZoneId, each the
    empty string when the stream has no such line; an issue number or an
    attachment id, when there is one, is a non-empty run of digits that
    stands in the ReferrerUrl right after /issues/ or /attachments/ and
    is followed by no further digit; HostUrl never gives one. *)
Theorem is_redmine_file_sound (host : pystr) (digit : N → bool)
    (zone_info : option pystr) (i : Zone.info) :
  Zone.is_redmine_file host digit zone_info = (true, Some i) →
  (∃ parsed : gmap pystr pystr,
     Zone.parse_zone_identifier zone_info = Some parsed ∧ parsed ≠ ∅
     ∧ Zone.referrer i = Zone.get parsed (ustr "ReferrerUrl")
     ∧ Zone.host_url i = Zone.get parsed (ustr "HostUrl")
     ∧ Zone.zone_id i = Zone.get parsed (ustr "ZoneId"))
  ∧ ((∃ pre post : pystr, Zone.referrer i = pre ++ host ++ post)
     ∨ (∃ pre post : pystr, Zone.host_url i = pre ++ host ++ post))
  ∧ (∀ d : pystr, Zone.issue_number i = Some d →
       d ≠ [] ∧ Forall (λ c, digit c = true) d
       ∧ ∃ pre post : pystr,
           Zone.referrer i = pre ++ ustr "/issues/" ++ d ++ post
           ∧ ∀ c r, post = c :: r → digit c = false)
  ∧ (∀ d : pystr, Zone.attachment_id i = Some d →
       d ≠ [] ∧ Forall (λ c, digit c = true) d
       ∧ ∃ pre post : pystr,
           Zone.referrer i = pre ++ ustr "/attachments/" ++ d ++ post
           ∧ ∀ c r, post = c :: r → digit c = false)
  ∧ (Zone.contains (ustr "/issues/") (Zone.referrer i) = false →
     Zone.issue_number i = None).
Proof.
  unfold Zone.is_redmine_file.
  destruct zone_info as [z|]; [|discriminate].
  destruct (negb (truthy z)); [discriminate|].
  destruct (Zone.parse_zone_identifier (Some z)) as [parsed|]; [|discriminate].
  destruct (bool_decide (parsed = ∅)) eqn:Hp; [discriminate|].
  apply bool_decide_eq_false in Hp.
  destruct (Zone.contains host (Zone.get parsed (ustr "ReferrerUrl"))
            || Zone.contains host (Zone.get parsed (ustr "HostUrl"))) eqn:Hc;
    [|discriminate].
  intros [= <-]. cbn [Zone.referrer Zone.host_url Zone.zone_id
                      Zone.issue_number Zone.attachment_id].
  split; [now exists parsed|]. split.
  - apply orb_true_iff in Hc as [Hc|Hc]; [left | right]; now apply contains_occurs.
  - split; [|split].
    + intros d. apply search_number_sound.
    + intros d. apply search_number_sound.
    + apply search_number_none.
Qed.

Lemma is_redmine_file_answers (host : pystr) (digit : N → bool)
    (zone_info : option pystr) :
  Zone.is_redmine_file host digit zone_info = (false, None)
  ∨ ∃ i : Zone.info, Zone.is_redmine_file host digit zone_info = (true, Some i).
Proof.
  unfold Zone.is_redmine_file.
  destruct zone_info as [z|]; [|now left].
  destruct (negb (truthy z)); [now left|].
  destruct (Zone.parse_zone_identifier (Some z)) as [parsed|]; [|now left].
  destruct (bool_decide (parsed = ∅)); [now left|].
  destruct (_ || _); [right; eauto | now left].
Qed.

Lemma is_redmine_file_sound_witness :
  Zone.is_redmine_file REDMINE_HOST Zone.ascii_digit
    (Some (Zone.zone_text sample_zone)) = (true, Some sample_info)
  ∧ ∃ pre post : pystr,
      Zone.referrer sample_info = pre ++ ustr "/issues/" ++ ustr "12" ++ post
      ∧ ∀ c r, post = c :: r → Zone.ascii_digit c = false.
Proof.
  split.
  - vm_compute. reflexivity.
  - apply (proj1 (proj2 (proj2
      (is_redmine_file_sound REDMINE_HOST Zone.ascii_digit
         (Some (Zone.zone_text sample_zone)) sample_info
         ltac:(vm_compute; reflexivity)))) (ustr "12") eq_refl).
Defined.

Lemma unique_value (l : list (pystr * pystr)) (k x y : pystr) :
  NoDup l.*1 → (k, x) ∈ l → (k, y) ∈ l → x = y.
Proof.
  induction l as [|[k' v'] l IH]; simpl.
  - intros _ H. now apply elem_of_nil in H.
  - intros H Hx Hy. apply NoDup_cons in H as [Hk Hl].
    apply elem_of_cons in Hx as [Hx|Hx]; apply elem_of_cons in Hy as [Hy|Hy].
    + congruence.
    + injection Hx as -> ->. exfalso. apply Hk.
      apply list_elem_of_fmap. now exists (k', y).
    + injection Hy as -> ->. exfalso. apply Hk.
      apply list_elem_of_fmap. now exists (k', x).
    + now apply IH.
Qed.

(** The parsed stream holds the value of each line, and nothing else. *)
Lemma lookup_rev_entries (kvs : list (pystr * pystr)) (k v : pystr) :
  NoDup kvs.*1 → (k, v) ∈ kvs →
  (list_to_map (rev kvs) : gmap pystr pystr) !! k = Some v.
Proof.
  intros Hn Hin. apply elem_of_list_to_map_1'.
  - intros y Hy. apply (unique_value kvs k v y Hn Hin).
    apply list_elem_of_In. apply in_rev. now apply list_elem_of_In.
  - apply list_elem_of_In. apply -> in_rev. now apply list_elem_of_In.
Qed.

Lemma get_rev_entries (host : pystr) (kvs : list (pystr * pystr)) (k : pystr) :
  host ≠ [] →
  (∀ v : pystr, (k, v) ∈ kvs → Zone.contains host v = false) →
  Zone.contains host (Zone.get (list_to_map (rev kvs)) k) = false.
Proof.
  intros Hh H. unfold Zone.get.
  destruct ((list_to_map (rev kvs) : gmap pystr pystr) !! k) as [v|] eqn:E; simpl.
  - apply H. apply elem_of_list_to_map_2 in E.
    apply list_elem_of_In. apply in_rev. now apply list_elem_of_In.
  - now apply contains_empty.
Qed.

(** X21. A download is recognised by its stream. For a Zone.Identifier
    text whose lines name each key once: when the ReferrerUrl line holds
    REDMINE_HOST, [is_redmine_file] answers True, reports this URL as
    referrer and as issue number what /issues/ and digits in it give;
    when the HostUrl line holds REDMINE_HOST it answers True as well;
    when neither a ReferrerUrl nor a HostUrl line holds it, the answer is
    False with no dictionary. *)
Theorem is_redmine_file_recognises (host : pystr) (digit : N → bool)
    (kvs : list (pystr * pystr)) :
  Forall zone_entry kvs → NoDup kvs.*1 → host ≠ [] →
  (∀ r pre post : pystr,
     (ustr "ReferrerUrl", r) ∈ kvs → r = pre ++ host ++ post →
     ∃ i : Zone.info,
       Zone.is_redmine_file host digit (Some (Zone.zone_text kvs)) = (true, Some i)
       ∧ Zone.referrer i = r
       ∧ Zone.issue_number i = Zone.search_number digit (ustr "/issues/") r)
  ∧ (∀ u pre post : pystr,
       (ustr "HostUrl", u) ∈ kvs → u = pre ++ host ++ post →
       ∃ i : Zone.info,
         Zone.is_redmine_file host digit (Some (Zone.zone_text kvs)) = (true, Some i)
         ∧ Zone.host_url i = u)
  ∧ ((∀ r : pystr, (ustr "ReferrerUrl", r) ∈ kvs → Zone.contains host r = false) →
     (∀ u : pystr, (ustr "HostUrl", u) ∈ kvs → Zone.contains host u = false) →
     Zone.is_redmine_file host digit (Some (Zone.zone_text kvs)) = (false, None)).
Proof.
  intros Hk Hn Hh.
  pose proof (parse_zone_text kvs Hk) as P.
  assert (T : truthy (Zone.zone_text kvs) = true) by reflexivity.
  unfold Zone.is_redmine_file. rewrite T, P. simpl negb. cbv iota.
  split; [|split].
  - intros r pre post Hin ->.
    pose proof (lookup_rev_entries kvs _ _ Hn Hin) as L.
    assert (Hne : (list_to_map (rev kvs) : gmap pystr pystr) ≠ ∅).
    { intros E. rewrite E, lookup_empty in L. discriminate. }
    rewrite (bool_decide_eq_false_2 _ Hne). cbv zeta.
    assert (G : Zone.get (list_to_map (rev kvs)) (ustr "ReferrerUrl")
                = pre ++ host ++ post) by (unfold Zone.get; now rewrite L).
    rewrite G.
    rewrite (proj2 (contains_occurs host (pre ++ host ++ post))) by eauto.
    simpl orb. cbv iota. eexists. split; [reflexivity|]. split; reflexivity.
  - intros u pre post Hin ->.
    pose proof (lookup_rev_entries kvs _ _ Hn Hin) as L.
    assert (Hne : (list_to_map (rev kvs) : gmap pystr pystr) ≠ ∅).
    { intros E. rewrite E, lookup_empty in L. discriminate. }
    rewrite (bool_decide_eq_false_2 _ Hne). cbv zeta.
    assert (G : Zone.get (list_to_map (rev kvs)) (ustr "HostUrl")
                = pre ++ host ++ post) by (unfold Zone.get; now rewrite L).
    rewrite G.
    rewrite (proj2 (contains_occurs host (pre ++ host ++ post))) by eauto.
    rewrite orb_true_r. eexists. split; reflexivity.
  - intros Hr Hu. cbv zeta.
    rewrite (get_rev_entries host kvs _ Hh Hr), (get_rev_entries host kvs _ Hh Hu).
    simpl orb. cbv iota. now destruct (bool_decide _).
Qed.

Lemma is_redmine_file_recognises_witness :
  Forall zone_entry sample_zone ∧ NoDup sample_zone.*1 ∧ REDMINE_HOST ≠ []
  ∧ ∃ i : Zone.info,
      Zone.is_redmine_file REDMINE_HOST Zone.ascii_digit
        (Some (Zone.zone_text sample_zone)) = (true, Some i)
      ∧ Zone.referrer i = ustr "https://read-sln.cloud.redmine.jp/issues/12?a=b"
      ∧ Zone.issue_number i
        = Zone.search_number Zone.ascii_digit (ustr "/issues/")
            (ustr "https://read-sln.cloud.redmine.jp/issues/12?a=b").
Proof.
  assert (N3 : NoDup sample_zone.*1).
  { apply (bool_decide_unpack _). vm_compute. exact I. }
  split; [zone_entries|]. split; [exact N3|]. split; [discriminate|].
  apply (proj1 (is_redmine_file_recognises REDMINE_HOST Zone.ascii_digit sample_zone
                  ltac:(zone_entries) N3 ltac:(discriminate))
           _ (ustr "https://") (ustr "/issues/12?a=b")).
  - apply (bool_decide_unpack _). vm_compute. exact I.
  - vm_compute. reflexivity.
Defined.

(* ===================================================================== *)
(** * Scanning the download folder *)
(* ===================================================================== *)

Lemma insert_desc_perm {A : Type} (x : Z * A) (l : list (Z * A)) :
  Organizer.insert_desc x l ≡ₚ x :: l.
Proof.
  induction l as [|y l IH]; simpl; [reflexivity|].
  destruct (x.1 <? y.1); [|reflexivity].
  rewrite IH. apply Permutation_swap.
Qed.

Lemma sort_desc_perm {A : Type} (l : list (Z * A)) :
  Organizer.sort_desc l ≡ₚ l.
Proof.
  induction l as [|x l IH]; [reflexivity|].
  change (Organizer.sort_desc (x :: l))
    with (Organizer.insert_desc x (Organizer.sort_desc l)).
  now rewrite insert_desc_perm, IH.
Qed.

Lemma insert_desc_sorted {A : Type} (x : Z * A) (l : list (Z * A)) :
  StronglySorted (λ a b, b.1 ≤ a.1) l →
  StronglySorted (λ a b, b.1 ≤ a.1) (Organizer.insert_desc x l).
Proof.
  induction 1 as [|y l Hs IH Hy]; simpl.
  - repeat constructor.
  - destruct (Z.ltb_spec x.1 y.1) as [Hlt|Hge].
    + constructor; [exact IH|].
      rewrite insert_desc_perm. constructor; [lia | exact Hy].
    + constructor; [now constructor|].
      constructor; [exact Hge|].
      eapply Forall_impl; [exact Hy|]. simpl. intros z Hz. lia.
Qed.

Lemma sort_desc_sorted {A : Type} (l : list (Z * A)) :
  StronglySorted (λ a b, b.1 ≤ a.1) (Organizer.sort_desc l).
Proof.
  induction l as [|x l IH]; [constructor|].
  change (Organizer.sort_desc (x :: l))
    with (Organizer.insert_desc x (Organizer.sort_desc l)).
  now apply insert_desc_sorted.
Qed.

(** The keys are the time stamps of the entries, in their order. *)
Lemma keyed_spec (w : world) (l : list Organizer.detected)
    (kl : list (Z * Organizer.detected)) :
  Organizer.keyed w l = Ret kl →
  kl.*2 = l ∧ Forall (λ kd, OS.getmtime w (Organizer.path kd.2) = Ret kd.1) kl.
Proof.
  revert kl. induction l as [|d l IH]; intros kl; simpl.
  - intros [= <-]. split; [reflexivity | constructor].
  - destruct (OS.getmtime w (Organizer.path d)) as [t|e] eqn:E; [|discriminate].
    destruct (Organizer.keyed w l) as [r|e]; [|discriminate].
    intros [= <-]. destruct (IH r eq_refl) as [H1 H2].
    split; [now rewrite fmap_cons, H1 | now constructor].
Qed.

Lemma keyed_total (w : world) (l : list Organizer.detected) :
  Forall (λ d, is_Some (fs w !! Organizer.path d)) l →
  ∃ kl, Organizer.keyed w l = Ret kl.
Proof.
  induction 1 as [|d l [n Hn] _ [kl IH]]; simpl; [eauto|].
  unfold OS.getmtime. rewrite Hn, IH. eauto.
Qed.

(** A name [listdir] gives names an entry directly in the folder. *)
Lemma child_of_inv (folder k name : pystr) :
  child_of folder k = Some name →
  name ≠ [] ∧ (Chr.slash ∉ name) ∧ k = PosixPath.join folder [name].
Proof.
  unfold child_of.
  destruct (startswith k (join_prefix folder)) eqn:E; [|discriminate].
  apply startswith_prefix in E.
  destruct (truthy (drop (length (join_prefix folder)) k)) eqn:T; [|discriminate].
  destruct (existsb _ _) eqn:X; [discriminate|].
  cbn [andb negb]. intros [= <-].
  assert (Hs : Chr.slash ∉ drop (length (join_prefix folder)) k).
  { intros Hin. apply has_char_elem in Hin. unfold Zone.has_char in Hin.
    congruence. }
  split; [now destruct (drop _ k)|]. split; [exact Hs|].
  rewrite join_plain; [exact E|].
  apply not_absolute. intros t Ht. apply Hs. rewrite Ht. left.
Qed.

Lemma nodup_omap {A B : Type} (f : A → option B) (l : list A) :
  (∀ x y z, f x = Some z → f y = Some z → x = y) →
  NoDup l → NoDup (omap f l).
Proof.
  intros Hinj. induction 1 as [|x l Hx _ IH]; simpl; [constructor|].
  destruct (f x) as [z|] eqn:E; [|exact IH].
  constructor; [|exact IH].
  intros Hz. apply list_elem_of_omap in Hz as (y & Hy & Ey).
  now rewrite (Hinj x y z E Ey) in Hx.
Qed.

Lemma listdir_names (w : world) (folder : pystr) (names : list pystr) :
  listdir w folder = Ret names →
  NoDup names
  ∧ ∀ name, name ∈ names →
      name ≠ [] ∧ (Chr.slash ∉ name)
      ∧ is_Some (fs w !! PosixPath.join folder [name]).
Proof.
  unfold listdir. destruct (fs w !! folder) as [[c t|t]|]; try discriminate.
  intros [= <-]. split.
  - apply nodup_omap; [|apply NoDup_fst_map_to_list].
    intros x y z Hx Hy.
    destruct (child_of_inv _ _ _ Hx) as (_ & _ & ->).
    now destruct (child_of_inv _ _ _ Hy) as (_ & _ & ->).
  - intros name Hin. apply list_elem_of_omap in Hin as (k & Hk & Hc).
    destruct (child_of_inv _ _ _ Hc) as (H1 & H2 & ->).
    split; [exact H1|]. split; [exact H2|].
    apply list_elem_of_fmap in Hk as ([k' n] & -> & Hk).
    apply elem_of_map_to_list in Hk. simpl. eauto.
Qed.

Lemma scan_entry_spec (dl : pystr) (digit : N → bool)
    (zone : pystr → option pystr) (w : world) (name : pystr)
    (d : Organizer.detected) :
  Organizer.scan_entry dl digit zone w name = Some d ↔
  Organizer.filename d = name
  ∧ Organizer.path d = PosixPath.join dl [name]
  ∧ OS.isfile w (Organizer.path d) = true
  ∧ Zone.is_redmine_file REDMINE_HOST digit (zone (Organizer.path d))
    = (true, Organizer.info d).
Proof.
  unfold Organizer.scan_entry. split.
  - destruct (OS.isfile w (PosixPath.join dl [name])) eqn:F; [|discriminate].
    simpl negb. cbv iota.
    destruct (Zone.is_redmine_file _ _ _) as [[|] i] eqn:R; [|discriminate].
    intros [= <-]. simpl. auto.
  - destruct d as [p f i]. simpl. intros (-> & -> & F & R).
    now rewrite F, R.
Qed.

Lemma scan_downloads_folder_dir (dl : pystr) (digit : N → bool)
    (zone : pystr → option pystr) (w : world) (t : Z) :
  fs w !! dl = Some (Dir t) →
  ∃ (names : list pystr) (kl : list (Z * Organizer.detected)),
    listdir w dl = Ret names
    ∧ Organizer.keyed w (omap (Organizer.scan_entry dl digit zone w) names) = Ret kl
    ∧ Organizer.scan_downloads_folder dl digit zone w
      = Ret ((Organizer.sort_desc kl).*2).
Proof.
  intros Hdir. unfold Organizer.scan_downloads_folder.
  rewrite (path_exists_true _ _ _ Hdir). simpl negb. cbv iota.
  assert (Hl : ∃ names, listdir w dl = Ret names).
  { unfold listdir. rewrite Hdir. eauto. }
  destruct Hl as [names Hl]. rewrite Hl.
  destruct (keyed_total w (omap (Organizer.scan_entry dl digit zone w) names))
    as [kl Hk].
  - apply Forall_forall. intros d Hd.
    apply list_elem_of_omap in Hd as (name & _ & Hd).
    apply scan_entry_spec in Hd as (_ & _ & F & _).
    unfold OS.isfile in F. destruct (fs w !! Organizer.path d); [eauto | discriminate].
  - rewrite Hk. now exists names, kl.
Qed.

Lemma scan_downloads_folder_keys (dl : pystr) (digit : N → bool)
    (zone : pystr → option pystr) (w : world) (found : list Organizer.detected) :
  Organizer.scan_downloads_folder dl digit zone w = Ret found →
  ∃ kl : list (Z * Organizer.detected),
    found = kl.*2
    ∧ Forall (λ kd, OS.getmtime w (Organizer.path kd.2) = Ret kd.1) kl
    ∧ StronglySorted (λ a b, b.1 ≤ a.1) kl.
Proof.
  unfold Organizer.scan_downloads_folder.
  destruct (negb (OS.path_exists w dl)).
  - intros [= <-]. exists []. repeat constructor.
  - destruct (listdir w dl) as [names|e]; [|discriminate].
    destruct (Organizer.keyed w _) as [kl|e] eqn:K; [|discriminate].
    intros [= <-]. exists (Organizer.sort_desc kl).
    split; [reflexivity|]. split; [|apply sort_desc_sorted].
    rewrite sort_desc_perm. now apply keyed_spec in K.
Qed.

Lemma sorted_later {A : Type} (kl pre rest : list (Z * A)) (a b : Z * A) :
  StronglySorted (λ a b, b.1 ≤ a.1) kl →
  kl = pre ++ a :: rest → b ∈ rest → b.1 ≤ a.1.
Proof.
  intros Hs. revert pre. induction Hs as [|x l Hs IH Hx]; intros pre E Hb.
  - now destruct pre.
  - destruct pre as [|y pre]; simpl in E; injection E as -> ->.
    + rewrite Forall_forall in Hx. now apply Hx.
    + now apply (IH pre).
Qed.

(** X22. What [scan_downloads_folder] lists. Without the download folder
    the list is empty; when a regular file stands in its place the call
    of [os.listdir] raises. Otherwise the list holds, once each, exactly
    the regular files directly in the folder that [is_redmine_file]
    accepts, each with its name, with the folder joined to the name as
    path, and with the dictionary [is_redmine_file] gave for this path;
    folders and files other programs left are not in it. *)
Theorem scan_downloads_folder_lists (dl : pystr) (digit : N → bool)
    (zone : pystr → option pystr) (w : world) :
  (fs w !! dl = None → Organizer.scan_downloads_folder dl digit zone w = Ret [])
  ∧ (∀ (c : list N) (t : Z), fs w !! dl = Some (File c t) →
       Organizer.scan_downloads_folder dl digit zone w
       = Raise (Exn "NotADirectoryError" dl))
  ∧ (∀ t : Z, fs w !! dl = Some (Dir t) →
       ∃ found : list Organizer.detected,
         Organizer.scan_downloads_folder dl digit zone w = Ret found
         ∧ NoDup found
         ∧ ∀ d : Organizer.detected,
             d ∈ found ↔
             Organizer.filename d ≠ [] ∧ (Chr.slash ∉ Organizer.filename d)
             ∧ Organizer.path d = PosixPath.join dl [Organizer.filename d]
             ∧ OS.isfile w (Organizer.path d) = true
             ∧ Zone.is_redmine_file REDMINE_HOST digit (zone (Organizer.path d))
               = (true, Organizer.info d)).
Proof.
  split; [|split].
  - intros H. unfold Organizer.scan_downloads_folder.
    now rewrite (path_exists_false _ _ H).
  - intros c t H. unfold Organizer.scan_downloads_folder, listdir.
    now rewrite (path_exists_true _ _ _ H), H.
  - intros t Hdir.
    destruct (scan_downloads_folder_dir dl digit zone w t Hdir)
      as (names & kl & Hl & Hk & ->).
    destruct (listdir_names _ _ _ Hl) as [Hnd Hnames].
    destruct (keyed_spec _ _ _ Hk) as [Hkl _].
    assert (P : (Organizer.sort_desc kl).*2
                ≡ₚ omap (Organizer.scan_entry dl digit zone w) names).
    { now rewrite sort_desc_perm, Hkl. }
    eexists. split; [reflexivity|]. split.
    + rewrite P. apply nodup_omap; [|exact Hnd].
      intros x y z Hx Hy.
      apply scan_entry_spec in Hx as (<- & _). now apply scan_entry_spec in Hy as (<- & _).
    + intros d. rewrite P, list_elem_of_omap. split.
      * intros (name & Hin & Hd).
        destruct (Hnames name Hin) as (H1 & H2 & _).
        apply scan_entry_spec in Hd as (<- & Hp & F & R). auto.
      * intros (H1 & H2 & Hp & F & R). exists (Organizer.filename d).
        split; [|apply scan_entry_spec; rewrite <- Hp; auto].
        unfold OS.isfile in F.
        destruct (fs w !! Organizer.path d) as [n|] eqn:E; [|discriminate].
        rewrite Hp in E.
        destruct (listdir_lists w dl _ n t Hdir H1 H2 E) as (names' & Hl' & Hin).
        rewrite Hl in Hl'. now injection Hl' as <-.
Qed.

Lemma scan_downloads_folder_lists_witness :
  fs w_inbox !! ustr "/dl" = Some (Dir 1)
  ∧ ∃ found : list Organizer.detected,
      Organizer.scan_downloads_folder (ustr "/dl") Zone.ascii_digit inbox_streams
        w_inbox = Ret found
      ∧ NoDup found
      ∧ ∀ d : Organizer.detected,
          d ∈ found ↔
          Organizer.filename d ≠ [] ∧ (Chr.slash ∉ Organizer.filename d)
          ∧ Organizer.path d = PosixPath.join (ustr "/dl") [Organizer.filename d]
          ∧ OS.isfile w_inbox (Organizer.path d) = true
          ∧ Zone.is_redmine_file REDMINE_HOST Zone.ascii_digit
              (inbox_streams (Organizer.path d))
            = (true, Organizer.info d).
Proof.
  assert (H : fs w_inbox !! ustr "/dl" = Some (Dir 1)) by (vm_compute; reflexivity).
  split; [exact H|].
  exact (proj2 (proj2 (scan_downloads_folder_lists (ustr "/dl") Zone.ascii_digit
                         inbox_streams w_inbox)) 1 H).
Defined.

(** X23. [scan_downloads_folder] lists the newest file first: of two
    entries of the list it returns, the later one is not newer; the time
    stamps are those [os.path.getmtime] gives for the paths. *)
Theorem scan_downloads_folder_newest_first (dl : pystr) (digit : N → bool)
    (zone : pystr → option pystr) (w : world)
    (found pre rest : list Organizer.detected) (a b : Organizer.detected) :
  Organizer.scan_downloads_folder dl digit zone w = Ret found →
  found = pre ++ a :: rest → b ∈ rest →
  ∃ ta tb : Z,
    OS.getmtime w (Organizer.path a) = Ret ta
    ∧ OS.getmtime w (Organizer.path b) = Ret tb
    ∧ tb ≤ ta.
Proof.
  intros Hscan E Hb.
  destruct (scan_downloads_folder_keys _ _ _ _ _ Hscan) as (kl & -> & Hm & Hs).
  apply fmap_app_inv in E as (kpre & k2 & -> & E & ->).
  symmetry in E. apply fmap_cons_inv in E as (ka & krest & -> & -> & ->).
  apply list_elem_of_fmap in Hb as (kb & -> & Hb).
  rewrite Forall_forall in Hm.
  exists ka.1, kb.1. split; [|split].
  - apply Hm. apply elem_of_app. right. left.
  - apply Hm. apply elem_of_app. right. now right.
  - now apply (sorted_later _ kpre krest ka kb Hs).
Qed.

Lemma scan_downloads_folder_newest_first_witness :
  Organizer.scan_downloads_folder (ustr "/dl") Zone.ascii_digit inbox_streams w_inbox
  = Ret [ Organizer.Detected (ustr "/dl/b.pdf") (ustr "b.pdf") (Some sample_info);
          Organizer.Detected (ustr "/dl/a.zip") (ustr "a.zip") (Some sample_info) ]
  ∧ ∃ ta tb : Z,
      OS.getmtime w_inbox (ustr "/dl/b.pdf") = Ret ta
      ∧ OS.getmtime w_inbox (ustr "/dl/a.zip") = Ret tb
      ∧ tb ≤ ta.
Proof.
  assert (H : Organizer.scan_downloads_folder (ustr "/dl") Zone.ascii_digit
                inbox_streams w_inbox
              = Ret [ Organizer.Detected (ustr "/dl/b.pdf") (ustr "b.pdf")
                        (Some sample_info);
                      Organizer.Detected (ustr "/dl/a.zip") (ustr "a.zip")
                        (Some sample_info) ])
    by (vm_compute; reflexivity).
  split; [exact H|].
  apply (scan_downloads_folder_newest_first _ _ _ _ _ []
           [Organizer.Detected (ustr "/dl/a.zip") (ustr "a.zip") (Some sample_info)]
           (Organizer.Detected (ustr "/dl/b.pdf") (ustr "b.pdf") (Some sample_info))
           (Organizer.Detected (ustr "/dl/a.zip") (ustr "a.zip") (Some sample_info))
           H eq_refl).
  left.
Defined.

(* ===================================================================== *)
(** * Organizing: one file and a batch *)
(* ===================================================================== *)

Lemma yyyymmdd_nonempty (dt : datetime) : yyyymmdd dt ≠ [].
Proof. discriminate. Qed.

Lemma join_snoc (a : pystr) (ps : list pystr) (x : pystr) :
  PosixPath.join a (ps ++ [x]) = PosixPath.join2 (PosixPath.join a ps) x.
Proof. unfold PosixPath.join. now rewrite fold_left_app. Qed.

Lemma join2_nonempty (a x : pystr) : x ≠ [] → PosixPath.join2 a x ≠ [].
Proof.
  intros Hx. unfold PosixPath.join2.
  destruct (startswith x PosixPath.sep); [exact Hx|].
  destruct (negb (truthy a) || endswith a PosixPath.sep);
    intros E; apply app_eq_nil in E as [_ E]; [auto|].
  now apply app_eq_nil in E as [E _].
Qed.

(** The destination of a parsed title, given the date folder. *)
Lemma build_target_path_dated (self : organizer) (w : world) (t : pystr)
    (pt : parsed_title) (file_path : option pystr) (date : pystr) :
  parse_ticket_title t = Some pt →
  date_folder w file_path = Ret date →
  build_target_path self w (Some pt) file_path
  = Ret (Some (PosixPath.join (BASE_OUTPUT_FOLDER self) (segments pt ++ [date]))).
Proof.
  intros Hparse Hdt. unfold build_target_path, segments. rewrite Hdt.
  destruct (parse_shape _ _ Hparse) as [(f3 & H3 & Hl)|[H3 Hl]];
    now rewrite Hl, H3.
Qed.

Lemma build_target_path_truthy (self : organizer) (w : world) (t : pystr)
    (pt : parsed_title) (file_path : option pystr) :
  parse_ticket_title t = Some pt →
  ∃ tf : pystr,
    build_target_path self w (Some pt) file_path = Ret (Some tf) ∧ tf ≠ [].
Proof.
  intros Hparse. destruct (date_folder_is_date w file_path) as [dt Hdt].
  rewrite (build_target_path_dated self w t pt file_path _ Hparse Hdt).
  eexists. split; [reflexivity|].
  rewrite join_snoc. apply join2_nonempty, yyyymmdd_nonempty.
Qed.

Lemma truthy_nonempty (s : pystr) : truthy s = true ↔ s ≠ [].
Proof. destruct s; simpl; split; congruence. Qed.

(** One round counts its file once. *)
Lemma organize_one_counts (self : organizer)
    (titles : nat → option pystr → option pystr * option pystr)
    (n : nat) (w w' : world) (d : Organizer.detected) (t t' : Organizer.tally) :
  Organizer.organize_one self titles n w d t = (w', Ret t') →
  tally_ok t → counted t' = counted t + 1 ∧ tally_ok t'.
Proof.
  unfold Organizer.organize_one, counted, tally_ok.
  intros H (H1 & H2 & H3 & H4 & H5).
  destruct (Organizer.issue_of d) as [issue|e]; [|discriminate].
  destruct (titles n issue) as [title error].
  destruct (negb (Organizer.truthy_opt title)).
  { injection H as _ <-. simpl. repeat split; auto; try lia; apply H4. }
  destruct (parse_ticket_title (default [] title)) as [pt|].
  2:{ injection H as _ <-. simpl. repeat split; auto; try lia; apply H4. }
  destruct (build_target_path self w (Some pt) _) as [tf|e]; [|discriminate].
  destruct (negb (Organizer.truthy_opt tf)) eqn:T.
  { injection H as _ <-. simpl. repeat split; auto; try lia; apply H4. }
  destruct (move_file w _ _) as [w2 [[[|] res]|e]]; [| |discriminate].
  - injection H as _ <-. simpl. repeat split; try lia; try discriminate.
    intros f [= <-]. apply negb_false_iff in T.
    destruct tf as [tf|]; [|discriminate]. simpl in *. now apply truthy_nonempty.
  - injection H as _ <-. simpl. repeat split; auto; try lia; apply H4.
Qed.

Lemma organize_from_tally (self : organizer)
    (titles : nat → option pystr → option pystr * option pystr)
    (flag : nat → bool) (meanwhile : nat → world → world)
    (files : list Organizer.detected) (n : nat) (w w' : world)
    (t t' : Organizer.tally) :
  Organizer.organize_from self titles flag meanwhile n files w t = (w', Ret t') →
  tally_ok t →
  ∃ rounds : nat,
    (rounds ≤ length files)%nat
    ∧ (∀ i : nat, (n ≤ i < n + rounds)%nat → flag i = true)
    ∧ ((rounds < length files)%nat → flag (n + rounds)%nat = false)
    ∧ counted t' = counted t + Z.of_nat rounds
    ∧ tally_ok t'.
Proof.
  revert n w t. induction files as [|d files IH]; intros n w t; simpl.
  - intros [= _ <-] Hok. exists 0%nat.
    split; [lia|]. split; [intros i Hi; lia|]. split; [lia|].
    split; [lia | exact Hok].
  - destruct (flag n) eqn:F; simpl.
    2:{ intros [= _ <-] Hok. exists 0%nat. rewrite Nat.add_0_r.
        split; [lia|]. split; [intros i Hi; lia|]. split; [auto|].
        split; [lia | exact Hok]. }
    destruct (Organizer.organize_one self titles n w d t) as [w1 [t1|e]] eqn:E;
      [|discriminate].
    intros H Hok. destruct (organize_one_counts _ _ _ _ _ _ _ _ E Hok) as [Hc Hok1].
    destruct (IH _ _ _ H Hok1) as (r & Hr1 & Hr2 & Hr3 & Hr4 & Hr5).
    exists (S r). split; [lia|]. split; [|split; [|split]].
    + intros i Hi. destruct (decide (i = n)) as [->|Hne]; [exact F|].
      apply Hr2. lia.
    + intros Hlt. replace (n + S r)%nat with (S n + r)%nat by lia.
      apply Hr3. lia.
    + lia.
    + exact Hr5.
Qed.

(** X24. The counters of a batch that runs to its end. The loop of
    [do_organize_all] runs one round per file for as long as the flag
    [auto_processing] is set, and every round counts its file exactly
    once: as a success, as an error or as skipped. So the three counters
    add up to the number of rounds run, which is the number of files
    unless the flag was cleared; and a folder is handed over as last
    folder exactly when at least one move has succeeded. *)
Theorem do_organize_all_tally (self : organizer)
    (titles : nat → option pystr → option pystr * option pystr)
    (flag : nat → bool) (meanwhile : nat → world → world)
    (files : list Organizer.detected) (w w' : world) (t : Organizer.tally) :
  Organizer.do_organize_all self titles flag meanwhile files w = (w', Ret t) →
  ∃ rounds : nat,
    (rounds ≤ length files)%nat
    ∧ (∀ i : nat, (i < rounds)%nat → flag i = true)
    ∧ ((rounds < length files)%nat → flag rounds = false)
    ∧ Organizer.success_count t + Organizer.error_count t + Organizer.skip_count t
      = Z.of_nat rounds
    ∧ 0 ≤ Organizer.success_count t ∧ 0 ≤ Organizer.error_count t
    ∧ 0 ≤ Organizer.skip_count t
    ∧ (Organizer.success_count t = 0 ↔ Organizer.last_folder t = None)
    ∧ ∀ f : pystr, Organizer.last_folder t = Some f → f ≠ [].
Proof.
  unfold Organizer.do_organize_all. intros H.
  destruct (organize_from_tally _ _ _ _ _ _ _ _ _ _ H)
    as (r & H1 & H2 & H3 & H4 & H5).
  { unfold tally_ok. simpl. repeat split; auto; try lia; discriminate. }
  exists r. split; [exact H1|]. split; [intros i Hi; apply H2; lia|].
  split; [exact H3|]. split; [exact H4|]. exact H5.
Qed.

Lemma do_organize_all_tally_witness :
  snd (Organizer.do_organize_all data_root acme_server (λ _, true) (λ _ w, w)
         inbox_found w_inbox)
  = Ret (Organizer.Tally 2 0 0
           (Some (ustr "/data/Acme/P100/Door sensor broken/19700101")))
  ∧ ∃ rounds : nat,
      (rounds ≤ length inbox_found)%nat
      ∧ 2 + 0 + 0 = Z.of_nat rounds.
Proof.
  assert (H : snd (Organizer.do_organize_all data_root acme_server (λ _, true)
                     (λ _ w, w) inbox_found w_inbox)
              = Ret (Organizer.Tally 2 0 0
                       (Some (ustr "/data/Acme/P100/Door sensor broken/19700101"))))
    by (vm_compute; reflexivity).
  split; [exact H|].
  destruct (do_organize_all_tally data_root acme_server (λ _, true) (λ _ w, w)
              inbox_found w_inbox _ _ (pair_with_snd _ _ H))
    as (r & H1 & _ & _ & H4 & _).
  exists r. split; [exact H1 | exact H4].
Defined.

(** X25. An exception ends the batch. [move_file] calls [os.makedirs]
    outside its try block, and the loop of [do_organize_all] catches
    nothing: in a round whose file is there and whose title is fetched
    and parsed, a host that refuses to make the folder makes the loop end
    with that exception. No counters are handed over, the file of the
    round stays where it is, [shutil.move] is not called, and the files
    after it are not looked at. *)
Theorem do_organize_all_aborts (self : organizer)
    (titles : nat → option pystr → option pystr * option pystr)
    (flag : nat → bool) (meanwhile : nat → world → world)
    (n : nat) (d : Organizer.detected) (rest : list Organizer.detected)
    (w : world) (t : Organizer.tally)
    (issue error : option pystr) (title msg : pystr) (pt : parsed_title) :
  flag n = true →
  Organizer.issue_of d = Ret issue →
  titles n issue = (Some title, error) →
  parse_ticket_title title = Some pt →
  OS.path_exists w (Organizer.path d) = true →
  mkdir_fault w = Some msg →
  Organizer.organize_from self titles flag meanwhile n (d :: rest) w t
  = (w, Raise (Exn "OSError" msg)).
Proof.
  intros F Hi Ht Hp Hex Hf. simpl. rewrite F. simpl negb. cbv iota.
  unfold Organizer.organize_one. rewrite Hi, Ht.
  assert (Tt : Organizer.truthy_opt (Some title) = true).
  { simpl. destruct title; [|reflexivity].
    vm_compute in Hp. discriminate. }
  rewrite Tt. simpl negb. cbv iota. simpl default. rewrite Hp.
  destruct (build_target_path_truthy self w title pt (Some (Organizer.path d)) Hp)
    as (tf & -> & Htf).
  simpl Organizer.truthy_opt. rewrite (proj2 (truthy_nonempty tf) Htf).
  simpl negb. cbv iota. simpl default.
  rewrite move_file_unfold, Hex. simpl negb. cbv iota.
  unfold OS.makedirs. now rewrite Hf.
Qed.

Lemma do_organize_all_aborts_witness :
  Organizer.organize_from data_root acme_server (λ _, true) (λ _ w, w) 0
    inbox_found w_inbox_readonly (Organizer.Tally 0 0 0 None)
  = (w_inbox_readonly, Raise (Exn "OSError" (ustr "Read-only file system"))).
Proof.
  apply (do_organize_all_aborts data_root acme_server (λ _, true) (λ _ w, w) 0
           (Organizer.Detected (ustr "/dl/b.pdf") (ustr "b.pdf") (Some sample_info))
           [Organizer.Detected (ustr "/dl/a.zip") (ustr "a.zip") (Some sample_info)]
           w_inbox_readonly (Organizer.Tally 0 0 0 None)
           (Some (ustr "12")) None acme_title (ustr "Read-only file system")
           (ParsedTitle (ustr "Acme") (ustr "P100")
              (Some (ustr "Door sensor broken")) 3)).
  - reflexivity.
  - reflexivity.
  - reflexivity.
  - vm_compute. reflexivity.
  - vm_compute. reflexivity.
  - reflexivity.
Defined.

Lemma basename_of_empty : PosixPath.basename [] = [].
Proof. reflexivity. Qed.



(** What [move_file] reports as done was done. *)
Lemma move_file_done (w w' : world) (src tf result : pystr) :
  move_file w src tf = (w', Ret (true, result)) →
  result = chosen_target (fst (OS.makedirs w tf)) tf src
  ∧ moves w' = (src, result) :: moves w
  ∧ OS.path_exists w src = true.
Proof.
  rewrite move_file_unfold.
  destruct (OS.path_exists w src); cbn [negb]; [|discriminate].
  destruct (OS.makedirs w tf) as [w1 [[]|e]] eqn:Em; [|discriminate].
  destruct (makedirs_frame _ _ _ _ Em) as (_ & _ & _ & Hmv & _).
  cbn [fst].
  destruct (OS.shutil_move w1 src _) as [w2 [r|e]] eqn:Es; [|discriminate].
  intros [= <- <-]. split; [reflexivity|]. split; [|reflexivity].
  now rewrite (shutil_move_logged _ _ _ _ _ Es), Hmv.
Qed.

(** X27. [auto_process_file] reports a move only when it made one. When
    the line logged last says the file was moved, the file was there, its
    stream gave an issue number, the server answered with a title, the
    title parsed, the folder named is BASE_OUTPUT_FOLDER / label segments
    / a day, and [shutil.move] was called exactly once, from the file to
    the path named, which lies in that folder under the file's name or
    under its time-stamped name. When the title cannot be read, the
    program leaves the host as it is. *)
Theorem auto_process_file_sound (self : organizer)
    (titles : nat → option pystr → option pystr * option pystr)
    (meanwhile : nat → world → world)
    (w w' : world) (src : pystr) (i : Zone.info) (r : Organizer.auto_log) :
  Organizer.auto_process_file self titles meanwhile w src i = (w', Ret r) →
  (∀ result tf : pystr, r = Organizer.Moved result tf →
     OS.path_exists w src = true
     ∧ (∃ (issue title : pystr) (error : option pystr) (pt : parsed_title)
          (dt : datetime),
          Zone.issue_number i = Some issue ∧ issue ≠ []
          ∧ titles 0%nat (Some issue) = (Some title, error)
          ∧ parse_ticket_title title = Some pt
          ∧ tf = PosixPath.join (BASE_OUTPUT_FOLDER self)
                   (segments pt ++ [yyyymmdd dt]))
     ∧ moves w' = (src, result) :: moves (meanwhile 0%nat w)
     ∧ (result = plain_target tf src
        ∨ result = stamped_target (fst (OS.makedirs (meanwhile 0%nat w) tf)) tf src))
  ∧ (r = Organizer.FileMissing ∨ r = Organizer.IssueMissing → w' = w)
  ∧ ((∃ e, r = Organizer.TitleMissing e) ∨ (∃ s, r = Organizer.TitleUnreadable s)
     ∨ r = Organizer.PathMissing → w' = meanwhile 0%nat w).
Proof.
  unfold Organizer.auto_process_file.
  destruct (OS.path_exists w src) eqn:Hex; cbn [negb].
  2:{ intros [= <- <-]. split; [discriminate|]. split; [auto|].
      intros [[e H]|[[s H]|H]]; discriminate. }
  cbv zeta. destruct (Zone.issue_number i) as [issue|] eqn:Hi; simpl Organizer.truthy_opt.
  2:{ intros [= <- <-]. split; [discriminate|]. split; [auto|].
      intros [[e H]|[[s H]|H]]; discriminate. }
  destruct (truthy issue) eqn:Ti; cbn [negb].
  2:{ intros [= <- <-]. split; [discriminate|]. split; [auto|].
      intros [[e H]|[[s H]|H]]; discriminate. }
  apply truthy_nonempty in Ti.
  unfold Organizer.do_process.
  destruct (titles 0%nat (Some issue)) as [title error] eqn:Ht.
  destruct title as [title|]; simpl Organizer.truthy_opt.
  2:{ intros [= <- <-]. split; [discriminate|].
      split; [intros [H|H]; discriminate | auto]. }
  destruct (truthy title) eqn:Tt; cbn [negb].
  2:{ intros [= <- <-]. split; [discriminate|].
      split; [intros [H|H]; discriminate | auto]. }
  change (default [] (Some title)) with title.
  destruct (parse_ticket_title title) as [pt|] eqn:Hp.
  2:{ intros [= <- <-]. split; [discriminate|].
      split; [intros [H|H]; discriminate | auto]. }
  destruct (date_folder_is_date (meanwhile 0%nat w) (Some src)) as [dt Hd].
  rewrite (build_target_path_dated self _ title pt (Some src) _ Hp Hd).
  set (folder := PosixPath.join (BASE_OUTPUT_FOLDER self) (segments pt ++ [yyyymmdd dt])).
  change (Organizer.truthy_opt (Some folder)) with (truthy folder).
  change (default [] (Some folder)) with folder.
  destruct (truthy folder); cbn [negb].
  2:{ intros [= <- <-]. split; [discriminate|].
      split; [intros [H|H]; discriminate | auto]. }
  destruct (move_file _ src folder) as [w2 [[[|] res]|e]] eqn:Em; [| |discriminate].
  - intros [= <- <-]. split.
    + intros result tf [= <- <-].
      destruct (move_file_done _ _ _ _ _ Em) as (Hr & Hm & _).
      split; [reflexivity|]. split.
      { exists issue, title, error, pt, dt. auto. }
      split; [exact Hm|].
      rewrite Hr. unfold chosen_target.
      destruct (OS.path_exists _ (plain_target folder src)); auto.
    + split; [intros [H|H]; discriminate|].
      intros [[e H]|[[s H]|H]]; discriminate.
  - intros [= <- <-]. split; [discriminate|].
    split; [intros [H|H]; discriminate|].
    intros [[e H]|[[s H]|H]]; discriminate.
Qed.

Lemma auto_process_file_sound_witness :
  moves (fst (Organizer.auto_process_file data_root acme_server (λ _ w, w) w_inbox
                (ustr "/dl/b.pdf") sample_info))
  = (ustr "/dl/b.pdf", ustr "/data/Acme/P100/Door sensor broken/19700101/b.pdf")
    :: moves w_inbox.
Proof.
  apply (proj1 (auto_process_file_sound data_root acme_server (λ _ w, w) w_inbox _
                  (ustr "/dl/b.pdf") sample_info _
                  (pair_with_snd _ _ ltac:(vm_compute; reflexivity)))
           (ustr "/data/Acme/P100/Door sensor broken/19700101/b.pdf")
           (ustr "/data/Acme/P100/Door sensor broken/19700101") eq_refl).
Defined.

(** Every entry of the scan carries what [is_redmine_file] said of it. *)
Lemma scan_downloads_folder_info (dl : pystr) (digit : N → bool)
    (zone : pystr → option pystr) (w : world) (found : list Organizer.detected) :
  Organizer.scan_downloads_folder dl digit zone w = Ret found →
  ∀ d : Organizer.detected, d ∈ found →
    ∃ i : Zone.info,
      Organizer.info d = Some i
      ∧ Zone.is_redmine_file REDMINE_HOST digit (zone (Organizer.path d))
        = (true, Some i).
Proof.
  unfold Organizer.scan_downloads_folder.
  destruct (negb (OS.path_exists w dl)).
  { intros [= <-] d Hd. now apply elem_of_nil in Hd. }
  destruct (listdir w dl) as [names|e]; [|discriminate].
  destruct (Organizer.keyed w _) as [kl|e] eqn:K; [|discriminate].
  intros [= <-] d Hd. apply keyed_spec in K as [K _].
  rewrite sort_desc_perm, K in Hd.
  apply list_elem_of_omap in Hd as (name & _ & Hd).
  apply scan_entry_spec in Hd as (_ & _ & _ & R).
  destruct (is_redmine_file_answers REDMINE_HOST digit (zone (Organizer.path d)))
    as [E|[i E]]; rewrite E in R; [discriminate|].
  injection R as R. eauto.
Qed.

Lemma valid_files_spec (l : list Organizer.detected) :
  Forall (λ d, is_Some (Organizer.info d)) l →
  ∃ valid : list Organizer.detected,
    Organizer.valid_files l = Ret valid
    ∧ valid `sublist_of` l
    ∧ ∀ d : Organizer.detected,
        d ∈ valid ↔
        d ∈ l ∧ ∃ (i : Zone.info) (issue : pystr),
                  Organizer.info d = Some i
                  ∧ Zone.issue_number i = Some issue ∧ issue ≠ [].
Proof.
  induction 1 as [|d l [i Hi] _ (valid & E & Hs & Hv)]; simpl.
  - exists []. split; [reflexivity|]. split; [constructor|].
    intros d. split; [intros H | intros [H _]]; now apply elem_of_nil in H.
  - unfold Organizer.issue_of. rewrite Hi, E.
    destruct (Organizer.truthy_opt (Zone.issue_number i)) eqn:T.
    + exists (d :: valid). split; [reflexivity|].
      split; [now constructor|]. intros d'. rewrite !elem_of_cons, Hv.
      split.
      * intros [->|[H1 H2]]; [|auto]. split; [now left|].
        destruct (Zone.issue_number i) as [issue|] eqn:Ei; [|discriminate].
        exists i, issue. repeat split; auto. now apply truthy_nonempty.
      * intros [[->|H1] H2]; auto.
    + exists valid. split; [reflexivity|].
      split; [now constructor|]. intros d'. rewrite elem_of_cons, Hv.
      split; [intros [H1 H2]; auto|].
      intros [[->|H1] H2]; [|auto]. exfalso.
      destruct H2 as (i' & issue & Hi' & Hn & Hne).
      rewrite Hi in Hi'. injection Hi' as <-. rewrite Hn in T. simpl in T.
      apply Hne. now destruct issue.
Qed.

(** X28. From the scan to the batch. On what [scan_downloads_folder]
    returned, the selection of [auto_organize_all] raises nothing: every
    entry carries a dictionary. It keeps, in the order of the scan,
    exactly the entries with an issue number, and for each of them this
    number is a non-empty run of digits that stands in the ReferrerUrl
    of the file's stream right after /issues/. *)
Theorem valid_files_of_scan (dl : pystr) (digit : N → bool)
    (zone : pystr → option pystr) (w : world) (found : list Organizer.detected) :
  Organizer.scan_downloads_folder dl digit zone w = Ret found →
  ∃ valid : list Organizer.detected,
    Organizer.valid_files found = Ret valid
    ∧ valid `sublist_of` found
    ∧ (∀ d : Organizer.detected,
         d ∈ valid ↔
         d ∈ found ∧ ∃ (i : Zone.info) (issue : pystr),
                       Organizer.info d = Some i
                       ∧ Zone.issue_number i = Some issue ∧ issue ≠ [])
    ∧ ∀ d : Organizer.detected, d ∈ valid →
        ∃ (i : Zone.info) (issue pre post : pystr),
          Organizer.issue_of d = Ret (Some issue)
          ∧ Organizer.info d = Some i
          ∧ Forall (λ c, digit c = true) issue
          ∧ Zone.referrer i = pre ++ ustr "/issues/" ++ issue ++ post.
Proof.
  intros Hscan.
  pose proof (scan_downloads_folder_info _ _ _ _ _ Hscan) as Hinfo.
  destruct (valid_files_spec found) as (valid & E & Hs & Hv).
  { apply Forall_forall. intros d Hd. destruct (Hinfo d Hd) as (i & -> & _). eauto. }
  exists valid. split; [exact E|]. split; [exact Hs|]. split; [exact Hv|].
  intros d Hd. apply Hv in Hd as (Hd & i & issue & Hi & Hn & Hne).
  destruct (Hinfo d Hd) as (i' & Hi' & R).
  rewrite Hi in Hi'. injection Hi' as <-.
  unfold Organizer.issue_of. rewrite Hi, Hn.
  unfold Zone.is_redmine_file in R.
  destruct (zone (Organizer.path d)) as [z|]; [|discriminate].
  destruct (negb (truthy z)); [discriminate|].
  destruct (Zone.parse_zone_identifier (Some z)) as [parsed|]; [|discriminate].
  destruct (bool_decide (parsed = ∅)); [discriminate|].
  destruct (_ || _); [|discriminate].
  injection R as <-. cbn [Zone.issue_number Zone.referrer] in *.
  destruct (search_number_sound _ _ _ _ Hn) as (_ & Hdig & pre & post & Hr & _).
  eexists. exists issue, pre, post. split; [reflexivity|]. split; [reflexivity|].
  split; [exact Hdig | exact Hr].
Qed.

Lemma valid_files_of_scan_witness :
  Organizer.scan_downloads_folder (ustr "/dl") Zone.ascii_digit inbox_streams w_inbox
  = Ret inbox_found
  ∧ ∃ valid : list Organizer.detected,
      Organizer.valid_files inbox_found = Ret valid
      ∧ valid `sublist_of` inbox_found.
Proof.
  assert (H : Organizer.scan_downloads_folder (ustr "/dl") Zone.ascii_digit
                inbox_streams w_inbox = Ret inbox_found)
    by (vm_compute; reflexivity).
  split; [exact H|].
  destruct (valid_files_of_scan _ _ _ _ _ H) as (valid & E & Hs & _).
  exists valid. split; [exact E | exact Hs].
Defined.

(* ===================================================================== *)
(** * The layout of the destination *)
(* ===================================================================== *)











(* ===================================================================== *)
(** * A move that cannot make its folder *)
(* ===================================================================== *)

Lemma move_file_mkdir_fault (w : world) (src tf msg : pystr) :
  OS.path_exists w src = true → mkdir_fault w = Some msg →
  move_file w src tf = (w, Raise (Exn "OSError" msg)).
Proof.
  intros Hex Hf. rewrite move_file_unfold, Hex. cbn [negb].
  unfold OS.makedirs. now rewrite Hf.
Qed.

(** C8, where the code departs from it. The file /dl/b.pdf is there and
    the host refuses to make the target folder (a read-only or missing
    volume): the move fails, and move_file raises the OSError of
    os.makedirs instead of returning a failure result. The same happens
    with FileExistsError when a regular file stands where the target
    folder should be. *)
Theorem move_file_failure_propagates :
  OS.path_exists w_inbox_readonly (ustr "/dl/b.pdf") = true
  ∧ move_file w_inbox_readonly (ustr "/dl/b.pdf")
      (ustr "/data/Acme/P100/Door sensor broken/19700101")
    = (w_inbox_readonly, Raise (Exn "OSError" (ustr "Read-only file system")))
  ∧ OS.path_exists w_stamp_taken (ustr "/dl/a.txt") = true
  ∧ snd (move_file w_stamp_taken (ustr "/dl/a.txt") (ustr "/out/a.txt"))
    = Raise (Exn "FileExistsError" (ustr "/out/a.txt")).
Proof.
  assert (H : OS.path_exists w_inbox_readonly (ustr "/dl/b.pdf") = true)
    by (vm_compute; reflexivity).
  split; [exact H|]. split.
  - now apply move_file_mkdir_fault.
  - split; vm_compute; reflexivity.
Qed.
